(** * Source-Separation: the time-frequency transform codec of [src/transforms.py]

    A shallow embedding of [make_filterbanks], [TorchSTFT], [TorchISTFT],
    [ComplexNorm] and [AudioEncoder].

    Conventions of the embedding.
    - Python [int] arguments ([n_fft], [n_hop], [num_channels], [length]) are
      [Z]; tensor dimensions are [nat].
    - A tensor is its size together with its elements in row-major
      (contiguous) order, so that [view] and [reshape] only change the size.
    - The elements of a waveform and of a spectrogram are real numbers:
      [float32] is idealised by [R], without rounding and without [nan], and
      a complex element is a pair (real part, imaginary part).  Where the
      program can produce [nan] or an infinity from such inputs (the mean
      over no entry, the losses of the trainer), the values are [float]s.
    - [nn.Parameter] objects live in a store and are held by reference, so
      that two modules built from one window really share it.
    - A Python call either returns or raises; a method is a function from
      the store to the new store and the outcome.
    - The PyTorch primitives the file calls ([torch.hann_window],
      [torch.stft], [torch.istft], [F.pad], [Tensor.view],
      [torch.view_as_real], [torch.view_as_complex], [torch.abs],
      [torch.mean]) are modelled in module [Torch] after the PyTorch
      documentation and implementation.  The decoder takes [torch.istft] as
      a parameter, so that what is proved of the wrapper alone holds for
      every implementation of it; the round trip uses [Torch.istft]. *)

From Stdlib Require Import List ZArith Reals Lia Lra Bool.
From Stdlib Require String.

(** The file also embeds the control flow of [Trainer] ([src/trainer.py]):
    see module [Trainer] for what is kept of it. *)
Import ListNotations.

(** ** Outcomes of a Python call *)

Inductive exn : Type :=
| RuntimeError
| IndexError.

Inductive result (A : Type) : Type :=
| Ok (a : A)
| Raise (e : exn).

Arguments Ok {A} a.
Arguments Raise {A} e.

Definition rbind {A B : Type} (r : result A) (k : A -> result B) : result B :=
  match r with
  | Ok a => k a
  | Raise e => Raise e
  end.

Definition rmap {A B : Type} (f : A -> B) (r : result A) : result B :=
  rbind r (fun a => Ok (f a)).

(** ** Tensors *)

Record Tensor (A : Type) : Type := mkTensor {
  size : list nat;
  data : list A
}.

Arguments mkTensor {A} size data.
Arguments size {A} t.
Arguments data {A} t.

Definition numel (s : list nat) : nat := fold_right Nat.mul 1%nat s.

(** A tensor is well formed when it holds as many elements as its size says. *)
Definition contiguous {A : Type} (t : Tensor A) : Prop :=
  length (data t) = numel (size t).

(** A complex number as (real, imaginary). *)
Definition C : Type := (R * R)%type.

(** A floating-point value as far as the program can tell values apart: a
    real number (rounding and overflow are idealised away), an infinity, or
    [nan]. *)
Inductive float : Type :=
| Num (r : R)
| Inf
| NegInf
| NaN.

(** [s[-n:]] on a Python tuple. *)
Definition lastn {A : Type} (n : nat) (l : list A) : list A :=
  skipn (length l - n) l.

(** [s[:-n]] on a Python tuple. *)
Definition droplast {A : Type} (n : nat) (l : list A) : list A :=
  firstn (length l - n) l.

(** [s[-n]] on a Python tuple: [IndexError] when out of range. *)
Definition index_from_end (n : nat) (s : list nat) : result nat :=
  match nth_error (rev s) (n - 1) with
  | Some d => Ok d
  | None => Raise IndexError
  end.

(** ** The store of [nn.Parameter] objects *)

Definition loc : Type := nat.
Definition Store : Type := list (Tensor R).

(** A computation over the store that returns or raises. *)
Definition M (A : Type) : Type := Store -> Store * result A.

Definition ret {A : Type} (a : A) : M A := fun st => (st, Ok a).

Definition bind {A B : Type} (m : M A) (k : A -> M B) : M B :=
  fun st =>
    match m st with
    | (st', Ok a) => k a st'
    | (st', Raise e) => (st', Raise e)
    end.

Definition lift {A : Type} (r : result A) : M A := fun st => (st, r).

Notation "x <- m ;; k" := (bind m (fun x => k))
  (at level 61, m at next level, right associativity).

(** [nn.Parameter(t, requires_grad=False)]: a fresh object holding [t]. *)
Definition new_parameter (t : Tensor R) : M loc :=
  fun st => (st ++ [t], Ok (length st)).

(** Reading the tensor behind a reference.  A reference created by
    [new_parameter] is always valid; the [Raise] branch only makes the
    function total on references that no program can build. *)
Definition read (l : loc) : M (Tensor R) :=
  fun st =>
    match nth_error st l with
    | Some t => (st, Ok t)
    | None => (st, Raise RuntimeError)
    end.

(** ** PyTorch primitives *)

Module Torch.

Local Open Scope R_scope.

(** [torch.hann_window(window_length)], with its default [periodic=True]:
    the symmetric Hann window of length [window_length + 1] without its last
    entry, that is [0.5 - 0.5 * cos(2 pi k / window_length)].  Lengths 0 and
    1 are special cases of the implementation; a negative length raises. *)
Definition hann_entry (N : nat) (k : nat) : R :=
  1 / 2 - 1 / 2 * cos (INR k * (2 * PI / INR N)).

Definition hann_window (window_length : Z) : result (Tensor R) :=
  if (window_length <? 0)%Z then Raise RuntimeError
  else if (window_length =? 0)%Z then Ok (mkTensor [0%nat] [])
  else if (window_length =? 1)%Z then Ok (mkTensor [1%nat] [1])
  else
    let N := Z.to_nat window_length in
    Ok (mkTensor [N] (map (hann_entry N) (seq 0 N))).

(** [t.view(s)] for a size [s] without [-1]. *)
Definition view {A : Type} (t : Tensor A) (s : list nat) : result (Tensor A) :=
  if (numel s =? numel (size t))%nat then Ok (mkTensor s (data t))
  else Raise RuntimeError.

(** [t.view(-1, *ds)]: the first dimension is inferred, which is impossible
    when the given dimensions multiply to 0 or do not divide the number of
    elements.  On the contiguous tensors of this model [reshape] is [view]. *)
Definition view_infer {A : Type} (t : Tensor A) (ds : list nat) : result (Tensor A) :=
  if (numel ds =? 0)%nat then Raise RuntimeError
  else if (numel (size t) mod numel ds =? 0)%nat
       then Ok (mkTensor ((numel (size t) / numel ds)%nat :: ds) (data t))
       else Raise RuntimeError.

(** [torch.view_as_real]: a trailing axis of size 2 holding (re, im). *)
Definition view_as_real (t : Tensor C) : Tensor R :=
  mkTensor (size t ++ [2%nat])
           (flat_map (fun z => [fst z; snd z]) (data t)).

Fixpoint pairs (l : list R) : list C :=
  match l with
  | re :: im :: l' => (re, im) :: pairs l'
  | _ => []
  end.

(** [torch.view_as_complex]: the last axis must have size 2. *)
Definition view_as_complex (t : Tensor R) : result (Tensor C) :=
  match rev (size t) with
  | 2%nat :: s => Ok (mkTensor (rev s) (pairs (data t)))
  | _ => Raise RuntimeError
  end.

(** [torch.abs] on a complex tensor. *)
Definition cabs (z : C) : R := sqrt (fst z * fst z + snd z * snd z).

Definition abs (t : Tensor C) : Tensor R :=
  mkTensor (size t) (map cabs (data t)).

Definition rsum (l : list R) : R := fold_right Rplus 0 l.

(** A real tensor read as a tensor of floats. *)
Definition floats (t : Tensor R) : Tensor float :=
  mkTensor (size t) (map Num (data t)).

(** The sum of two floats: [nan] is absorbing, and so is the sum of the
    two infinities. *)
Definition fadd (a b : float) : float :=
  match a, b with
  | NaN, _ | _, NaN => NaN
  | Inf, NegInf | NegInf, Inf => NaN
  | Inf, _ | _, Inf => Inf
  | NegInf, _ | _, NegInf => NegInf
  | Num x, Num y => Num (x + y)
  end.

Definition fsum (l : list float) : float := fold_right fadd (Num 0) l.

(** [t.mean()] on the entries of [t]: their sum divided by their number,
    which is [0 / 0 = nan] when there is no entry. *)
Definition mean (l : list float) : float :=
  match length l with
  | O => NaN
  | S _ =>
      match fsum l with
      | Num s => Num (s / INR (length l))
      | other => other
      end
  end.

(** [torch.mean(t, 1, keepdim=True)] on a real tensor: the mean along
    axis 1, the sum of the [d1] entries divided by [d1]; the axis stays in
    the size with length 1.  Over an empty axis every mean is [nan]. *)
Definition mean_entry (d1 inner : nat) (xs : list R) (b i : nat) : float :=
  mean (map (fun c => Num (nth ((b * d1 + c) * inner + i) xs 0)) (seq 0 d1)).

Definition mean_dim1_keepdim (t : Tensor R) : result (Tensor float) :=
  match size t with
  | d0 :: d1 :: rest =>
      let inner := numel rest in
      Ok (mkTensor (d0 :: 1%nat :: rest)
            (flat_map (fun b => map (mean_entry d1 inner (data t) b) (seq 0 inner))
                      (seq 0 d0)))
  | _ => Raise IndexError
  end.

(** [F.pad(row, (p, p), mode='reflect')] on one row: the row is mirrored
    at both ends without repeating the end samples. *)
Definition reflect_pad (p : nat) (row : list R) : list R :=
  rev (firstn p (tl row)) ++ row ++ firstn p (tl (rev row)).

(** Row [b] of a 2-D tensor with rows of length [L]. *)
Definition row_of (L : nat) (xs : list R) (b : nat) : list R :=
  firstn L (skipn (b * L) xs).

(** Frame [t]: [n] samples starting at [t * hop]. *)
Definition frame (n hop : nat) (row : list R) (t : nat) : list R :=
  firstn n (skipn (t * hop) row).

(** A frame multiplied by the window, entry by entry. *)
Definition windowed (w xs : list R) : list R :=
  map (fun p => fst p * snd p) (combine xs w).

(** Bin [f] of the discrete Fourier transform of [n] real samples,
    not normalised. *)
Definition rfft_bin (n : nat) (xs : list R) (f : nat) : C :=
  (rsum (map (fun k => nth k xs 0 * cos (2 * PI * INR f * INR k / INR n)) (seq 0 n)),
   - rsum (map (fun k => nth k xs 0 * sin (2 * PI * INR f * INR k / INR n)) (seq 0 n))).

(** The frames of every row, transformed: for each row, for each of the
    [bins] frequencies, one entry per frame (size [N; bins; n_frames]). *)
Definition spectrogram (n hop bins n_frames : nat) (w : list R)
    (rows : list (list R)) : list C :=
  flat_map (fun row =>
    flat_map (fun f =>
      map (fun t => rfft_bin n (windowed w (frame n hop row t)) f) (seq 0 n_frames))
      (seq 0 bins))
    rows.

(** [torch.stft(x, n_fft, hop_length, window=window, center=center,
    normalized=False, onesided=True, pad_mode="reflect",
    return_complex=True)] on [N] rows of [L] samples.

    With [center], every row is first reflect-padded by [n_fft // 2] on both
    sides, which needs a non-empty batch and [n_fft // 2 < L].  Then the
    checks [0 < n_fft <= len], [0 < hop_length] and
    [window.size() = (n_fft,)]; every failure is a [RuntimeError] (a
    non-positive [n_fft] is one in either step).  The result has
    [n_fft // 2 + 1] bins and [1 + (len - n_fft) // hop_length] frames.
    (On an empty batch without [center] the transform of no signal is left
    to the FFT backend, which may raise; the model returns the empty
    spectrogram there.) *)
Definition stft_rows (N L : nat) (xs : list R) (n_fft hop_length : Z)
    (window : Tensor R) (center : bool) : result (Tensor C) :=
  if (n_fft <=? 0)%Z then Raise RuntimeError
  else
    let n := Z.to_nat n_fft in
    let pad := Z.to_nat (n_fft / 2) in
    rbind
      (if center
       then if ((N =? 0) || (L <=? pad))%nat then Raise RuntimeError
            else Ok ((L + 2 * pad)%nat,
                     map (fun b => reflect_pad pad (row_of L xs b)) (seq 0 N))
       else Ok (L, map (row_of L xs) (seq 0 N)))
      (fun padded =>
         let len := fst padded in
         if (len <? n)%nat then Raise RuntimeError
         else if (hop_length <=? 0)%Z then Raise RuntimeError
         else
           match size window with
           | [wl] =>
               if (wl =? n)%nat
               then
                 let hop := Z.to_nat hop_length in
                 let n_frames := (1 + (len - n) / hop)%nat in
                 let bins := (n / 2 + 1)%nat in
                 Ok (mkTensor [N; bins; n_frames]
                       (spectrogram n hop bins n_frames (data window) (snd padded)))
               else Raise RuntimeError
           | _ => Raise RuntimeError
           end).

(** [torch.stft] takes a 1-D signal or a 2-D batch of signals; a 1-D
    signal is treated as a batch of one and the batch axis is dropped. *)
Definition stft (x : Tensor R) (n_fft hop_length : Z) (window : Tensor R)
    (center : bool) : result (Tensor C) :=
  match size x with
  | [L] =>
      rmap (fun y => mkTensor (tl (size y)) (data y))
           (stft_rows 1 L (data x) n_fft hop_length window center)
  | [N; L] => stft_rows N L (data x) n_fft hop_length window center
  | _ => Raise RuntimeError
  end.

(** The spectrum that a one-sided spectrum of [n / 2 + 1] bins stands for:
    bin [f] beyond [n / 2] is the conjugate of bin [n - f]. *)
Definition hermitian (n : nat) (X : list C) (f : nat) : C :=
  if (f <=? n / 2)%nat then nth f X (0, 0)
  else (fst (nth (n - f) X (0, 0)), - snd (nth (n - f) X (0, 0))).

(** Sample [k] of the inverse real transform of length [n] of a one-sided
    spectrum, normalised by [1 / n]: the real part of the inverse discrete
    Fourier transform of its Hermitian extension, in which the imaginary
    parts of bin 0 and, for an even [n], of bin [n / 2] play no role. *)
Definition irfft_entry (n : nat) (X : list C) (k : nat) : R :=
  rsum (map (fun f => fst (hermitian n X f) * cos (2 * PI * INR f * INR k / INR n)
                      - snd (hermitian n X f) * sin (2 * PI * INR f * INR k / INR n))
            (seq 0 n)) / INR n.

(** The [F] bins of frame [t] of signal [b] in a spectrogram of size
    [(N, F, T)]. *)
Definition bins_of (F T : nat) (X : list C) (b t : nat) : list C :=
  map (fun f => nth ((b * F + f) * T + t) X (0, 0)) (seq 0 F).

(** Overlap-add of [T] frames of [n] samples placed [hop] apart: sample [i]
    of the sum is the sum, over the frames that cover [i], of their sample at
    that place. *)
Definition overlap_add (n hop T : nat) (y : nat -> nat -> R) (i : nat) : R :=
  rsum (map (fun t => if ((t * hop <=? i) && (i <? t * hop + n))%nat
                      then y t (i - t * hop)%nat else 0)
            (seq 0 T)).

(** The window envelope: the overlap-add of the squared window. *)
Definition window_envelope (n hop T : nat) (w : list R) (i : nat) : R :=
  overlap_add n hop T (fun _ k => nth k w 0 * nth k w 0) i.

(** Where [t.slice(dim, start, end)] ends on an axis of [size] entries, for
    [0 <= start <= size]: a negative [end] counts from the end of the axis,
    and the result is clamped between [start] and [size]. *)
Definition slice_end (size start : nat) (end_ : option Z) : nat :=
  match end_ with
  | None => size
  | Some e =>
      let e := if (e <? 0)%Z then (e + Z.of_nat size)%Z else e in
      Z.to_nat (Z.max (Z.of_nat start) (Z.min e (Z.of_nat size)))
  end.

(** [torch.istft(X, n_fft, hop_length, window=window, center=center,
    normalized=False, onesided=True, length=length)] on a complex
    spectrogram of [N] signals, [F] bins and [T] frames.

    The checks: the spectrogram is not empty, [F = n_fft // 2 + 1],
    [0 < hop_length <= n_fft] and [window.size() = (n_fft,)]; every failure
    is a [RuntimeError].  Every frame is transformed back, multiplied by the
    window and overlap-added into a signal of [n_fft + hop_length * (T - 1)]
    samples, and so is the squared window, which gives the envelope.  Both
    are cut to the samples from [start] to [end], where [start] is
    [n_fft // 2] with [center] and 0 without, and [end] is [start + length],
    or, without [length], [n_fft // 2] before the last sample with [center]
    and the last sample without.  The cut must leave a sample, and the
    envelope must be at least [1e-11] in absolute value at every sample left
    (otherwise a [RuntimeError]: the window overlap-adds to zero there); the
    signal is divided by the envelope, and padded with zeros when [end] is
    beyond the samples that the frames cover. *)
Definition istft_rows (N F T : nat) (X : list C) (n_fft hop_length : Z)
    (window : Tensor R) (center : bool) (length : option Z) : result (Tensor R) :=
  if (n_fft <=? 0)%Z then Raise RuntimeError
  else if (N * F * T =? 0)%nat then Raise RuntimeError
  else
    let n := Z.to_nat n_fft in
    if negb (F =? n / 2 + 1)%nat then Raise RuntimeError
    else if ((hop_length <=? 0) || (n_fft <? hop_length))%Z then Raise RuntimeError
    else
      match size window with
      | [wl] =>
          if (wl =? n)%nat
          then
            let hop := Z.to_nat hop_length in
            let w := data window in
            let expected := (n + hop * (T - 1))%nat in
            let start := if center then Z.to_nat (n_fft / 2) else 0%nat in
            let end_ :=
              match length with
              | Some l => Some (Z.of_nat start + l)%Z
              | None => if center then Some (- (n_fft / 2))%Z else None
              end in
            let stop := slice_end expected start end_ in
            let kept := seq start (stop - start) in
            if (stop <=? start)%nat then Raise RuntimeError
            else if existsb (fun i =>
                      if Rlt_dec (Rabs (window_envelope n hop T w i)) 1e-11
                      then true else false) kept
            then Raise RuntimeError
            else
              let pad :=
                match end_ with
                | Some e => Z.to_nat (e - Z.of_nat expected)
                | None => 0%nat
                end in
              Ok (mkTensor [N; (stop - start + pad)%nat]
                    (flat_map (fun b =>
                       map (fun i =>
                              overlap_add n hop T
                                (fun t k => irfft_entry n (bins_of F T X b t) k * nth k w 0) i
                              / window_envelope n hop T w i)
                           kept
                       ++ repeat 0 pad)
                       (seq 0 N)))
          else Raise RuntimeError
      | _ => Raise RuntimeError
      end.

(** [torch.istft] takes the spectrogram of one signal or of a batch of
    signals; one signal is treated as a batch of one and the batch axis is
    dropped. *)
Definition istft (X : Tensor C) (n_fft hop_length : Z) (window : Tensor R)
    (center : bool) (length : option Z) : result (Tensor R) :=
  match size X with
  | [F; T] =>
      rmap (fun y => mkTensor (tl (size y)) (data y))
           (istft_rows 1 F T (data X) n_fft hop_length window center length)
  | [N; F; T] => istft_rows N F T (data X) n_fft hop_length window center length
  | _ => Raise RuntimeError
  end.

End Torch.

(** ** [class TorchSTFT] *)

Module TorchSTFT.

Record t : Type := mk {
  window : loc;
  n_fft : Z;
  n_hop : Z;
  center : bool
}.

(** [TorchSTFT.__init__(self, n_fft, n_hop, center, window)]: the window is
    the given parameter or a fresh Hann window; the other arguments are
    stored as they come. *)
Definition __init__ (n_fft n_hop : Z) (center : bool) (window : option loc) : M t :=
  w <- match window with
       | None => h <- lift (Torch.hann_window n_fft) ;; new_parameter h
       | Some w => ret w
       end ;;
  ret (mk w n_fft n_hop center).

(** [TorchSTFT.forward(self, x)]. *)
Definition forward (self : t) (x : Tensor R) : M (Tensor R) :=
  let shape := size x in
  nb_timesteps <- lift (index_from_end 1 shape) ;;
  x <- lift (Torch.view_infer x [nb_timesteps]) ;;
  w <- read (window self) ;;
  complex_stft <- lift (Torch.stft x (n_fft self) (n_hop self) w (center self)) ;;
  let stft_f := Torch.view_as_real complex_stft in
  lift (Torch.view stft_f (droplast 1 shape ++ lastn 3 (size stft_f))).

End TorchSTFT.

(** ** [class TorchISTFT] *)

Module TorchISTFT.

Record t : Type := mk {
  n_fft : Z;
  n_hop : Z;
  center : bool;
  sample_rate : R;
  window : loc
}.

(** [TorchISTFT.__init__(self, n_fft, n_hop, center, sample_rate, window)]. *)
Definition __init__ (n_fft n_hop : Z) (center : bool) (sample_rate : R)
    (window : option loc) : M t :=
  w <- match window with
       | None => h <- lift (Torch.hann_window n_fft) ;; new_parameter h
       | Some w => ret w
       end ;;
  ret (mk n_fft n_hop center sample_rate w).

Section Forward.

(** [torch.istft(X, n_fft, hop_length, window, center, length)] with
    [normalized=False] and [onesided=True]: a parameter, [Torch.istft] being
    the model of it. *)
Variable torch_istft :
  Tensor C -> Z -> Z -> Tensor R -> bool -> option Z -> result (Tensor R).

(** [TorchISTFT.forward(self, X, length)]. *)
Definition forward (self : t) (X : Tensor R) (length : option Z) : M (Tensor R) :=
  let shape := size X in
  d3 <- lift (index_from_end 3 shape) ;;
  d2 <- lift (index_from_end 2 shape) ;;
  d1 <- lift (index_from_end 1 shape) ;;
  X <- lift (Torch.view_infer X [d3; d2; d1]) ;;
  Xc <- lift (Torch.view_as_complex X) ;;
  w <- read (window self) ;;
  y <- lift (torch_istft Xc (n_fft self) (n_hop self) w (center self) length) ;;
  lift (Torch.view y (droplast 3 shape ++ lastn 1 (size y))).

End Forward.

End TorchISTFT.

(** ** [make_filterbanks] *)

Definition make_filterbanks (n_fft n_hop : Z) (center : bool)
    : M (TorchSTFT.t * TorchISTFT.t) :=
  h <- lift (Torch.hann_window n_fft) ;;
  window <- new_parameter h ;;
  encoder <- TorchSTFT.__init__ n_fft n_hop center (Some window) ;;
  decoder <- TorchISTFT.__init__ n_fft n_hop center 44100%R (Some window) ;;
  ret (encoder, decoder).

(** ** [class ComplexNorm] *)

Module ComplexNorm.

Record t : Type := mk { mono : bool }.

Definition __init__ (mono : bool) : t := mk mono.

(** [ComplexNorm.forward(self, spec)]: the magnitude, then the mean over
    axis 1 when [mono].  The magnitudes of real entries are real; the mean
    is [nan] where there is no channel to average. *)
Definition forward (self : t) (spec : Tensor R) : result (Tensor float) :=
  rbind (Torch.view_as_complex spec) (fun z =>
    let spec := Torch.abs z in
    if mono self then Torch.mean_dim1_keepdim spec else Ok (Torch.floats spec)).

End ComplexNorm.

(** ** [class AudioEncoder] *)

Module AudioEncoder.

Record t : Type := mk {
  stft : TorchSTFT.t;
  complex_norm : ComplexNorm.t
}.

(** [AudioEncoder.__init__(self, n_fft, n_hop, sample_rate, num_channels)]:
    the encoder takes the defaults [center=False] and [window=None]. *)
Definition __init__ (n_fft n_hop : Z) (sample_rate : R) (num_channels : Z) : M t :=
  stft <- TorchSTFT.__init__ n_fft n_hop false None ;;
  let complex_norm := ComplexNorm.__init__ (num_channels =? 1)%Z in
  ret (mk stft complex_norm).

(** [AudioEncoder.forward(self, x)]. *)
Definition forward (self : t) (x : Tensor R) : M (Tensor float) :=
  stft_f <- TorchSTFT.forward (stft self) x ;;
  lift (ComplexNorm.forward (complex_norm self) stft_f).

End AudioEncoder.

(** ** Vocabulary of the statements *)

(** A computation is read-only when it hands the store back as it got it. *)
Definition read_only {A : Type} (m : M A) : Prop :=
  forall st, fst (m st) = st.

(** What a forward pass returns only depends on the store through the
    window it reads. *)
Definition stft_outcome (w : option (Tensor R)) (n_fft n_hop : Z) (center : bool)
    (x : Tensor R) : result (Tensor R) :=
  rbind (index_from_end 1 (size x)) (fun nb_timesteps =>
  rbind (Torch.view_infer x [nb_timesteps]) (fun x' =>
  rbind (match w with Some w => Ok w | None => Raise RuntimeError end) (fun w =>
  rbind (Torch.stft x' n_fft n_hop w center) (fun complex_stft =>
    let stft_f := Torch.view_as_real complex_stft in
    Torch.view stft_f (droplast 1 (size x) ++ lastn 3 (size stft_f)))))).

(** The magnitude of complex entry [j] of a tensor whose last axis holds
    (re, im): [sqrt(re^2 + im^2)]. *)
Definition bin_magnitude (spec : Tensor R) (j : nat) : R :=
  sqrt (nth (2 * j) (data spec) 0%R * nth (2 * j) (data spec) 0%R +
        nth (2 * j + 1) (data spec) 0%R * nth (2 * j + 1) (data spec) 0%R).

(** A float that is [>= 0]: a real number that is not negative, or the
    positive infinity; [nan] is not. *)
Definition float_nonneg (v : float) : Prop :=
  match v with
  | Num r => (0 <= r)%R
  | Inf => True
  | NegInf | NaN => False
  end.

(** The sizes of the spectrogram an encoder returns on [L] samples. *)
Definition padded_length (center : bool) (n_fft : Z) (L : nat) : Z :=
  if center then (Z.of_nat L + 2 * (n_fft / 2))%Z else Z.of_nat L.

Definition n_frames (center : bool) (n_fft n_hop : Z) (L : nat) : nat :=
  Z.to_nat (1 + (padded_length center n_fft L - n_fft) / n_hop).

Definition freq_bins (n_fft : Z) : nat := Z.to_nat (n_fft / 2 + 1).

(** The overlap condition of a centred codec on signals of [L] samples:
    at every sample of the signal, the squares of the window entries of the
    frames that cover the sample add up to [1e-11] at least. *)
Definition overlap_ok (w : Tensor R) (n_fft n_hop : Z) (L : nat) : Prop :=
  forall j, (j < L)%nat ->
    (1e-11 <= Torch.window_envelope (Z.to_nat n_fft) (Z.to_nat n_hop)
                (n_frames true n_fft n_hop L) (data w)
                (Z.to_nat (n_fft / 2) + j))%R.

(** ** Concrete inputs *)

(** A store holding one window of three entries, at reference 0. *)
Definition store3 : Store := [mkTensor [3%nat] [1%R; 1%R; 1%R]].

(** A store with the same four-entry window held twice, at references 0
    and 1. *)
Definition window4 : Tensor R := mkTensor [4%nat] [0%R; (1/2)%R; 1%R; (1/2)%R].
Definition store44 : Store := [window4; window4].

(** Six samples in one batch and one channel. *)
Definition ramp6 : Tensor R :=
  mkTensor [1%nat; 1%nat; 6%nat] [1%R; 2%R; 3%R; 4%R; 5%R; 6%R].

(** The Hann window of four entries, as [torch.hann_window(4)] builds it. *)
Definition hann4 : Tensor R :=
  mkTensor [4%nat] (map (Torch.hann_entry 4) (seq 0 4)).

(** Three samples in one batch and one channel. *)
Definition ramp3 : Tensor R :=
  mkTensor [1%nat; 1%nat; 3%nat] [1%R; 2%R; 3%R].

(** Five samples in one batch and one channel. *)
Definition ramp5 : Tensor R :=
  mkTensor [1%nat; 1%nat; 5%nat] [1%R; 2%R; 3%R; 4%R; 5%R].

(** A spectrogram of one batch, two channels, one bin and one frame, whose
    complex entries are [1] and [-1]. *)
Definition opposite_channels : Tensor R :=
  mkTensor [1%nat; 2%nat; 1%nat; 1%nat; 2%nat] [1%R; 0%R; (-1)%R; 0%R].

(** A spectrogram of two batches without any channel, of one bin and one
    frame: it has no entry. *)
Definition no_channel : Tensor R :=
  mkTensor [2%nat; 0%nat; 1%nat; 1%nat; 2%nat] [].



(** ** [class Trainer] ([src/trainer.py])

    The trainer drives collaborators that are not in the repository's
    files (the model, the criterion, the optimizer, the scheduler, the
    gradient scaler, the data loaders, the logger, [torch.save]).  The
    embedding keeps the attributes that decide the control flow and records
    the calls made on the collaborators, in order; a collaborator is taken
    to return.  Progress bars, [print], the transfer to the device and the
    [autocast] context are not recorded.  The losses that the validation
    steps return are a parameter: any floats, [nan] and the infinities
    included. *)

Module Trainer.

(** [a < b] on floats: false as soon as one side is [nan]. *)
Definition float_ltb (a b : float) : bool :=
  match a, b with
  | Num x, Num y => if Rlt_dec x y then true else false
  | Num _, Inf => true
  | NegInf, Num _ => true
  | NegInf, Inf => true
  | _, _ => false
  end.

(** The file a checkpoint goes to, under [checkpoint_dir]:
    [f'epoch={cur_ep}-loss={loss:.4f}.pth'] or [CKPT_FILE]. *)
Inductive file : Type :=
| EpochFile (cur_ep : Z) (loss : float)
| BestFile.

(** The calls on the collaborators. *)
Inductive call : Type :=
| EncoderTo                              (* self.encoder.to(self.device) *)
| ModelTo                                (* self.model.to(self.device) *)
| ModelTrain                             (* self.model.train() *)
| ModelEval                              (* self.model.eval() *)
| TrainStep (step : Z)                   (* self.train_step(batch_data) *)
| ValidStep                              (* self.valid_step(batch_data) *)
| Backward (step : Z)                    (* grad_scaler.scale(loss / accum).backward() *)
| Unscale                                (* grad_scaler.unscale_(optimizer) *)
| ClipGradNorm (max_norm : R)            (* nn.utils.clip_grad_norm_ *)
| ScalerStep                             (* grad_scaler.step(optimizer) *)
| ScalerUpdate                           (* grad_scaler.update() *)
| ZeroGrad                               (* optimizer.zero_grad() *)
| SchedulerStep                          (* lr_scheduler.step() *)
| LogTrain (step : Z)                    (* logger.log(record) in training *)
| LogValid (epoch : Z) (valid_loss best_loss : float)
                                         (* logger.log(record) in validation *)
| Save (dir : String.string) (f : file) (epoch : Z).
                                         (* torch.save({'epoch': ...}, path) *)

Inductive error : Type :=
| ZeroDivisionError
| TypeError.

Record t : Type := mk {
  train_num : nat;                       (* len(self.train_loader) *)
  has_logger : bool;                     (* self.logger is not None *)
  accum_grad_step : Z;
  clip_grad_norm : option R;
  disable_valid_on_start : bool;
  cur_ep : Z;
  checkpoint_dir : option String.string;
  best_loss : float
}.

(** [Trainer.__init__]: the epoch counter starts at 0 and the best loss at
    [float('inf')]. *)
Definition __init__ (train_num : nat) (has_logger : bool) (accum_grad_step : Z)
    (clip_grad_norm : option R) (disable_valid_on_start : bool)
    (checkpoint_dir : option String.string) : t :=
  mk train_num has_logger accum_grad_step clip_grad_norm disable_valid_on_start
     0 checkpoint_dir Inf.

Definition set_cur_ep (self : t) (ep : Z) : t :=
  mk (train_num self) (has_logger self) (accum_grad_step self) (clip_grad_norm self)
     (disable_valid_on_start self) ep (checkpoint_dir self) (best_loss self).

Definition set_best_loss (self : t) (v : float) : t :=
  mk (train_num self) (has_logger self) (accum_grad_step self) (clip_grad_norm self)
     (disable_valid_on_start self) (cur_ep self) (checkpoint_dir self) v.

(** [Trainer.log]: nothing without a logger. *)
Definition log (self : t) (record : call) : list call :=
  if has_logger self then [record] else [].

(** The body of the loop of [train_one_epoch] at [step], and the steps
    after it: the calls made, and the exception that stopped the epoch if
    any.  [step % accum_grad_step] raises when [accum_grad_step] is 0, after
    the backward pass (a tensor divided by 0 does not raise). *)
Fixpoint train_steps (self : t) (step : Z) (n : nat) : list call * option error :=
  match n with
  | O => ([], None)
  | S n' =>
      let forward := [TrainStep step; Backward step] in
      if (accum_grad_step self =? 0)%Z then (forward, Some ZeroDivisionError)
      else
        let update :=
          if (step mod accum_grad_step self =? 0)%Z
          then [Unscale]
               ++ match clip_grad_norm self with
                  | Some c => [ClipGradNorm c]
                  | None => []
                  end
               ++ [ScalerStep; ScalerUpdate; ZeroGrad; SchedulerStep]
          else [] in
        let (rest, err) := train_steps self (step + 1) n' in
        (forward ++ update ++ log self (LogTrain step) ++ rest, err)
  end.

(** [Trainer.train_one_epoch]: steps are counted from 1. *)
Definition train_one_epoch (self : t) : list call * option error :=
  let (calls, err) := train_steps self 1 (train_num self) in
  (ModelTrain :: calls, err).

Section Validation.

(** [round(loss, 4)] on real numbers. *)
Variable round4 : R -> R.

(** [torch.tensor([o['loss'] for o in outputs]).mean().item()] on the
    losses that the validation steps returned: [nan] when there is none or
    when one of them is [nan], infinite when one of them is. *)
Definition mean_loss (losses : list float) : float := Torch.mean losses.

(** [round(loss, 4)]: an infinity and [nan] are returned as they are. *)
Definition round_loss (loss : float) : float :=
  match loss with
  | Num r => Num (round4 r)
  | other => other
  end.

(** [Trainer.valid_one_epoch], when the validation steps return [losses]:
    the new state, the calls, and the exception if any.
    [os.path.join(None, ...)] raises a [TypeError]. *)
Definition valid_one_epoch (self : t) (losses : list float)
    : t * list call * option error :=
  let steps := ModelEval :: map (fun _ => ValidStep) losses in
  let loss := mean_loss losses in
  let valid_loss := round_loss loss in
  let logged := log self (LogValid (cur_ep self) valid_loss (best_loss self)) in
  match checkpoint_dir self with
  | None => (self, steps ++ logged, Some TypeError)
  | Some dir =>
      let saved := [Save dir (EpochFile (cur_ep self) loss) (cur_ep self)] in
      if float_ltb valid_loss (best_loss self)
      then (set_best_loss self valid_loss,
            steps ++ logged ++ saved ++ [Save dir BestFile (cur_ep self)], None)
      else (self, steps ++ logged ++ saved, None)
  end.

(** The epochs [ep], [ep + 1], ... of [fit], [n] of them; [k] counts the
    validations made so far and [losses k] is what the steps of
    validation [k] return. *)
Fixpoint epochs_from (losses : nat -> list float) (self : t) (ep : Z) (k n : nat)
    : t * list call * option error :=
  match n with
  | O => (self, [], None)
  | S n' =>
      let self := set_cur_ep self ep in
      match train_one_epoch self with
      | (trained, Some e) => (self, trained, Some e)
      | (trained, None) =>
          match valid_one_epoch self (losses k) with
          | (self', validated, Some e) => (self', trained ++ validated, Some e)
          | (self', validated, None) =>
              match epochs_from losses self' (ep + 1) (S k) n' with
              | (self'', rest, err) => (self'', trained ++ validated ++ rest, err)
              end
          end
      end
  end.

(** [Trainer.fit(epochs)]: a validation first unless disabled, then
    [for self.cur_ep in range(1, epochs + 1)]. *)
Definition fit (losses : nat -> list float) (self : t) (epochs : Z)
    : t * list call * option error :=
  let moved := [EncoderTo; ModelTo] in
  if disable_valid_on_start self
  then match epochs_from losses self 1 0 (Z.to_nat epochs) with
       | (self', rest, err) => (self', moved ++ rest, err)
       end
  else match valid_one_epoch self (losses 0%nat) with
       | (self', validated, Some e) => (self', moved ++ validated, Some e)
       | (self', validated, None) =>
           match epochs_from losses self' 1 1 (Z.to_nat epochs) with
           | (self'', rest, err) => (self'', moved ++ validated ++ rest, err)
           end
       end.

End Validation.

End Trainer.

(** ** Vocabulary of the further properties *)

(** When the encoder accepts [L] samples per signal, given the window it
    holds. *)
Definition stft_accepts (n_fft n_hop : Z) (center : bool) (w : Tensor R)
    (L : nat) : Prop :=
  (0 < n_fft)%Z /\ (0 < n_hop)%Z /\ size w = [Z.to_nat n_fft] /\
  (if center then (n_fft / 2 < Z.of_nat L)%Z else (n_fft <= Z.of_nat L)%Z).

(** A tensor multiplied by a real number, entry by entry. *)
Definition scale (a : R) (t : Tensor R) : Tensor R :=
  mkTensor (size t) (map (Rmult a) (data t)).

Definition cscale (a : R) (z : C) : C := ((a * fst z)%R, (a * snd z)%R).

(** A float multiplied by a real number, and a tensor of floats multiplied
    by it entry by entry. *)
Definition fmul (a : R) (v : float) : float :=
  match v with
  | Num r => Num (a * r)
  | Inf => if Rlt_dec 0 a then Inf else if Rlt_dec a 0 then NegInf else NaN
  | NegInf => if Rlt_dec 0 a then NegInf else if Rlt_dec a 0 then Inf else NaN
  | NaN => NaN
  end.

Definition fscale (a : R) (t : Tensor float) : Tensor float :=
  mkTensor (size t) (map (fmul a) (data t)).

(** Two lists combined entry by entry, as far as the shorter one goes. *)
Definition zip_with {A : Type} (op : A -> A -> A) (l1 l2 : list A) : list A :=
  map (fun p => op (fst p) (snd p)) (combine l1 l2).

(** The sum of two tensors of the same size, entry by entry. *)
Definition add (x y : Tensor R) : Tensor R :=
  mkTensor (size x) (zip_with Rplus (data x) (data y)).

Definition cadd (z1 z2 : C) : C := ((fst z1 + fst z2)%R, (snd z1 + snd z2)%R).

(** How many calls of a trace satisfy a test, and the tests used. *)
Definition count {A : Type} (p : A -> bool) (l : list A) : nat :=
  length (filter p l).

Definition is_train_step (c : Trainer.call) : bool :=
  match c with Trainer.TrainStep _ => true | _ => false end.
Definition is_backward (c : Trainer.call) : bool :=
  match c with Trainer.Backward _ => true | _ => false end.
Definition is_unscale (c : Trainer.call) : bool :=
  match c with Trainer.Unscale => true | _ => false end.
Definition is_clip (c : Trainer.call) : bool :=
  match c with Trainer.ClipGradNorm _ => true | _ => false end.
Definition is_scaler_step (c : Trainer.call) : bool :=
  match c with Trainer.ScalerStep => true | _ => false end.
Definition is_zero_grad (c : Trainer.call) : bool :=
  match c with Trainer.ZeroGrad => true | _ => false end.
Definition is_scheduler_step (c : Trainer.call) : bool :=
  match c with Trainer.SchedulerStep => true | _ => false end.
Definition is_log_train (c : Trainer.call) : bool :=
  match c with Trainer.LogTrain _ => true | _ => false end.
Definition is_model_train (c : Trainer.call) : bool :=
  match c with Trainer.ModelTrain => true | _ => false end.
Definition is_model_eval (c : Trainer.call) : bool :=
  match c with Trainer.ModelEval => true | _ => false end.
Definition is_save (c : Trainer.call) : bool :=
  match c with Trainer.Save _ _ _ => true | _ => false end.
Definition is_save_best (c : Trainer.call) : bool :=
  match c with Trainer.Save _ Trainer.BestFile _ => true | _ => false end.

(** The multiples of [a] among the [n] steps [s], [s + 1], ... *)
Definition updates (a s : Z) (n : nat) : nat :=
  Z.to_nat ((s + Z.of_nat n - 1) / a - (s - 1) / a).

(** The steps of an epoch of [n] batches at which the gradients are
    applied: the multiples of [a] among [first], [first + 1], ... *)
Definition update_steps (a : Z) (first n : nat) : list nat :=
  filter (fun k => (Z.of_nat k mod a =? 0)%Z) (seq first n).

(** Where the calls that satisfy [p] stand in a trace: for each of them, in
    order, the number of backward passes made before it, [seen] of them
    having been made before the trace. *)
Fixpoint backward_before (p : Trainer.call -> bool) (seen : nat)
    (calls : list Trainer.call) : list nat :=
  match calls with
  | [] => []
  | c :: calls' =>
      if is_backward c then backward_before p (S seen) calls'
      else if p c then seen :: backward_before p seen calls'
      else backward_before p seen calls'
  end.

(** The backward passes at the end of a trace that no optimizer step
    follows, [acc] of them being pending before the trace. *)
Definition pending_backward (acc : nat) (calls : list Trainer.call) : nat :=
  fold_left (fun acc c => if is_scaler_step c then 0%nat
                          else if is_backward c then S acc else acc)
            calls acc.

(** The best loss after the validation losses [vs], starting from [b]. *)
Definition track (b : float) (vs : list float) : float :=
  fold_left (fun b v => if Trainer.float_ltb v b then v else b) vs b.

(** Two trainer states that differ at most in the epoch counter and the
    best loss. *)
Definition same_config (a b : Trainer.t) : Prop :=
  Trainer.train_num a = Trainer.train_num b /\
  Trainer.has_logger a = Trainer.has_logger b /\
  Trainer.accum_grad_step a = Trainer.accum_grad_step b /\
  Trainer.clip_grad_norm a = Trainer.clip_grad_norm b /\
  Trainer.disable_valid_on_start a = Trainer.disable_valid_on_start b /\
  Trainer.checkpoint_dir a = Trainer.checkpoint_dir b.

(** Seven batches, an update every three batches, clipping, a logger. *)
Definition trainer7 : Trainer.t :=
  Trainer.__init__ 7 true 3 (Some 1%R) false None.

(** The rounded loss that validation [k] records. *)
Definition valid_record (round4 : R -> R) (losses : nat -> list float) (k : nat)
    : float :=
  Trainer.round_loss round4 (Trainer.mean_loss (losses k)).

(** The same trainer with a checkpoint directory, and one without a
    validation at the start and without a directory. *)
Definition trainer7_dir : Trainer.t :=
  Trainer.__init__ 7 true 3 (Some 1%R) false (Some String.EmptyString).

Definition trainer7_late : Trainer.t :=
  Trainer.__init__ 7 true 3 (Some 1%R) true None.

(** Validation [k] returns the single loss [1 / (k + 1)]. *)
Definition falling_losses (k : nat) : list float := [Num (1 / INR (S k))].


(** How many of the validation losses [vs] improve on the best loss so
    far, starting from [b]. *)
Fixpoint improvements (b : float) (vs : list float) : nat :=
  match vs with
  | [] => 0
  | v :: vs' =>
      if Trainer.float_ltb v b then S (improvements v vs') else improvements b vs'
  end.

(** * Properties *)

(** ** Running a computation *)

Lemma bind_ok {A B : Type} (m : M A) (k : A -> M B) st st' a :
  m st = (st', Ok a) -> bind m k st = k a st'.
Proof. intros H. unfold bind. now rewrite H. Qed.

Lemma read_only_lift {A : Type} (r : result A) : read_only (lift r).
Proof. intros st. reflexivity. Qed.

Lemma read_only_ret {A : Type} (a : A) : read_only (ret a).
Proof. intros st. reflexivity. Qed.

Lemma read_only_read l : read_only (read l).
Proof. intros st. unfold read. now destruct (nth_error st l). Qed.

Lemma read_only_bind {A B : Type} (m : M A) (k : A -> M B) :
  read_only m -> (forall a, read_only (k a)) -> read_only (bind m k).
Proof.
  intros Hm Hk st. unfold bind.
  specialize (Hm st). destruct (m st) as [st' [a | e]]; simpl in *; subst.
  - apply Hk.
  - reflexivity.
Qed.

Ltac read_only_tac :=
  repeat first
    [ apply read_only_lift | apply read_only_ret | apply read_only_read
    | apply read_only_bind; [ | intro ] ].

Lemma TorchSTFT_forward_read_only self x : read_only (TorchSTFT.forward self x).
Proof. unfold TorchSTFT.forward. read_only_tac. Qed.

Lemma AudioEncoder_forward_read_only self x : read_only (AudioEncoder.forward self x).
Proof.
  unfold AudioEncoder.forward.
  apply read_only_bind; [ apply TorchSTFT_forward_read_only | intro; apply read_only_lift ].
Qed.

Lemma TorchSTFT_forward_outcome self x st :
  TorchSTFT.forward self x st =
  (st, stft_outcome (nth_error st (TorchSTFT.window self))
         (TorchSTFT.n_fft self) (TorchSTFT.n_hop self) (TorchSTFT.center self) x).
Proof.
  unfold TorchSTFT.forward, stft_outcome, bind, lift, read.
  destruct (index_from_end 1 (size x)) as [d | e]; simpl; [ | reflexivity ].
  destruct (Torch.view_infer x [d]) as [x' | e]; simpl; [ | reflexivity ].
  destruct (nth_error st (TorchSTFT.window self)) as [w | ]; simpl; [ | reflexivity ].
  destruct (Torch.stft x' _ _ w _) as [c | e]; simpl; reflexivity.
Qed.

(** ** Construction *)

Lemma TorchSTFT_init_with_window n_fft n_hop center w st :
  TorchSTFT.__init__ n_fft n_hop center (Some w) st =
  (st, Ok (TorchSTFT.mk w n_fft n_hop center)).
Proof. reflexivity. Qed.

Lemma TorchISTFT_init_with_window n_fft n_hop center sample_rate w st :
  TorchISTFT.__init__ n_fft n_hop center sample_rate (Some w) st =
  (st, Ok (TorchISTFT.mk n_fft n_hop center sample_rate w)).
Proof. reflexivity. Qed.

Lemma hann_window_raises n : (n < 0)%Z -> Torch.hann_window n = Raise RuntimeError.
Proof.
  intros H. unfold Torch.hann_window.
  destruct (Z.ltb_spec n 0); [ reflexivity | lia ].
Qed.

Lemma hann_window_returns n :
  (0 <= n)%Z -> exists h, Torch.hann_window n = Ok h /\ size h = [Z.to_nat n].
Proof.
  intros H. unfold Torch.hann_window.
  destruct (Z.ltb_spec n 0); [ lia | ].
  destruct (Z.eqb_spec n 0) as [-> | ]; [ eexists; split; reflexivity | ].
  destruct (Z.eqb_spec n 1) as [-> | ]; [ eexists; split; reflexivity | ].
  eexists; split; reflexivity.
Qed.

Lemma TorchSTFT_init_default_window n_fft n_hop center st h :
  Torch.hann_window n_fft = Ok h ->
  TorchSTFT.__init__ n_fft n_hop center None st =
  (st ++ [h], Ok (TorchSTFT.mk (length st) n_fft n_hop center)).
Proof. intros H. unfold TorchSTFT.__init__, bind, lift. rewrite H. reflexivity. Qed.

Lemma TorchISTFT_init_default_window n_fft n_hop center sample_rate st h :
  Torch.hann_window n_fft = Ok h ->
  TorchISTFT.__init__ n_fft n_hop center sample_rate None st =
  (st ++ [h], Ok (TorchISTFT.mk n_fft n_hop center sample_rate (length st))).
Proof. intros H. unfold TorchISTFT.__init__, bind, lift. rewrite H. reflexivity. Qed.

Lemma TorchSTFT_init_negative n_fft n_hop center st :
  (n_fft < 0)%Z ->
  TorchSTFT.__init__ n_fft n_hop center None st = (st, Raise RuntimeError).
Proof.
  intros H. unfold TorchSTFT.__init__, bind, lift.
  rewrite (hann_window_raises _ H). reflexivity.
Qed.

Lemma TorchISTFT_init_negative n_fft n_hop center sample_rate st :
  (n_fft < 0)%Z ->
  TorchISTFT.__init__ n_fft n_hop center sample_rate None st = (st, Raise RuntimeError).
Proof.
  intros H. unfold TorchISTFT.__init__, bind, lift.
  rewrite (hann_window_raises _ H). reflexivity.
Qed.

Lemma nth_error_app_length {A : Type} (l : list A) (a : A) :
  nth_error (l ++ [a]) (length l) = Some a.
Proof. induction l; simpl; auto. Qed.

(** ** Failures of the encoder at call time *)

Lemma stft_rows_raises N L xs n_fft hop window center :
  (n_fft <= 0)%Z \/ size window <> [Z.to_nat n_fft] ->
  exists e, Torch.stft_rows N L xs n_fft hop window center = Raise e.
Proof.
  intros H. unfold Torch.stft_rows.
  destruct (Z.leb_spec n_fft 0) as [Hn | Hn]; [ eauto | ].
  destruct H as [H | H]; [ lia | ].
  destruct center.
  - destruct ((N =? 0)%nat || (L <=? Z.to_nat (n_fft / 2))%nat); simpl; [ eauto | ].
    destruct (_ <? _)%nat; [ eauto | ].
    destruct (hop <=? 0)%Z; [ eauto | ].
    destruct (size window) as [ | wl [ | ? ? ] ]; eauto.
    destruct (Nat.eqb_spec wl (Z.to_nat n_fft)); [ congruence | eauto ].
  - simpl.
    destruct (_ <? _)%nat; [ eauto | ].
    destruct (hop <=? 0)%Z; [ eauto | ].
    destruct (size window) as [ | wl [ | ? ? ] ]; eauto.
    destruct (Nat.eqb_spec wl (Z.to_nat n_fft)); [ congruence | eauto ].
Qed.

Lemma stft_raises x n_fft hop window center :
  (n_fft <= 0)%Z \/ size window <> [Z.to_nat n_fft] ->
  exists e, Torch.stft x n_fft hop window center = Raise e.
Proof.
  intros H. unfold Torch.stft.
  destruct (size x) as [ | L [ | N [ | ? ? ] ] ]; eauto.
  - destruct (stft_rows_raises 1 L (data x) n_fft hop window center H) as [e ->].
    exists e. reflexivity.
  - apply stft_rows_raises; assumption.
Qed.

Lemma stft_outcome_raises w n_fft n_hop center x :
  (n_fft <= 0)%Z \/ (forall wt, w = Some wt -> size wt <> [Z.to_nat n_fft]) ->
  exists e, stft_outcome w n_fft n_hop center x = Raise e.
Proof.
  intros H. unfold stft_outcome.
  destruct (index_from_end 1 (size x)) as [d | e]; simpl; [ | eauto ].
  destruct (Torch.view_infer x [d]) as [x' | e]; simpl; [ | eauto ].
  destruct w as [wt | ]; simpl; [ | eauto ].
  destruct (stft_raises x' n_fft n_hop wt center) as [e ->]; [ | simpl; eauto ].
  destruct H as [H | H]; [ left; assumption | right; apply H; reflexivity ].
Qed.

(** C3 (as the code has it): the constructors do not validate their
    arguments.  Given a window, [TorchSTFT.__init__] and
    [TorchISTFT.__init__] always return and store [n_fft], [n_hop],
    [center] (and [sample_rate]) as they come, also when [n_hop > n_fft],
    [n_fft <= 0] or the window has another length.  Without a window they
    build the Hann window of length [n_fft], which raises exactly when
    [n_fft < 0].  For the encoder, [n_fft <= 0] or a window whose size is
    not [(n_fft,)] is only rejected when [forward] is called. *)
Theorem construction_does_not_validate :
  forall (n_fft n_hop : Z) (center : bool) (sample_rate : R) (st : Store),
    (forall w,
        TorchSTFT.__init__ n_fft n_hop center (Some w) st =
        (st, Ok (TorchSTFT.mk w n_fft n_hop center))) /\
    (forall w,
        TorchISTFT.__init__ n_fft n_hop center sample_rate (Some w) st =
        (st, Ok (TorchISTFT.mk n_fft n_hop center sample_rate w))) /\
    ((0 <= n_fft)%Z ->
       exists h, Torch.hann_window n_fft = Ok h /\
         TorchSTFT.__init__ n_fft n_hop center None st =
         (st ++ [h], Ok (TorchSTFT.mk (length st) n_fft n_hop center)) /\
         TorchISTFT.__init__ n_fft n_hop center sample_rate None st =
         (st ++ [h], Ok (TorchISTFT.mk n_fft n_hop center sample_rate (length st)))) /\
    ((n_fft < 0)%Z ->
       TorchSTFT.__init__ n_fft n_hop center None st = (st, Raise RuntimeError) /\
       TorchISTFT.__init__ n_fft n_hop center sample_rate None st =
       (st, Raise RuntimeError)) /\
    (forall w x,
        (n_fft <= 0)%Z \/
        (exists wt, nth_error st w = Some wt /\ size wt <> [Z.to_nat n_fft]) ->
        exists e,
          TorchSTFT.forward (TorchSTFT.mk w n_fft n_hop center) x st = (st, Raise e)).
Proof.
  intros n_fft n_hop center sample_rate st.
  split; [ intro; apply TorchSTFT_init_with_window | ].
  split; [ intro; apply TorchISTFT_init_with_window | ].
  split; [ | split ].
  - intros H. destruct (hann_window_returns n_fft H) as [h [Hh _]].
    exists h. split; [ assumption | ]. split.
    + apply TorchSTFT_init_default_window; assumption.
    + apply TorchISTFT_init_default_window; assumption.
  - intros H. split.
    + apply TorchSTFT_init_negative; assumption.
    + apply TorchISTFT_init_negative; assumption.
  - intros w x H. rewrite TorchSTFT_forward_outcome. simpl.
    destruct (stft_outcome_raises (nth_error st w) n_fft n_hop center x) as [e ->].
    + destruct H as [H | [wt [Hwt Hsize]]]; [ left; exact H | right ].
      intros wt' Hwt'. rewrite Hwt in Hwt'. now injection Hwt' as <-.
    + eauto.
Qed.

(** C3 at [n_fft = 4], [n_hop = 8] and the three-entry window: both
    constructors return, and the encoder raises when called. *)
Lemma construction_does_not_validate_witness :
  TorchSTFT.__init__ 4 8 false (Some 0%nat) store3 =
  (store3, Ok (TorchSTFT.mk 0%nat 4 8 false)) /\
  TorchISTFT.__init__ 4 8 false 44100%R (Some 0%nat) store3 =
  (store3, Ok (TorchISTFT.mk 4 8 false 44100%R 0%nat)) /\
  exists e,
    TorchSTFT.forward (TorchSTFT.mk 0%nat 4 8 false)
      ramp6 store3 =
    (store3, Raise e).
Proof.
  destruct (construction_does_not_validate 4 8 false 44100%R store3)
    as [Henc [Hdec [_ [_ Hcall]]]].
  split; [ apply Henc | ]. split; [ apply Hdec | ].
  apply Hcall. right. exists (mkTensor [3%nat] [1%R; 1%R; 1%R]).
  split; [ reflexivity | simpl; discriminate ].
Defined.

(** C3 as the specification states it fails: with [n_hop = 8 > n_fft = 4]
    and a window of length 3, not 4, both constructors return an
    instance. *)
Lemma construction_accepts_bad_config :
  (8 > 4)%Z /\
  size (mkTensor [3%nat] [1%R; 1%R; 1%R]) <> [Z.to_nat 4] /\
  nth_error store3 0 = Some (mkTensor [3%nat] [1%R; 1%R; 1%R]) /\
  TorchSTFT.__init__ 4 8 false (Some 0%nat) store3 =
  (store3, Ok (TorchSTFT.mk 0%nat 4 8 false)) /\
  TorchISTFT.__init__ 4 8 false 44100%R (Some 0%nat) store3 =
  (store3, Ok (TorchISTFT.mk 4 8 false 44100%R 0%nat)).
Proof.
  split; [ lia | ]. split; [ simpl; discriminate | ].
  repeat split.
Qed.

(** ** The shared window of [make_filterbanks] *)

Lemma make_filterbanks_returns n_fft n_hop center st h :
  Torch.hann_window n_fft = Ok h ->
  make_filterbanks n_fft n_hop center st =
  (st ++ [h],
   Ok (TorchSTFT.mk (length st) n_fft n_hop center,
       TorchISTFT.mk n_fft n_hop center 44100%R (length st))).
Proof.
  intros H. unfold make_filterbanks, bind, lift. rewrite H. reflexivity.
Qed.

Lemma make_filterbanks_raises n_fft n_hop center st :
  (n_fft < 0)%Z ->
  make_filterbanks n_fft n_hop center st = (st, Raise RuntimeError).
Proof.
  intros H. unfold make_filterbanks, bind, lift.
  rewrite (hann_window_raises _ H). reflexivity.
Qed.

(** C7: whenever [make_filterbanks] returns a pair, one window object was
    created, the encoder and the decoder both hold it, and the window each
    of them reads is the same Hann window of length [n_fft]; the pair is
    returned for every [n_fft >= 0] (a negative [n_fft] raises before any
    module is built). *)
Theorem make_filterbanks_shares_window :
  forall (n_fft n_hop : Z) (center : bool) (st : Store),
    match make_filterbanks n_fft n_hop center st with
    | (st', Ok (encoder, decoder)) =>
        (0 <= n_fft)%Z /\
        TorchSTFT.window encoder = TorchISTFT.window decoder /\
        length st' = S (length st) /\
        exists h,
          Torch.hann_window n_fft = Ok h /\
          nth_error st' (TorchSTFT.window encoder) = Some h /\
          nth_error st' (TorchISTFT.window decoder) = Some h
    | (st', Raise _) => (n_fft < 0)%Z /\ st' = st
    end.
Proof.
  intros n_fft n_hop center st.
  destruct (Z.lt_ge_cases n_fft 0) as [Hneg | Hpos].
  - rewrite make_filterbanks_raises by assumption. split; [ assumption | reflexivity ].
  - destruct (hann_window_returns n_fft Hpos) as [h [Hh _]].
    rewrite (make_filterbanks_returns _ _ _ _ _ Hh). simpl.
    split; [ assumption | ]. split; [ reflexivity | ].
    split; [ rewrite length_app; simpl; lia | ].
    exists h. split; [ assumption | ].
    split; apply nth_error_app_length.
Qed.

(** ** The analysis front end *)

(** C9: for [n_fft >= 0] the constructor returns an instance whose encoder
    is [TorchSTFT(n_fft, n_hop)] (no centring, a fresh Hann window) and
    whose norm has [mono] set exactly when [num_channels] is 1; on every
    input the instance returns [ComplexNorm(mono)(TorchSTFT(x))], a failure
    of the encoder being passed on. *)
Theorem AudioEncoder_composes :
  forall (n_fft n_hop num_channels : Z) (sample_rate : R) (st : Store),
    (0 <= n_fft)%Z ->
    exists h self,
      Torch.hann_window n_fft = Ok h /\
      AudioEncoder.__init__ n_fft n_hop sample_rate num_channels st =
      (st ++ [h], Ok self) /\
      AudioEncoder.stft self = TorchSTFT.mk (length st) n_fft n_hop false /\
      (ComplexNorm.mono (AudioEncoder.complex_norm self) = true <-> num_channels = 1%Z) /\
      forall x,
        AudioEncoder.forward self x (st ++ [h]) =
        (st ++ [h],
         rbind (snd (TorchSTFT.forward (AudioEncoder.stft self) x (st ++ [h])))
               (ComplexNorm.forward (ComplexNorm.mk (num_channels =? 1)%Z))).
Proof.
  intros n_fft n_hop num_channels sample_rate st Hn.
  destruct (hann_window_returns n_fft Hn) as [h [Hh _]].
  exists h. eexists. split; [ exact Hh | ].
  split.
  { unfold AudioEncoder.__init__.
    erewrite bind_ok by (apply TorchSTFT_init_default_window; exact Hh).
    reflexivity. }
  simpl. split; [ reflexivity | ].
  split; [ apply Z.eqb_eq | ].
  intros x. unfold AudioEncoder.forward, bind. simpl.
  rewrite TorchSTFT_forward_outcome. simpl.
  destruct (stft_outcome _ _ _ _ _); reflexivity.
Qed.

(** C9 at [n_fft = 4], [n_hop = 2], one channel, from the empty store. *)
Lemma AudioEncoder_composes_witness :
  exists h self,
    Torch.hann_window 4 = Ok h /\
    AudioEncoder.__init__ 4 2 44100%R 1 [] = ([] ++ [h], Ok self) /\
    AudioEncoder.stft self = TorchSTFT.mk (length (@nil (Tensor R))) 4 2 false /\
    (ComplexNorm.mono (AudioEncoder.complex_norm self) = true <-> 1%Z = 1%Z) /\
    forall x,
      AudioEncoder.forward self x ([] ++ [h]) =
      ([] ++ [h],
       rbind (snd (TorchSTFT.forward (AudioEncoder.stft self) x ([] ++ [h])))
             (ComplexNorm.forward (ComplexNorm.mk (1 =? 1)%Z))).
Proof.
  apply (AudioEncoder_composes 4 2 1 44100%R []). lia.
Defined.

(** ** The sample rate *)

Section SampleRate.

Variable torch_istft :
  Tensor C -> Z -> Z -> Tensor R -> bool -> option Z -> result (Tensor R).

Lemma TorchISTFT_forward_read_only self X length :
  read_only (TorchISTFT.forward torch_istft self X length).
Proof. unfold TorchISTFT.forward. read_only_tac. Qed.

(** C10: the sample rate given to [AudioEncoder] is dropped by the
    constructor, so two rates give the same instance and the same outputs;
    the one stored by [TorchISTFT] is never read by [forward], so two
    decoders that differ in it only return the same outcome on every
    input. *)
Theorem sample_rate_is_ignored :
  forall (n_fft n_hop num_channels : Z) (center : bool) (w : loc)
         (sr1 sr2 : R) (st : Store),
    AudioEncoder.__init__ n_fft n_hop sr1 num_channels st =
    AudioEncoder.__init__ n_fft n_hop sr2 num_channels st /\
    (forall X length st',
        TorchISTFT.forward torch_istft
          (TorchISTFT.mk n_fft n_hop center sr1 w) X length st' =
        TorchISTFT.forward torch_istft
          (TorchISTFT.mk n_fft n_hop center sr2 w) X length st') /\
    (forall wopt,
        match TorchISTFT.__init__ n_fft n_hop center sr1 wopt st,
              TorchISTFT.__init__ n_fft n_hop center sr2 wopt st with
        | (st1, Ok d1), (st2, Ok d2) =>
            st1 = st2 /\
            forall X length,
              TorchISTFT.forward torch_istft d1 X length st1 =
              TorchISTFT.forward torch_istft d2 X length st2
        | (st1, Raise e1), (st2, Raise e2) => st1 = st2 /\ e1 = e2
        | _, _ => False
        end).
Proof.
  intros n_fft n_hop num_channels center w sr1 sr2 st.
  split; [ reflexivity | ]. split; [ reflexivity | ].
  intros [w' | ].
  - rewrite !TorchISTFT_init_with_window. split; reflexivity.
  - destruct (Z.lt_ge_cases n_fft 0) as [Hneg | Hpos].
    + rewrite !TorchISTFT_init_negative by assumption. split; reflexivity.
    + destruct (hann_window_returns n_fft Hpos) as [h [Hh _]].
      rewrite !(TorchISTFT_init_default_window _ _ _ _ _ _ Hh).
      split; reflexivity.
Qed.

End SampleRate.

(** ** The Hann window *)

Section Hann.

Local Open Scope R_scope.

Lemma nth_map_seq {A : Type} (f : nat -> A) (n k : nat) (d : A) :
  (k < n)%nat -> nth k (map f (seq 0 n)) d = f k.
Proof.
  intros H.
  rewrite (nth_indep _ d (f 0%nat)) by (rewrite length_map, length_seq; exact H).
  rewrite map_nth. f_equal. apply seq_nth. exact H.
Qed.

Lemma hann_entry_bounds N k : 0 <= Torch.hann_entry N k <= 1.
Proof.
  unfold Torch.hann_entry.
  pose proof (COS_bound (INR k * (2 * PI / INR N))) as [Hlo Hhi]. lra.
Qed.

Lemma hann_entry_formula N k :
  Torch.hann_entry N k = 1 / 2 * (1 - cos (2 * PI * INR k / INR N)).
Proof.
  unfold Torch.hann_entry.
  replace (INR k * (2 * PI / INR N)) with (2 * PI * INR k / INR N)
    by (unfold Rdiv; ring).
  ring.
Qed.

Lemma cos_2PI_minus y : cos (2 * PI - y) = cos y.
Proof. rewrite cos_minus, cos_2PI, sin_2PI. ring. Qed.

Lemma hann_entry_periodic N k :
  (1 <= k <= N)%nat -> Torch.hann_entry N (N - k) = Torch.hann_entry N k.
Proof.
  intros [H1 H2]. unfold Torch.hann_entry.
  rewrite minus_INR by exact H2.
  assert (HN : INR N <> 0) by (apply not_0_INR; lia).
  replace ((INR N - INR k) * (2 * PI / INR N))
    with (2 * PI - INR k * (2 * PI / INR N)) by (field; exact HN).
  now rewrite cos_2PI_minus.
Qed.

Lemma hann_entry_0 N : Torch.hann_entry N 0 = 0.
Proof. unfold Torch.hann_entry. simpl. rewrite Rmult_0_l, cos_0. lra. Qed.

Lemma hann_entry_2_1 : Torch.hann_entry 2 1 = 1.
Proof.
  unfold Torch.hann_entry. simpl.
  replace (1 * (2 * PI / (1 + 1))) with PI by field.
  rewrite cos_PI. lra.
Qed.

Lemma hann_window_general n :
  (2 <= n)%Z ->
  Torch.hann_window n =
  Ok (mkTensor [Z.to_nat n] (map (Torch.hann_entry (Z.to_nat n)) (seq 0 (Z.to_nat n)))).
Proof.
  intros H. unfold Torch.hann_window.
  destruct (Z.ltb_spec n 0); [ lia | ].
  destruct (Z.eqb_spec n 0); [ lia | ].
  destruct (Z.eqb_spec n 1); [ lia | ].
  reflexivity.
Qed.

(** Every Hann window the constructors build is a 1-D tensor of [n_fft]
    entries between 0 and 1. *)
Lemma hann_window_shape n h :
  Torch.hann_window n = Ok h ->
  (0 <= n)%Z /\ size h = [Z.to_nat n] /\ length (data h) = Z.to_nat n /\
  Forall (fun v => 0 <= v <= 1) (data h).
Proof.
  unfold Torch.hann_window.
  destruct (Z.ltb_spec n 0); [ discriminate | ].
  destruct (Z.eqb_spec n 0) as [-> | ].
  { intros [= <-]. simpl. repeat split; [ lia | constructor ]. }
  destruct (Z.eqb_spec n 1) as [-> | ].
  { intros [= <-]. simpl. repeat split; [ lia | ].
    constructor; [ lra | constructor ]. }
  intros [= <-]. simpl. rewrite length_map, length_seq.
  repeat split; [ lia | ].
  apply Forall_forall. intros v Hv. apply in_map_iff in Hv.
  destruct Hv as [k [<- _]]. apply hann_entry_bounds.
Qed.

(** C4 (as the code has it): the default window is [torch.hann_window(n_fft)],
    the periodic Hann window.  For every [n_fft >= 0] it is a real array of
    exactly [n_fft] non-negative entries; for [n_fft >= 2] entry [k] is
    [0.5 * (1 - cos(2 pi k / n_fft))]; for [n_fft = 1] it is the single
    entry 1; and its symmetry is the one of a period,
    [w[n_fft - k] = w[k]] for [1 <= k < n_fft]. *)
Theorem hann_window_is_periodic_hann :
  forall n_fft : Z,
    (0 <= n_fft)%Z ->
    exists w,
      Torch.hann_window n_fft = Ok w /\
      size w = [Z.to_nat n_fft] /\
      length (data w) = Z.to_nat n_fft /\
      (forall k, (k < Z.to_nat n_fft)%nat -> 0 <= nth k (data w) 0) /\
      ((2 <= n_fft)%Z ->
       forall k, (k < Z.to_nat n_fft)%nat ->
         nth k (data w) 0 = 1 / 2 * (1 - cos (2 * PI * INR k / IZR n_fft))) /\
      (n_fft = 1%Z -> data w = [1]) /\
      (forall k, (1 <= k < Z.to_nat n_fft)%nat ->
         nth (Z.to_nat n_fft - k) (data w) 0 = nth k (data w) 0).
Proof.
  intros n Hn.
  destruct (hann_window_returns n Hn) as [w [Hw _]].
  destruct (hann_window_shape n w Hw) as [_ [Hsize [Hlen Hall]]].
  exists w. split; [ exact Hw | ]. split; [ exact Hsize | ].
  split; [ exact Hlen | ].
  split.
  { intros k Hk. rewrite Forall_forall in Hall.
    apply Hall. apply nth_In. rewrite Hlen. exact Hk. }
  split.
  { intros H2 k Hk. rewrite hann_window_general in Hw by exact H2.
    injection Hw as <-. simpl.
    rewrite nth_map_seq by exact Hk. rewrite hann_entry_formula.
    rewrite (INR_IZR_INZ (Z.to_nat n)), Z2Nat.id by lia. reflexivity. }
  split.
  { intros ->. simpl in Hw. injection Hw as <-. reflexivity. }
  intros k [Hk1 Hk2].
  assert (H2 : (2 <= n)%Z) by lia.
  rewrite hann_window_general in Hw by exact H2.
  injection Hw as <-. simpl.
  rewrite !nth_map_seq by lia.
  apply hann_entry_periodic. lia.
Qed.

(** C4 at [n_fft = 4]. *)
Lemma hann_window_is_periodic_hann_witness :
  exists w,
    Torch.hann_window 4 = Ok w /\
    size w = [Z.to_nat 4] /\
    length (data w) = Z.to_nat 4 /\
    (forall k, (k < Z.to_nat 4)%nat -> 0 <= nth k (data w) 0) /\
    ((2 <= 4)%Z ->
     forall k, (k < Z.to_nat 4)%nat ->
       nth k (data w) 0 = 1 / 2 * (1 - cos (2 * PI * INR k / IZR 4))) /\
    (4%Z = 1%Z -> data w = [1]) /\
    (forall k, (1 <= k < Z.to_nat 4)%nat ->
       nth (Z.to_nat 4 - k) (data w) 0 = nth k (data w) 0).
Proof.
  apply (hann_window_is_periodic_hann 4). lia.
Defined.

(** C4 as the specification states it fails at [n_fft = 2]: the window is
    [[0; 1]], so entry 1 is 1 where the stated formula
    [0.5 * (1 - cos(2 pi k / (n_fft - 1)))] gives 0, and the window is not
    symmetric ([w[0] = 0] and [w[1] = 1]). *)
Lemma hann_window_2_is_not_symmetric_hann :
  exists w,
    Torch.hann_window 2 = Ok w /\
    nth 0 (data w) 0 = 0 /\
    nth 1 (data w) 0 = 1 /\
    nth 1 (data w) 0 <> 1 / 2 * (1 - cos (2 * PI * INR 1 / (IZR 2 - 1))) /\
    nth 0 (data w) 0 <> nth (2 - 1 - 0) (data w) 0.
Proof.
  exists (mkTensor [2%nat] [Torch.hann_entry 2 0; Torch.hann_entry 2 1]).
  split; [ reflexivity | ].
  change (Torch.hann_entry 2 0 = 0 /\
          Torch.hann_entry 2 1 = 1 /\
          Torch.hann_entry 2 1 <> 1 / 2 * (1 - cos (2 * PI * 1 / (2 - 1))) /\
          Torch.hann_entry 2 0 <> Torch.hann_entry 2 1).
  rewrite hann_entry_0, hann_entry_2_1.
  split; [ reflexivity | ]. split; [ reflexivity | ].
  split; [ | lra ].
  replace (2 * PI * 1 / (2 - 1)) with (2 * PI) by field.
  rewrite cos_2PI. lra.
Qed.

End Hann.

(** ** Sizes and row-major indexing *)

Lemma numel_app s1 s2 : numel (s1 ++ s2) = (numel s1 * numel s2)%nat.
Proof.
  induction s1 as [ | d s1 IH]; simpl; [ lia | ].
  rewrite IH. lia.
Qed.

Lemma length_flat_map_const {A B : Type} (f : A -> list B) (m : nat) (l : list A) :
  (forall a, In a l -> length (f a) = m) ->
  length (flat_map f l) = (length l * m)%nat.
Proof.
  induction l as [ | a l IH]; intros H; simpl; [ reflexivity | ].
  rewrite length_app, IH, H; [ reflexivity | now left | ].
  intros a' Ha'. apply H. now right.
Qed.

Lemma nth_flat_map_from {A : Type} (f : nat -> list A) (m : nat) (d : A) :
  (forall b, length (f b) = m) ->
  forall n s b i,
    (b < n)%nat -> (i < m)%nat ->
    nth (b * m + i) (flat_map f (seq s n)) d = nth i (f (s + b)%nat) d.
Proof.
  intros Hlen. induction n as [ | n IH]; intros s b i Hb Hi; [ lia | ].
  simpl. destruct b as [ | b].
  - simpl. rewrite app_nth1 by (rewrite Hlen; exact Hi).
    now rewrite Nat.add_0_r.
  - rewrite app_nth2 by (rewrite Hlen; simpl; lia).
    rewrite Hlen.
    replace (S b * m + i - m)%nat with (b * m + i)%nat by (simpl; lia).
    rewrite IH by lia. f_equal. f_equal. lia.
Qed.

Lemma nth_flat_map_blocks {A : Type} (f : nat -> list A) (m n : nat) (d : A) b i :
  (forall b, length (f b) = m) ->
  (b < n)%nat -> (i < m)%nat ->
  nth (b * m + i) (flat_map f (seq 0 n)) d = nth i (f b) d.
Proof.
  intros Hlen Hb Hi. now rewrite (nth_flat_map_from f m d Hlen n 0 b i Hb Hi).
Qed.

Lemma row_major_bound (B Cn inner b c i : nat) :
  (b < B)%nat -> (c < Cn)%nat -> (i < inner)%nat ->
  ((b * Cn + c) * inner + i < B * Cn * inner)%nat.
Proof.
  intros Hb Hc Hi.
  assert (H1 : (b * Cn + c + 1 <= B * Cn)%nat) by nia.
  assert (H2 : ((b * Cn + c + 1) * inner <= B * Cn * inner)%nat)
    by (apply Nat.mul_le_mono_r; exact H1).
  lia.
Qed.

(** ** The magnitude and its mono downmix *)

Section Magnitude.

Local Open Scope R_scope.

Lemma cabs_nonneg z : 0 <= Torch.cabs z.
Proof. unfold Torch.cabs. apply sqrt_pos. Qed.

Lemma cabs_0 : Torch.cabs (0, 0) = 0.
Proof.
  unfold Torch.cabs. simpl.
  replace (0 * 0 + 0 * 0) with 0 by ring. apply sqrt_0.
Qed.

Lemma nth_map_cabs (l : list C) (j : nat) :
  nth j (map Torch.cabs l) 0 = Torch.cabs (nth j l (0, 0)).
Proof. rewrite <- cabs_0 at 1. apply map_nth. Qed.

Lemma nth_pairs (j : nat) :
  forall l : list R,
    (2 * j + 1 < length l)%nat ->
    nth j (Torch.pairs l) (0, 0) = (nth (2 * j) l 0, nth (2 * j + 1) l 0).
Proof.
  induction j as [ | j IH]; intros l H.
  - destruct l as [ | re [ | im l] ]; simpl in H; try lia. reflexivity.
  - destruct l as [ | re [ | im l] ]; simpl in H; try lia.
    replace (2 * S j)%nat with (S (S (2 * j))) by lia.
    replace (S (S (2 * j)) + 1)%nat with (S (S (2 * j + 1))) by lia.
    simpl Torch.pairs. cbn [nth]. apply IH. lia.
Qed.

Lemma nth_abs_pairs (spec : Tensor R) (j : nat) :
  (2 * j + 1 < length (data spec))%nat ->
  nth j (map Torch.cabs (Torch.pairs (data spec))) 0 = bin_magnitude spec j.
Proof.
  intros H. rewrite nth_map_cabs, nth_pairs by exact H. reflexivity.
Qed.

Lemma view_as_complex_returns (spec : Tensor R) (s : list nat) :
  size spec = s ++ [2%nat] ->
  Torch.view_as_complex spec = Ok (mkTensor s (Torch.pairs (data spec))).
Proof.
  intros H. unfold Torch.view_as_complex.
  rewrite H, rev_app_distr. simpl. now rewrite rev_involutive.
Qed.

Lemma rsum_nonneg (l : list R) : Forall (fun v => 0 <= v) l -> 0 <= Torch.rsum l.
Proof.
  induction 1 as [ | v l Hv _ IH]; simpl; lra.
Qed.

Lemma nth_nonneg (l : list R) (j : nat) :
  Forall (fun v => 0 <= v) l -> 0 <= nth j l 0.
Proof.
  intros H. destruct (Nat.lt_ge_cases j (length l)) as [Hj | Hj].
  - rewrite Forall_forall in H. apply H, nth_In, Hj.
  - rewrite nth_overflow by exact Hj. lra.
Qed.

Lemma fsum_reals (l : list R) : Torch.fsum (map Num l) = Num (Torch.rsum l).
Proof.
  induction l as [ | v l IH]; [ reflexivity | ].
  cbn [map Torch.fsum fold_right]. fold (Torch.fsum (map Num l)).
  rewrite IH. reflexivity.
Qed.

Lemma mean_reals (l : list R) :
  Torch.mean (map Num l) =
  match l with
  | [] => NaN
  | _ => Num (Torch.rsum l / INR (length l))
  end.
Proof.
  unfold Torch.mean. rewrite length_map, fsum_reals.
  destruct l; reflexivity.
Qed.

Lemma mean_entry_channels d1 inner xs b i :
  (0 < d1)%nat ->
  Torch.mean_entry d1 inner xs b i =
  Num (Torch.rsum (map (fun c => nth ((b * d1 + c) * inner + i) xs 0) (seq 0 d1))
       / INR d1).
Proof.
  intros Hd. unfold Torch.mean_entry.
  rewrite <- (map_map (fun c => nth ((b * d1 + c) * inner + i) xs 0) Num).
  rewrite mean_reals, length_map, length_seq.
  destruct d1; [ lia | reflexivity ].
Qed.

Lemma mean_entry_no_channel inner xs b i : Torch.mean_entry 0 inner xs b i = NaN.
Proof. reflexivity. Qed.

Lemma mean_entry_nonneg d1 inner xs b i :
  (0 < d1)%nat ->
  Forall (fun v => 0 <= v) xs -> float_nonneg (Torch.mean_entry d1 inner xs b i).
Proof.
  intros Hd H. rewrite mean_entry_channels by exact Hd. cbn [float_nonneg].
  assert (Hs : 0 <= Torch.rsum
             (map (fun c => nth ((b * d1 + c) * inner + i) xs 0) (seq 0 d1))).
  { apply rsum_nonneg, Forall_forall. intros v Hv.
    apply in_map_iff in Hv. destruct Hv as [c [<- _]]. now apply nth_nonneg. }
  apply Rmult_le_pos; [ exact Hs | ].
  left. apply Rinv_0_lt_compat. apply lt_0_INR. lia.
Qed.

Lemma mean_dim1_keepdim_nonneg (t : Tensor R) (out : Tensor float) :
  (0 < nth 1 (size t) 0)%nat ->
  Forall (fun v => 0 <= v) (data t) ->
  Torch.mean_dim1_keepdim t = Ok out ->
  Forall float_nonneg (data out).
Proof.
  intros Hd H. unfold Torch.mean_dim1_keepdim.
  destruct (size t) as [ | d0 [ | d1 rest] ]; try discriminate.
  intros [= <-]. cbn [nth] in Hd. simpl.
  apply Forall_forall. intros v Hv.
  apply in_flat_map in Hv. destruct Hv as [b [_ Hv]].
  apply in_map_iff in Hv. destruct Hv as [i [<- _]].
  now apply mean_entry_nonneg.
Qed.

Lemma abs_nonneg (z : Tensor C) : Forall (fun v => 0 <= v) (data (Torch.abs z)).
Proof.
  simpl. apply Forall_forall. intros v Hv.
  apply in_map_iff in Hv. destruct Hv as [c [<- _]]. apply cabs_nonneg.
Qed.

Lemma floats_nonneg (t : Tensor R) :
  Forall (fun v => 0 <= v) (data t) -> Forall float_nonneg (data (Torch.floats t)).
Proof.
  intros H. cbn [Torch.floats data]. apply Forall_forall. intros v Hv.
  apply in_map_iff in Hv. destruct Hv as [r [<- Hr]].
  rewrite Forall_forall in H. exact (H r Hr).
Qed.

Lemma view_as_complex_size (spec : Tensor R) (z : Tensor C) :
  Torch.view_as_complex spec = Ok z -> size spec = size z ++ [2%nat].
Proof.
  unfold Torch.view_as_complex. intros H.
  destruct (rev (size spec)) as [ | [ | [ | [ | d ] ] ] s ] eqn:E; try discriminate.
  injection H as <-. cbn [size].
  rewrite <- (rev_involutive (size spec)), E. reflexivity.
Qed.

(** C6: on a spectrogram of real numbers, whatever [ComplexNorm.forward]
    returns without the mono downmix has no negative entry, and so has what
    it returns with the downmix when the channel axis (axis 1) is not empty:
    every entry is then a real number that is not negative.  (Over an empty
    channel axis the downmix returns [nan], which is not [>= 0].) *)
Theorem ComplexNorm_forward_nonneg :
  forall (self : ComplexNorm.t) (spec : Tensor R) (out : Tensor float),
    ComplexNorm.forward self spec = Ok out ->
    (ComplexNorm.mono self = true -> (0 < nth 1 (size spec) 0)%nat) ->
    Forall float_nonneg (data out).
Proof.
  intros self spec out. unfold ComplexNorm.forward.
  destruct (Torch.view_as_complex spec) as [z | e] eqn:Hz; simpl; [ | discriminate ].
  apply view_as_complex_size in Hz.
  destruct (ComplexNorm.mono self).
  - intros Hout Hd. specialize (Hd eq_refl).
    apply (mean_dim1_keepdim_nonneg (Torch.abs z)); [ | apply abs_nonneg | exact Hout ].
    cbn [Torch.abs size]. rewrite Hz in Hd.
    unfold Torch.mean_dim1_keepdim in Hout. cbn [Torch.abs size] in Hout.
    destruct (size z) as [ | d0 [ | d1 rest] ]; try discriminate. exact Hd.
  - intros [= <-] _. apply floats_nonneg, abs_nonneg.
Qed.

(** C6 on [opposite_channels], with and without the downmix. *)
Lemma ComplexNorm_forward_nonneg_witness :
  Forall float_nonneg
    (data (mkTensor [1%nat; 1%nat; 1%nat; 1%nat]
             [Torch.mean_entry 2 1 [Torch.cabs (1, 0); Torch.cabs (-1, 0)] 0 0])) /\
  Forall float_nonneg
    (data (mkTensor [1%nat; 2%nat; 1%nat; 1%nat]
             [Num (Torch.cabs (1, 0)); Num (Torch.cabs (-1, 0))])).
Proof.
  split.
  - apply (ComplexNorm_forward_nonneg (ComplexNorm.mk true) opposite_channels);
      [ reflexivity | intros _; simpl; lia ].
  - apply (ComplexNorm_forward_nonneg (ComplexNorm.mk false) opposite_channels);
      [ reflexivity | discriminate ].
Defined.

(** C6 fails without a channel: on a spectrogram of size [(2, 0, 1, 1, 2)]
    the downmix returns two entries, both [nan]. *)
Lemma ComplexNorm_mono_without_channel_is_nan :
  exists out,
    ComplexNorm.forward (ComplexNorm.mk true) no_channel = Ok out /\
    size out = [2%nat; 1%nat; 1%nat; 1%nat] /\
    data out = [NaN; NaN] /\
    ~ Forall float_nonneg (data out).
Proof.
  exists (mkTensor [2%nat; 1%nat; 1%nat; 1%nat] [NaN; NaN]).
  split; [ reflexivity | ]. split; [ reflexivity | ]. split; [ reflexivity | ].
  cbn [data]. intros H. inversion H as [ | v l Hv _ ]. exact Hv.
Qed.

Lemma mean_dim1_keepdim_entry (t : Tensor R) (d0 d1 : nat) (rest : list nat) :
  size t = d0 :: d1 :: rest ->
  exists out,
    Torch.mean_dim1_keepdim t = Ok out /\
    size out = d0 :: 1%nat :: rest /\
    contiguous out /\
    forall b i, (b < d0)%nat -> (i < numel rest)%nat ->
      nth (b * numel rest + i) (data out) NaN =
      Torch.mean_entry d1 (numel rest) (data t) b i.
Proof.
  intros H. unfold Torch.mean_dim1_keepdim. rewrite H.
  eexists. split; [ reflexivity | ]. split; [ reflexivity | ].
  split.
  - unfold contiguous. simpl.
    rewrite (length_flat_map_const _ (numel rest)).
    + rewrite length_seq. lia.
    + intros b _. now rewrite length_map, length_seq.
  - intros b i Hb Hi. simpl.
    rewrite (nth_flat_map_blocks _ (numel rest) d0) by
      (try (intro; rewrite length_map, length_seq; reflexivity); assumption).
    now rewrite nth_map_seq.
Qed.

Lemma cabs_1_0 : Torch.cabs (1, 0) = 1.
Proof.
  unfold Torch.cabs. simpl.
  replace (1 * 1 + 0 * 0) with 1 by ring. apply sqrt_1.
Qed.

Lemma cabs_m1_0 : Torch.cabs (-1, 0) = 1.
Proof.
  unfold Torch.cabs. simpl.
  replace (-1 * -1 + 0 * 0) with 1 by ring. apply sqrt_1.
Qed.

(** The entries of the downmix of a well-formed spectrogram. *)
Lemma mono_entry (spec : Tensor R) (B Cn : nat) (rest : list nat) :
  size spec = B :: Cn :: rest ++ [2%nat] ->
  contiguous spec ->
  exists out,
    ComplexNorm.forward (ComplexNorm.mk true) spec = Ok out /\
    size out = B :: 1%nat :: rest /\
    contiguous out /\
    forall b i, (b < B)%nat -> (i < numel rest)%nat ->
      nth (b * numel rest + i) (data out) NaN =
      Torch.mean
        (map (fun c => Num (bin_magnitude spec ((b * Cn + c) * numel rest + i)))
             (seq 0 Cn)).
Proof.
  intros Hsize Hcont.
  assert (Hlen : length (data spec) = (B * Cn * numel rest * 2)%nat).
  { unfold contiguous in Hcont. rewrite Hcont, Hsize.
    simpl. rewrite numel_app. simpl. lia. }
  unfold ComplexNorm.forward.
  rewrite (view_as_complex_returns spec (B :: Cn :: rest)) by exact Hsize.
  cbn [rbind ComplexNorm.mono].
  destruct (mean_dim1_keepdim_entry
              (Torch.abs (mkTensor (B :: Cn :: rest) (Torch.pairs (data spec))))
              B Cn rest eq_refl) as [out [Hout [Hs [Hc Hentry]]]].
  exists out. split; [ exact Hout | ]. split; [ exact Hs | ]. split; [ exact Hc | ].
  intros b i Hb Hi. rewrite Hentry by assumption.
  unfold Torch.mean_entry. f_equal.
  apply map_ext_in. intros c Hc'. apply in_seq in Hc'. cbn [Torch.abs data].
  f_equal. apply nth_abs_pairs.
  pose proof (row_major_bound B Cn (numel rest) b c i Hb ltac:(lia) Hi). lia.
Qed.

(** C5: on a well-formed complex spectrogram of size [(B, C, ..., 2)],
    [ComplexNorm(mono=True)] returns a tensor of size [(B, 1, ...)] whose
    entry at batch [b] and bin [i] is the mean over the channels [c] of the
    magnitudes [sqrt(re^2 + im^2)] at [(b, c, i)]: their sum divided by [C]
    when there is a channel; with two channels of magnitudes [m1] and [m2]
    this is [(m1 + m2) / 2].  It is not the magnitude of the mean: on the
    channels [1] and [-1] the output is 1 where the magnitude of the
    averaged complex value is 0. *)
Theorem ComplexNorm_mono_is_mean_of_magnitudes :
  forall (spec : Tensor R) (B Cn : nat) (rest : list nat),
    size spec = B :: Cn :: rest ++ [2%nat] ->
    contiguous spec ->
    exists out,
      ComplexNorm.forward (ComplexNorm.mk true) spec = Ok out /\
      size out = B :: 1%nat :: rest /\
      contiguous out /\
      (forall b i, (b < B)%nat -> (i < numel rest)%nat ->
         nth (b * numel rest + i) (data out) NaN =
         Torch.mean
           (map (fun c => Num (bin_magnitude spec ((b * Cn + c) * numel rest + i)))
                (seq 0 Cn))) /\
      ((0 < Cn)%nat ->
       forall b i, (b < B)%nat -> (i < numel rest)%nat ->
         nth (b * numel rest + i) (data out) NaN =
         Num (Torch.rsum
                (map (fun c => bin_magnitude spec ((b * Cn + c) * numel rest + i))
                     (seq 0 Cn)) / INR Cn)) /\
      (Cn = 2%nat ->
       forall b i, (b < B)%nat -> (i < numel rest)%nat ->
         nth (b * numel rest + i) (data out) NaN =
         Num ((bin_magnitude spec ((b * 2 + 0) * numel rest + i) +
               bin_magnitude spec ((b * 2 + 1) * numel rest + i)) / 2)) /\
      ComplexNorm.forward (ComplexNorm.mk true) opposite_channels =
        Ok (mkTensor [1%nat; 1%nat; 1%nat; 1%nat]
              [Num ((Torch.cabs (1, 0) + (Torch.cabs (-1, 0) + 0)) / INR 2)]) /\
      (Torch.cabs (1, 0) + (Torch.cabs (-1, 0) + 0)) / INR 2 = 1 /\
      Torch.cabs ((1 + -1) / 2, (0 + 0) / 2) = 0.
Proof.
  intros spec B Cn rest Hsize Hcont.
  destruct (mono_entry spec B Cn rest Hsize Hcont) as [out [Hout [Hs [Hc Hentry]]]].
  assert (Hmean : (0 < Cn)%nat ->
            forall b i, (b < B)%nat -> (i < numel rest)%nat ->
            nth (b * numel rest + i) (data out) NaN =
            Num (Torch.rsum
                   (map (fun c => bin_magnitude spec ((b * Cn + c) * numel rest + i))
                        (seq 0 Cn)) / INR Cn)).
  { intros HC b i Hb Hi. rewrite Hentry by assumption.
    rewrite <- (map_map (fun c => bin_magnitude spec ((b * Cn + c) * numel rest + i)) Num).
    rewrite mean_reals, length_map, length_seq.
    destruct Cn; [ lia | reflexivity ]. }
  exists out. split; [ exact Hout | ]. split; [ exact Hs | ].
  split; [ exact Hc | ]. split; [ exact Hentry | ]. split; [ exact Hmean | ].
  split.
  { intros -> b i Hb Hi. rewrite (Hmean ltac:(lia)) by assumption.
    f_equal. simpl. field. }
  split; [ reflexivity | ].
  rewrite cabs_1_0, cabs_m1_0. split.
  - simpl. field.
  - replace ((1 + -1) / 2) with 0 by field.
    replace ((0 + 0) / 2) with 0 by field. apply cabs_0.
Qed.

(** C5 on [opposite_channels]: the two magnitudes are averaged. *)
Lemma ComplexNorm_mono_is_mean_of_magnitudes_witness :
  exists out,
    ComplexNorm.forward (ComplexNorm.mk true) opposite_channels = Ok out /\
    size out = [1%nat; 1%nat; 1%nat; 1%nat] /\
    contiguous out /\
    nth 0 (data out) NaN =
    Num ((bin_magnitude opposite_channels 0 + bin_magnitude opposite_channels 1) / 2).
Proof.
  destruct (ComplexNorm_mono_is_mean_of_magnitudes opposite_channels 1 2
              [1%nat; 1%nat] eq_refl eq_refl)
    as [out [Hout [Hs [Hc [_ [_ [Hpair _]]]]]]].
  exists out. split; [ exact Hout | ]. split; [ exact Hs | ].
  split; [ exact Hc | ].
  apply (Hpair eq_refl 0%nat 0%nat); simpl; lia.
Defined.

End Magnitude.

(** ** The size of the spectrogram *)

Lemma index_from_end_last lead L : index_from_end 1 (lead ++ [L]) = Ok L.
Proof. unfold index_from_end. now rewrite rev_unit. Qed.

Lemma droplast_1_app {A : Type} (lead : list A) (a : A) :
  droplast 1 (lead ++ [a]) = lead.
Proof.
  unfold droplast. rewrite length_app. simpl.
  replace (length lead + 1 - 1)%nat with (length lead + 0)%nat by lia.
  rewrite firstn_app_2. simpl. apply app_nil_r.
Qed.

Lemma view_infer_rows {A : Type} (x : Tensor A) lead L :
  size x = lead ++ [L] -> L <> 0%nat ->
  Torch.view_infer x [L] = Ok (mkTensor [numel lead; L] (data x)).
Proof.
  intros Hsize HL. unfold Torch.view_infer.
  rewrite Hsize, numel_app. simpl. rewrite Nat.mul_1_r.
  destruct (Nat.eqb_spec L 0); [ contradiction | ].
  rewrite Nat.Div0.mod_mul, Nat.div_mul by exact HL. reflexivity.
Qed.

Lemma spectrogram_length n hop bins nf w rows :
  length (Torch.spectrogram n hop bins nf w rows) = (length rows * (bins * nf))%nat.
Proof.
  unfold Torch.spectrogram.
  apply length_flat_map_const. intros row _.
  rewrite (length_flat_map_const _ nf).
  - now rewrite length_seq.
  - intros f _. now rewrite length_map, length_seq.
Qed.

Lemma view_as_real_length (c : Tensor C) :
  length (data (Torch.view_as_real c)) = (length (data c) * 2)%nat.
Proof.
  simpl. rewrite (length_flat_map_const _ 2); [ reflexivity | ].
  intros z _. reflexivity.
Qed.

Lemma half_bounds n : (2 * (n / 2) <= n < 2 * (n / 2) + 2)%Z.
Proof.
  pose proof (Z.div_mod n 2 ltac:(lia)) as Hdiv.
  pose proof (Z.mod_pos_bound n 2 ltac:(lia)) as Hmod.
  lia.
Qed.

Lemma freq_bins_nat n_fft :
  (0 < n_fft)%Z -> (Z.to_nat n_fft / 2 + 1)%nat = freq_bins n_fft.
Proof.
  intros H. unfold freq_bins.
  rewrite Z2Nat.inj_add by (try apply Z.div_pos; lia).
  rewrite Z2Nat.inj_div by lia. reflexivity.
Qed.

Lemma n_frames_nat center n_fft n_hop L :
  (0 < n_fft)%Z -> (0 < n_hop)%Z ->
  (n_fft <= padded_length center n_fft L)%Z ->
  let len := if center then (L + 2 * Z.to_nat (n_fft / 2))%nat else L in
  (1 + (len - Z.to_nat n_fft) / Z.to_nat n_hop)%nat = n_frames center n_fft n_hop L.
Proof.
  intros Hn Hh Hlen len. unfold n_frames.
  pose proof (half_bounds n_fft) as Hhalf.
  assert (Hp : Z.of_nat len = padded_length center n_fft L).
  { unfold len, padded_length. destruct center; lia. }
  apply Nat2Z.inj.
  rewrite Z2Nat.id by (apply Z.add_nonneg_nonneg; [ lia | apply Z.div_pos; lia ]).
  rewrite Nat2Z.inj_add, Nat2Z.inj_div, Nat2Z.inj_sub by lia.
  rewrite Hp, !Z2Nat.id by lia. reflexivity.
Qed.

Lemma stft_rows_returns N L xs n_fft n_hop (w : Tensor R) (center : bool) :
  (0 < N)%nat -> (0 < n_fft)%Z -> (0 < n_hop)%Z ->
  size w = [Z.to_nat n_fft] ->
  (if center then (n_fft / 2 < Z.of_nat L)%Z else (n_fft <= Z.of_nat L)%Z) ->
  exists c,
    Torch.stft_rows N L xs n_fft n_hop w center = Ok c /\
    size c = [N; freq_bins n_fft; n_frames center n_fft n_hop L] /\
    length (data c) = (N * (freq_bins n_fft * n_frames center n_fft n_hop L))%nat.
Proof.
  intros HN Hn Hh Hw HL. unfold Torch.stft_rows.
  destruct (Z.leb_spec n_fft 0); [ lia | ].
  pose proof (half_bounds n_fft) as Hhalf.
  assert (Hlen : (n_fft <= padded_length center n_fft L)%Z).
  { unfold padded_length. destruct center; lia. }
  pose proof (n_frames_nat center n_fft n_hop L Hn Hh Hlen) as Hframes.
  pose proof (freq_bins_nat n_fft Hn) as Hbins.
  rewrite Hw. destruct center; cbv zeta in Hframes.
  - destruct (Nat.eqb_spec N 0); [ lia | ].
    destruct (Nat.leb_spec L (Z.to_nat (n_fft / 2))); [ lia | ].
    cbn [orb rbind fst snd].
    destruct (Nat.ltb_spec (L + 2 * Z.to_nat (n_fft / 2)) (Z.to_nat n_fft)) as [Hlt | _].
    { unfold padded_length in Hlen. lia. }
    destruct (Z.leb_spec n_hop 0); [ lia | ].
    rewrite Nat.eqb_refl.
    eexists. split; [ reflexivity | ]. cbn [size data].
    rewrite Hbins, Hframes. split; [ reflexivity | ].
    rewrite spectrogram_length, length_map, length_seq. reflexivity.
  - cbn [rbind fst snd].
    destruct (Nat.ltb_spec L (Z.to_nat n_fft)); [ lia | ].
    destruct (Z.leb_spec n_hop 0); [ lia | ].
    rewrite Nat.eqb_refl.
    eexists. split; [ reflexivity | ]. cbn [size data].
    rewrite Hbins, Hframes. split; [ reflexivity | ].
    rewrite spectrogram_length, length_map, length_seq. reflexivity.
Qed.

Lemma stft_outcome_size (w : Tensor R) (n_fft n_hop : Z) (center : bool)
    (x : Tensor R) (lead : list nat) (L : nat) :
  size x = lead ++ [L] ->
  (0 < numel lead)%nat ->
  (0 < n_fft)%Z -> (0 < n_hop)%Z ->
  size w = [Z.to_nat n_fft] ->
  (if center then (n_fft / 2 < Z.of_nat L)%Z else (n_fft <= Z.of_nat L)%Z) ->
  exists out,
    stft_outcome (Some w) n_fft n_hop center x = Ok out /\
    size out = lead ++ [freq_bins n_fft; n_frames center n_fft n_hop L; 2%nat] /\
    contiguous out.
Proof.
  intros Hsize Hlead Hn Hh Hw HL.
  assert (HL0 : L <> 0%nat).
  { pose proof (half_bounds n_fft). destruct center; lia. }
  unfold stft_outcome.
  rewrite Hsize, index_from_end_last. cbn [rbind].
  rewrite (view_infer_rows x lead L Hsize HL0). cbn [rbind].
  unfold Torch.stft. cbn [size data].
  destruct (stft_rows_returns (numel lead) L (data x) n_fft n_hop w center
              Hlead Hn Hh Hw HL) as [c [-> [Hc Hlen]]].
  cbn [rbind]. rewrite droplast_1_app.
  unfold Torch.view.
  assert (Hlast : lastn 3 (size (Torch.view_as_real c)) =
                  [freq_bins n_fft; n_frames center n_fft n_hop L; 2%nat]).
  { cbn [Torch.view_as_real size]. rewrite Hc. reflexivity. }
  rewrite Hlast.
  assert (Hnumel : numel (lead ++ [freq_bins n_fft; n_frames center n_fft n_hop L; 2%nat]) =
                   numel (size (Torch.view_as_real c))).
  { cbn [Torch.view_as_real size]. rewrite Hc, numel_app. simpl. lia. }
  rewrite Hnumel, Nat.eqb_refl.
  eexists. split; [ reflexivity | ]. split; [ reflexivity | ].
  unfold contiguous. cbn [size data]. rewrite Hnumel.
  change (length (data (Torch.view_as_real c)) = numel (size (Torch.view_as_real c))).
  rewrite view_as_real_length, Hlen.
  cbn [Torch.view_as_real size]. rewrite Hc. simpl. lia.
Qed.

(** C2 (as the code has it): for [n_fft > 0], [n_hop > 0], a window of
    [n_fft] entries and a non-empty batch of signals of [L] samples, with
    [L > n_fft // 2] when centred (the reflection needs it) and
    [L >= n_fft] otherwise, the encoder returns a well-formed tensor whose
    size is the leading size followed by [n_fft // 2 + 1] bins,
    [1 + (L_padded - n_fft) // n_hop] frames and 2, where
    [L_padded = L + 2 * (n_fft // 2)] when centred and [L] otherwise; for an
    even [n_fft] the centred [L_padded] is [L + n_fft]. *)
Theorem TorchSTFT_forward_size :
  forall (self : TorchSTFT.t) (x w : Tensor R) (st : Store)
         (lead : list nat) (L : nat),
    size x = lead ++ [L] ->
    (0 < numel lead)%nat ->
    (0 < TorchSTFT.n_fft self)%Z ->
    (0 < TorchSTFT.n_hop self)%Z ->
    nth_error st (TorchSTFT.window self) = Some w ->
    size w = [Z.to_nat (TorchSTFT.n_fft self)] ->
    (if TorchSTFT.center self
     then (TorchSTFT.n_fft self / 2 < Z.of_nat L)%Z
     else (TorchSTFT.n_fft self <= Z.of_nat L)%Z) ->
    let n_fft := TorchSTFT.n_fft self in
    let n_hop := TorchSTFT.n_hop self in
    let center := TorchSTFT.center self in
    exists out,
      TorchSTFT.forward self x st = (st, Ok out) /\
      size out = lead ++ [freq_bins n_fft; n_frames center n_fft n_hop L; 2%nat] /\
      contiguous out /\
      Z.of_nat (freq_bins n_fft) = (n_fft / 2 + 1)%Z /\
      Z.of_nat (n_frames center n_fft n_hop L) =
        (1 + (padded_length center n_fft L - n_fft) / n_hop)%Z /\
      padded_length false n_fft L = Z.of_nat L /\
      padded_length true n_fft L = (Z.of_nat L + 2 * (n_fft / 2))%Z /\
      (Z.even n_fft = true -> padded_length true n_fft L = (Z.of_nat L + n_fft)%Z).
Proof.
  intros self x w st lead L Hsize Hlead Hn Hh Hst Hw HL n_fft n_hop center.
  subst n_fft n_hop center.
  destruct self as [wl n_fft n_hop center]. cbn [TorchSTFT.n_fft TorchSTFT.n_hop
    TorchSTFT.center TorchSTFT.window] in *.
  destruct (stft_outcome_size w n_fft n_hop center x lead L
              Hsize Hlead Hn Hh Hw HL) as [out [Hout [Hs Hc]]].
  pose proof (half_bounds n_fft) as Hhalf.
  exists out. rewrite TorchSTFT_forward_outcome.
  cbn [TorchSTFT.n_fft TorchSTFT.n_hop TorchSTFT.center TorchSTFT.window].
  rewrite Hst.
  split; [ now rewrite <- Hout | ].
  split; [ exact Hs | ]. split; [ exact Hc | ].
  split; [ unfold freq_bins; lia | ].
  split.
  { unfold n_frames. rewrite Z2Nat.id; [ reflexivity | ].
    apply Z.add_nonneg_nonneg; [ lia | ].
    apply Z.div_pos; [ | lia ].
    unfold padded_length. destruct center; lia. }
  split; [ reflexivity | ]. split; [ reflexivity | ].
  intros Heven. unfold padded_length.
  apply Zeven_bool_iff, Zeven_div2 in Heven.
  rewrite Z.div2_div in Heven. lia.
Qed.

(** C2 on the scenario [n_fft = 4], [n_hop = 2], no centring, six samples:
    3 bins and 2 frames. *)
Lemma TorchSTFT_forward_size_witness :
  exists out,
    TorchSTFT.forward (TorchSTFT.mk 0%nat 4 2 false) ramp6 store44 = (store44, Ok out) /\
    size out = [1%nat; 1%nat; 3%nat; 2%nat; 2%nat] /\
    contiguous out.
Proof.
  destruct (TorchSTFT_forward_size (TorchSTFT.mk 0%nat 4 2 false) ramp6 window4
              store44 [1%nat; 1%nat] 6%nat)
    as [out [Hout [Hs [Hc _]]]];
    try reflexivity; try (simpl; lia).
  exists out. split; [ exact Hout | ]. split; [ exact Hs | exact Hc ].
Defined.

(** C2 as the specification states it fails for an odd [n_fft]: with
    [n_fft = 3], [n_hop = 1], centring and 5 samples the encoder returns 5
    frames, where [1 + floor((S + n_fft - n_fft) / n_hop)] is 6. *)
Lemma odd_n_fft_frame_count :
  exists out,
    TorchSTFT.forward (TorchSTFT.mk 0%nat 3 1 true) ramp5 store3 = (store3, Ok out) /\
    size out = [1%nat; 1%nat; 2%nat; 5%nat; 2%nat] /\
    Z.of_nat (nth 3 (size out) 0%nat) <> (1 + (Z.of_nat 5 + 3 - 3) / 1)%Z.
Proof.
  destruct (stft_outcome_size (mkTensor [3%nat] [1%R; 1%R; 1%R]) 3 1 true ramp5
              [1%nat; 1%nat] 5%nat)
    as [out [Hout [Hs _]]]; try reflexivity; try (simpl; lia).
  exists out. rewrite TorchSTFT_forward_outcome.
  split; [ simpl; now rewrite <- Hout | ].
  split; [ exact Hs | ].
  rewrite Hs. simpl. discriminate.
Qed.

(** * Further properties of [transforms.py] *)

(** ** When the encoder returns and when it raises *)

Lemma stft_rows_ok_inv N L xs n_fft n_hop (w : Tensor R) (center : bool) c :
  Torch.stft_rows N L xs n_fft n_hop w center = Ok c ->
  stft_accepts n_fft n_hop center w L /\ (center = true -> (0 < N)%nat).
Proof.
  unfold Torch.stft_rows, stft_accepts.
  destruct (Z.leb_spec n_fft 0) as [ | Hn]; [ discriminate | ].
  pose proof (half_bounds n_fft) as Hhalf.
  destruct center.
  - destruct (Nat.eqb_spec N 0); [ discriminate | ].
    destruct (Nat.leb_spec L (Z.to_nat (n_fft / 2))); [ discriminate | ].
    cbn [orb rbind fst snd].
    destruct (_ <? _)%nat; [ discriminate | ].
    destruct (Z.leb_spec n_hop 0); [ discriminate | ].
    destruct (size w) as [ | wl [ | ? ? ] ]; try discriminate.
    destruct (Nat.eqb_spec wl (Z.to_nat n_fft)) as [-> | ]; [ | discriminate ].
    intros _. repeat split; lia.
  - cbn [rbind fst snd].
    destruct (Nat.ltb_spec L (Z.to_nat n_fft)); [ discriminate | ].
    destruct (Z.leb_spec n_hop 0); [ discriminate | ].
    destruct (size w) as [ | wl [ | ? ? ] ]; try discriminate.
    destruct (Nat.eqb_spec wl (Z.to_nat n_fft)) as [-> | ]; [ | discriminate ].
    intros _. repeat split; try lia; try discriminate.
Qed.

Lemma stft_rows_raise_kind N L xs n_fft n_hop (w : Tensor R) (center : bool) e :
  Torch.stft_rows N L xs n_fft n_hop w center = Raise e -> e = RuntimeError.
Proof.
  unfold Torch.stft_rows.
  destruct (n_fft <=? 0)%Z; [ now intros [= <-] | ].
  destruct center.
  - destruct ((N =? 0)%nat || (L <=? Z.to_nat (n_fft / 2))%nat);
      cbn [rbind fst snd]; [ now intros [= <-] | ].
    destruct (_ <? _)%nat; [ now intros [= <-] | ].
    destruct (n_hop <=? 0)%Z; [ now intros [= <-] | ].
    destruct (size w) as [ | wl [ | ? ? ] ]; try (now intros [= <-]).
    destruct (wl =? Z.to_nat n_fft)%nat; [ discriminate | now intros [= <-] ].
  - cbn [rbind fst snd].
    destruct (_ <? _)%nat; [ now intros [= <-] | ].
    destruct (n_hop <=? 0)%Z; [ now intros [= <-] | ].
    destruct (size w) as [ | wl [ | ? ? ] ]; try (now intros [= <-]).
    destruct (wl =? Z.to_nat n_fft)%nat; [ discriminate | now intros [= <-] ].
Qed.

Lemma stft_outcome_inv (w : Tensor R) n_fft n_hop (center : bool) x lead L :
  size x = lead ++ [L] ->
  match stft_outcome (Some w) n_fft n_hop center x with
  | Ok _ => stft_accepts n_fft n_hop center w L
  | Raise e => e = RuntimeError
  end.
Proof.
  intros Hsize. unfold stft_outcome.
  rewrite Hsize, index_from_end_last. cbn [rbind].
  destruct (Nat.eq_dec L 0) as [-> | HL].
  { unfold Torch.view_infer. simpl. reflexivity. }
  rewrite (view_infer_rows x lead L Hsize HL). cbn [rbind].
  unfold Torch.stft. cbn [size data].
  destruct (Torch.stft_rows (numel lead) L (data x) n_fft n_hop w center)
    as [c | e] eqn:Hrows.
  - cbn [rbind]. apply stft_rows_ok_inv in Hrows. destruct Hrows as [Hacc _].
    unfold Torch.view. destruct (_ =? _)%nat; [ exact Hacc | reflexivity ].
  - cbn [rbind]. eapply stft_rows_raise_kind, Hrows.
Qed.

(** X1: on a non-empty batch of signals of [L] samples, and with the
    window it holds, the encoder returns exactly when [n_fft > 0],
    [n_hop > 0], the window has size [(n_fft,)] and the signals are long
    enough ([L > n_fft // 2] when centred, [L >= n_fft] otherwise); in
    every other case it raises a [RuntimeError].  In particular a
    [n_hop] larger than [n_fft] is accepted. *)
Theorem TorchSTFT_forward_returns_iff :
  forall (self : TorchSTFT.t) (x w : Tensor R) (st : Store)
         (lead : list nat) (L : nat),
    size x = lead ++ [L] ->
    (0 < numel lead)%nat ->
    nth_error st (TorchSTFT.window self) = Some w ->
    ((exists out, TorchSTFT.forward self x st = (st, Ok out)) <->
     stft_accepts (TorchSTFT.n_fft self) (TorchSTFT.n_hop self)
       (TorchSTFT.center self) w L) /\
    (~ stft_accepts (TorchSTFT.n_fft self) (TorchSTFT.n_hop self)
         (TorchSTFT.center self) w L ->
     TorchSTFT.forward self x st = (st, Raise RuntimeError)).
Proof.
  intros self x w st lead L Hsize Hlead Hw.
  rewrite TorchSTFT_forward_outcome, Hw.
  pose proof (stft_outcome_inv w (TorchSTFT.n_fft self) (TorchSTFT.n_hop self)
                (TorchSTFT.center self) x lead L Hsize) as Hinv.
  split; [ split | ].
  - intros [out [= Hout]]. rewrite Hout in Hinv. exact Hinv.
  - intros [Hn [Hh [Hws HL]]].
    destruct (stft_outcome_size w _ _ _ x lead L Hsize Hlead Hn Hh Hws HL)
      as [out [-> _]].
    exists out. reflexivity.
  - intros Hno. destruct (stft_outcome _ _ _ _ _) as [out | e].
    + contradiction.
    + now rewrite Hinv.
Qed.

(** X1 with [n_fft = 4] and no centring: three samples are refused, six
    are accepted although [n_hop = 8 > n_fft]. *)
Lemma TorchSTFT_forward_returns_iff_witness :
  TorchSTFT.forward (TorchSTFT.mk 0%nat 4 2 false) ramp3 store44 =
  (store44, Raise RuntimeError) /\
  exists out,
    TorchSTFT.forward (TorchSTFT.mk 0%nat 4 8 false) ramp6 store44 = (store44, Ok out).
Proof.
  split.
  - apply (TorchSTFT_forward_returns_iff (TorchSTFT.mk 0%nat 4 2 false) ramp3
             window4 store44 [1%nat; 1%nat] 3%nat);
      try reflexivity; [ simpl; lia | ].
    intros [_ [_ [_ H]]]. simpl in H. lia.
  - apply (TorchSTFT_forward_returns_iff (TorchSTFT.mk 0%nat 4 8 false) ramp6
             window4 store44 [1%nat; 1%nat] 6%nat);
      try reflexivity; [ simpl; lia | ].
    unfold stft_accepts. simpl. repeat split; lia.
Defined.

(** ** Inputs of too small a rank *)

Section Rank.

Variable torch_istft :
  Tensor C -> Z -> Z -> Tensor R -> bool -> option Z -> result (Tensor R).

Lemma index_from_end_out_of_range n s :
  (0 < n)%nat -> (length s < n)%nat -> index_from_end n s = Raise IndexError.
Proof.
  intros Hn Hlen. unfold index_from_end.
  destruct (nth_error (rev s) (n - 1)) eqn:E; [ | reflexivity ].
  assert (H : nth_error (rev s) (n - 1) <> None) by (rewrite E; discriminate).
  apply nth_error_Some in H. rewrite length_rev in H. lia.
Qed.

(** X2: a tensor without any axis makes the encoder raise [IndexError],
    and a tensor of fewer than three axes makes the decoder raise
    [IndexError] before [torch.istft] is reached, whatever the
    configuration; the store is left as it was. *)
Theorem forward_rejects_small_rank :
  forall (enc : TorchSTFT.t) (dec : TorchISTFT.t) (x : Tensor R)
         (length : option Z) (st : Store),
    (size x = [] -> TorchSTFT.forward enc x st = (st, Raise IndexError)) /\
    ((List.length (size x) < 3)%nat ->
     TorchISTFT.forward torch_istft dec x length st = (st, Raise IndexError)).
Proof.
  intros enc dec x len st. split.
  - intros H. unfold TorchSTFT.forward, bind, lift. rewrite H. reflexivity.
  - intros H. unfold TorchISTFT.forward, bind, lift.
    rewrite (index_from_end_out_of_range 3 (size x)) by lia. reflexivity.
Qed.

End Rank.

(** X2 on a scalar and on a matrix, for a decoder whose [torch.istft]
    would return its window. *)
Lemma forward_rejects_small_rank_witness :
  TorchSTFT.forward (TorchSTFT.mk 0%nat 4 2 false) (mkTensor [] [1%R]) store44 =
  (store44, Raise IndexError) /\
  TorchISTFT.forward (fun _ _ _ w _ _ => Ok w) (TorchISTFT.mk 4 2 false 44100%R 0%nat)
    (mkTensor [2%nat; 2%nat] [1%R; 2%R; 3%R; 4%R]) None store44 =
  (store44, Raise IndexError).
Proof.
  split.
  - apply (proj1 (forward_rejects_small_rank (fun _ _ _ w _ _ => Ok w)
             (TorchSTFT.mk 0%nat 4 2 false) (TorchISTFT.mk 4 2 false 44100%R 0%nat)
             (mkTensor [] [1%R]) None store44)).
    reflexivity.
  - apply (proj2 (forward_rejects_small_rank (fun _ _ _ w _ _ => Ok w)
             (TorchSTFT.mk 0%nat 4 2 false) (TorchISTFT.mk 4 2 false 44100%R 0%nat)
             (mkTensor [2%nat; 2%nat] [1%R; 2%R; 3%R; 4%R]) None store44)).
    simpl. lia.
Defined.

(** ** Packing of the leading axes *)

Lemma numel_singleton n : numel [n] = n.
Proof. simpl. lia. Qed.

Lemma view_packed {A : Type} (t : Tensor A) (lead l3 : list nat) :
  Torch.view t (lead ++ l3) =
  rbind (Torch.view t ([numel lead] ++ l3))
        (fun y => Torch.view y (lead ++ tl (size y))).
Proof.
  unfold Torch.view. rewrite !numel_app, numel_singleton.
  destruct (numel lead * numel l3 =? numel (size t))%nat eqn:E;
    cbn [rbind size data app tl]; [ | reflexivity ].
  rewrite numel_app.
  change (numel (numel lead :: l3)) with (numel ([numel lead] ++ l3)).
  rewrite numel_app, numel_singleton, Nat.eqb_refl. reflexivity.
Qed.

Lemma stft_outcome_packed wopt n_fft n_hop (center : bool) (x : Tensor R) lead L :
  size x = lead ++ [L] ->
  stft_outcome wopt n_fft n_hop center x =
  rbind (stft_outcome wopt n_fft n_hop center (mkTensor [numel lead; L] (data x)))
        (fun y => Torch.view y (lead ++ tl (size y))).
Proof.
  intros Hsize. unfold stft_outcome. cbn [size data].
  rewrite Hsize, index_from_end_last.
  change [numel lead; L] with ([numel lead] ++ [L]).
  rewrite index_from_end_last. cbn [rbind].
  destruct (Nat.eq_dec L 0) as [-> | HL].
  { unfold Torch.view_infer. simpl. reflexivity. }
  rewrite (view_infer_rows x lead L Hsize HL).
  rewrite (view_infer_rows (mkTensor ([numel lead] ++ [L]) (data x)) [numel lead] L
             eq_refl HL).
  cbn [data rbind]. rewrite numel_singleton.
  destruct wopt as [w | ]; cbn [rbind]; [ | reflexivity ].
  destruct (Torch.stft _ _ _ _ _) as [c | e]; cbn [rbind]; [ | reflexivity ].
  rewrite !droplast_1_app. apply view_packed.
Qed.

(** X3: the leading axes only label the signals.  Two tensors with the
    same entries and the same number of samples per signal, whose leading
    sizes hold the same number of signals, are encoded alike: both calls
    raise the same exception, or both return the same entries, each under
    its own leading size followed by the same trailing size. *)
Theorem TorchSTFT_forward_leading_axes :
  forall (self : TorchSTFT.t) (x x' : Tensor R) (st : Store)
         (lead lead' : list nat) (L : nat),
    size x = lead ++ [L] ->
    size x' = lead' ++ [L] ->
    data x' = data x ->
    numel lead' = numel lead ->
    match snd (TorchSTFT.forward self x st) with
    | Ok out =>
        exists tail,
          size out = lead ++ tail /\
          TorchSTFT.forward self x' st = (st, Ok (mkTensor (lead' ++ tail) (data out)))
    | Raise e => TorchSTFT.forward self x' st = (st, Raise e)
    end.
Proof.
  intros self x x' st lead lead' L Hx Hx' Hdata Hnum.
  rewrite !TorchSTFT_forward_outcome. cbn [snd].
  rewrite (stft_outcome_packed _ _ _ _ x lead L Hx).
  rewrite (stft_outcome_packed _ _ _ _ x' lead' L Hx').
  rewrite Hdata, Hnum.
  destruct (stft_outcome _ _ _ _ (mkTensor [numel lead; L] (data x))) as [y | e];
    cbn [rbind]; [ | reflexivity ].
  unfold Torch.view. rewrite !numel_app, Hnum.
  destruct (_ =? _)%nat; [ | reflexivity ].
  exists (tl (size y)). split; reflexivity.
Qed.

(** The six samples of [ramp6] as two signals of three samples, and as
    one batch of two channels. *)
Lemma TorchSTFT_forward_leading_axes_witness :
  match snd (TorchSTFT.forward (TorchSTFT.mk 0%nat 3 1 false)
               (mkTensor [2%nat; 3%nat] (data ramp6)) store3) with
  | Ok out =>
      exists tail,
        size out = [2%nat] ++ tail /\
        TorchSTFT.forward (TorchSTFT.mk 0%nat 3 1 false)
          (mkTensor [1%nat; 2%nat; 3%nat] (data ramp6)) store3 =
        (store3, Ok (mkTensor ([1%nat; 2%nat] ++ tail) (data out)))
  | Raise e =>
      TorchSTFT.forward (TorchSTFT.mk 0%nat 3 1 false)
        (mkTensor [1%nat; 2%nat; 3%nat] (data ramp6)) store3 = (store3, Raise e)
  end.
Proof.
  apply (TorchSTFT_forward_leading_axes (TorchSTFT.mk 0%nat 3 1 false)
           (mkTensor [2%nat; 3%nat] (data ramp6))
           (mkTensor [1%nat; 2%nat; 3%nat] (data ramp6)) store3
           [2%nat] [1%nat; 2%nat] 3%nat); reflexivity.
Defined.

(** ** Gain *)

Section Gain.

Local Open Scope R_scope.

Lemma map_tl {A B : Type} (f : A -> B) (l : list A) : tl (map f l) = map f (tl l).
Proof. now destruct l. Qed.

Lemma reflect_pad_map (f : R -> R) p row :
  Torch.reflect_pad p (map f row) = map f (Torch.reflect_pad p row).
Proof.
  unfold Torch.reflect_pad.
  rewrite <- (map_rev f row), !map_tl, !firstn_map, <- map_rev, <- !map_app.
  reflexivity.
Qed.

Lemma row_of_map (f : R -> R) L xs b :
  Torch.row_of L (map f xs) b = map f (Torch.row_of L xs b).
Proof. unfold Torch.row_of. now rewrite skipn_map, firstn_map. Qed.

Lemma frame_map (f : R -> R) n hop row t :
  Torch.frame n hop (map f row) t = map f (Torch.frame n hop row t).
Proof. unfold Torch.frame. now rewrite skipn_map, firstn_map. Qed.

Lemma windowed_scale a w xs :
  Torch.windowed w (map (Rmult a) xs) = map (Rmult a) (Torch.windowed w xs).
Proof.
  unfold Torch.windowed. revert w.
  induction xs as [ | x xs IH]; intros [ | v w]; simpl; try reflexivity.
  rewrite IH. f_equal. ring.
Qed.

Lemma nth_scale a xs k : nth k (map (Rmult a) xs) 0 = a * nth k xs 0.
Proof.
  replace 0 with (a * 0) at 1 by ring. apply map_nth.
Qed.

Lemma rsum_scale {A : Type} a (g : A -> R) (l : list A) :
  Torch.rsum (map (fun k => a * g k) l) = a * Torch.rsum (map g l).
Proof.
  induction l as [ | k l IH]; simpl; [ ring | ]. rewrite IH. ring.
Qed.

Lemma rfft_bin_scale a n xs f :
  Torch.rfft_bin n (map (Rmult a) xs) f = cscale a (Torch.rfft_bin n xs f).
Proof.
  unfold Torch.rfft_bin, cscale. cbn [fst snd]. f_equal.
  - rewrite <- rsum_scale. f_equal. apply map_ext. intros k.
    rewrite nth_scale. ring.
  - rewrite Ropp_mult_distr_r_reverse. f_equal.
    rewrite <- rsum_scale. f_equal. apply map_ext. intros k.
    rewrite nth_scale. ring.
Qed.

Lemma map_flat_map {A B D : Type} (h : B -> D) (f : A -> list B) (l : list A) :
  map h (flat_map f l) = flat_map (fun a => map h (f a)) l.
Proof.
  induction l as [ | a l IH]; simpl; [ reflexivity | ].
  now rewrite map_app, IH.
Qed.

Lemma flat_map_map {A B D : Type} (g : A -> B) (f : B -> list D) (l : list A) :
  flat_map f (map g l) = flat_map (fun a => f (g a)) l.
Proof.
  induction l as [ | a l IH]; simpl; [ reflexivity | ]. now rewrite IH.
Qed.

Lemma spectrogram_scale a n hop bins nf w rows :
  Torch.spectrogram n hop bins nf w (map (map (Rmult a)) rows) =
  map (cscale a) (Torch.spectrogram n hop bins nf w rows).
Proof.
  unfold Torch.spectrogram.
  rewrite flat_map_map, map_flat_map. apply flat_map_ext. intros row.
  rewrite map_flat_map. apply flat_map_ext. intros f.
  rewrite map_map. apply map_ext. intros t.
  now rewrite frame_map, windowed_scale, rfft_bin_scale.
Qed.

Lemma stft_rows_scale a N L xs n_fft n_hop w center :
  Torch.stft_rows N L (map (Rmult a) xs) n_fft n_hop w center =
  rmap (fun c => mkTensor (size c) (map (cscale a) (data c)))
       (Torch.stft_rows N L xs n_fft n_hop w center).
Proof.
  unfold Torch.stft_rows.
  destruct (n_fft <=? 0)%Z; [ reflexivity | ].
  destruct center.
  - destruct ((N =? 0)%nat || (L <=? Z.to_nat (n_fft / 2))%nat);
      cbn [rbind fst snd]; [ reflexivity | ].
    destruct (_ <? _)%nat; [ reflexivity | ].
    destruct (n_hop <=? 0)%Z; [ reflexivity | ].
    destruct (size w) as [ | wl [ | ? ? ] ]; try reflexivity.
    destruct (wl =? Z.to_nat n_fft)%nat; [ | reflexivity ].
    unfold rmap. cbn [rbind size data]. do 2 f_equal.
    rewrite <- spectrogram_scale. f_equal.
    rewrite map_map. apply map_ext. intros b.
    now rewrite row_of_map, reflect_pad_map.
  - cbn [rbind fst snd].
    destruct (_ <? _)%nat; [ reflexivity | ].
    destruct (n_hop <=? 0)%Z; [ reflexivity | ].
    destruct (size w) as [ | wl [ | ? ? ] ]; try reflexivity.
    destruct (wl =? Z.to_nat n_fft)%nat; [ | reflexivity ].
    unfold rmap. cbn [rbind size data]. do 2 f_equal.
    rewrite <- spectrogram_scale. f_equal.
    rewrite map_map. apply map_ext. intros b.
    now rewrite row_of_map.
Qed.

Lemma stft_scale a x n_fft n_hop w center :
  Torch.stft (scale a x) n_fft n_hop w center =
  rmap (fun c => mkTensor (size c) (map (cscale a) (data c)))
       (Torch.stft x n_fft n_hop w center).
Proof.
  unfold Torch.stft, scale. cbn [size data].
  destruct (size x) as [ | L [ | N [ | ? ? ] ] ]; try reflexivity.
  - rewrite stft_rows_scale.
    destruct (Torch.stft_rows _ _ _ _ _ _ _); reflexivity.
  - apply stft_rows_scale.
Qed.

Lemma view_as_real_scale a c :
  Torch.view_as_real (mkTensor (size c) (map (cscale a) (data c))) =
  scale a (Torch.view_as_real c).
Proof.
  unfold Torch.view_as_real, scale. cbn [size data]. f_equal.
  rewrite flat_map_map, map_flat_map. reflexivity.
Qed.

Lemma view_scale a t s :
  Torch.view (scale a t) s = rmap (scale a) (Torch.view t s).
Proof.
  unfold Torch.view, scale. cbn [size data].
  destruct (_ =? _)%nat; reflexivity.
Qed.

Lemma view_infer_scale a t ds :
  Torch.view_infer (scale a t) ds = rmap (scale a) (Torch.view_infer t ds).
Proof.
  unfold Torch.view_infer, scale. cbn [size data].
  destruct (numel ds =? 0)%nat; [ reflexivity | ].
  destruct (_ =? 0)%nat; reflexivity.
Qed.

Lemma stft_outcome_scale a wopt n_fft n_hop center x :
  stft_outcome wopt n_fft n_hop center (scale a x) =
  rmap (scale a) (stft_outcome wopt n_fft n_hop center x).
Proof.
  unfold stft_outcome. cbn [scale size].
  destruct (index_from_end 1 (size x)) as [d | e]; cbn [rbind]; [ | reflexivity ].
  change (mkTensor (size x) (map (Rmult a) (data x))) with (scale a x).
  rewrite view_infer_scale.
  destruct (Torch.view_infer x [d]) as [x' | e]; cbn [rmap rbind]; [ | reflexivity ].
  destruct wopt as [w | ]; cbn [rbind]; [ | reflexivity ].
  rewrite stft_scale.
  destruct (Torch.stft x' n_fft n_hop w center) as [c | e];
    cbn [rmap rbind]; [ | reflexivity ].
  rewrite view_as_real_scale. cbn [scale size]. 
  change (mkTensor (size (Torch.view_as_real c))
            (map (Rmult a) (data (Torch.view_as_real c))))
    with (scale a (Torch.view_as_real c)).
  apply view_scale.
Qed.

(** X4: the encoder commutes with a gain.  Encoding a waveform multiplied
    by a real number [a] raises what encoding the waveform raises, or
    returns the spectrogram of the waveform multiplied by [a]. *)
Theorem TorchSTFT_forward_scale :
  forall (self : TorchSTFT.t) (a : R) (x : Tensor R) (st : Store),
    TorchSTFT.forward self (scale a x) st =
    (st, rmap (scale a) (snd (TorchSTFT.forward self x st))).
Proof.
  intros self a x st. rewrite !TorchSTFT_forward_outcome. cbn [snd].
  now rewrite stft_outcome_scale.
Qed.

Lemma pairs_scale a l :
  Torch.pairs (map (Rmult a) l) = map (cscale a) (Torch.pairs l).
Proof.
  enough (H : Torch.pairs (map (Rmult a) l) = map (cscale a) (Torch.pairs l) /\
              forall x, Torch.pairs (map (Rmult a) (x :: l)) =
                        map (cscale a) (Torch.pairs (x :: l))) by apply H.
  induction l as [ | y l [IH1 IH2] ]; split; try reflexivity.
  - apply IH2.
  - intros x. simpl. rewrite IH1. reflexivity.
Qed.

Lemma cabs_scale a z : Torch.cabs (cscale a z) = Rabs a * Torch.cabs z.
Proof.
  unfold Torch.cabs, cscale. cbn [fst snd].
  replace (a * fst z * (a * fst z) + a * snd z * (a * snd z))
    with (Rsqr a * (fst z * fst z + snd z * snd z)) by (unfold Rsqr; ring).
  rewrite sqrt_mult by (try apply Rle_0_sqr; nra).
  now rewrite sqrt_Rsqr_abs.
Qed.

Lemma view_as_complex_scale a t :
  Torch.view_as_complex (scale a t) =
  rmap (fun c => mkTensor (size c) (map (cscale a) (data c)))
       (Torch.view_as_complex t).
Proof.
  unfold Torch.view_as_complex, scale. cbn [size data].
  destruct (rev (size t)) as [ | [ | [ | [ | d ] ] ] s ]; try reflexivity.
  unfold rmap. cbn [rbind size data]. now rewrite pairs_scale.
Qed.

Lemma abs_scale a c :
  Torch.abs (mkTensor (size c) (map (cscale a) (data c))) =
  scale (Rabs a) (Torch.abs c).
Proof.
  unfold Torch.abs, scale. cbn [size data]. f_equal.
  rewrite !map_map. apply map_ext. intros z. apply cabs_scale.
Qed.

Lemma mean_entry_scale c d1 inner xs b i :
  Torch.mean_entry d1 inner (map (Rmult c) xs) b i =
  fmul c (Torch.mean_entry d1 inner xs b i).
Proof.
  destruct d1 as [ | d1]; [ reflexivity | ].
  rewrite !mean_entry_channels by lia. cbn [fmul]. f_equal.
  replace (map (fun k => nth ((b * S d1 + k) * inner + i) (map (Rmult c) xs) 0)
               (seq 0 (S d1)))
    with (map (fun k => c * nth ((b * S d1 + k) * inner + i) xs 0) (seq 0 (S d1)))
    by (apply map_ext; intros k; now rewrite nth_scale).
  rewrite rsum_scale. unfold Rdiv. ring.
Qed.

Lemma mean_dim1_keepdim_scale c t :
  Torch.mean_dim1_keepdim (scale c t) =
  rmap (fscale c) (Torch.mean_dim1_keepdim t).
Proof.
  unfold Torch.mean_dim1_keepdim, scale. cbn [size data].
  destruct (size t) as [ | d0 [ | d1 rest] ]; try reflexivity.
  unfold rmap, fscale. cbn [rbind size data]. do 2 f_equal.
  rewrite map_flat_map. apply flat_map_ext. intros b.
  rewrite map_map. apply map_ext. intros i. apply mean_entry_scale.
Qed.

Lemma floats_scale c t : Torch.floats (scale c t) = fscale c (Torch.floats t).
Proof.
  unfold Torch.floats, scale, fscale. cbn [size data]. f_equal.
  rewrite !map_map. reflexivity.
Qed.

Lemma complex_norm_scale self a spec :
  ComplexNorm.forward self (scale a spec) =
  rmap (fscale (Rabs a)) (ComplexNorm.forward self spec).
Proof.
  unfold ComplexNorm.forward. rewrite view_as_complex_scale.
  destruct (Torch.view_as_complex spec) as [z | e]; cbn [rmap rbind]; [ | reflexivity ].
  rewrite abs_scale.
  destruct (ComplexNorm.mono self); [ apply mean_dim1_keepdim_scale | ].
  now rewrite floats_scale.
Qed.

(** X5: the magnitude stage is absolutely homogeneous.  On a spectrogram
    multiplied by a real number [a], [ComplexNorm.forward], with or without
    the mono downmix, raises what it raises on the spectrogram, or returns
    its result multiplied by [|a|]. *)
Theorem ComplexNorm_forward_abs_gain :
  forall (self : ComplexNorm.t) (a : R) (spec : Tensor R),
    ComplexNorm.forward self (scale a spec) =
    rmap (fscale (Rabs a)) (ComplexNorm.forward self spec).
Proof.
  intros self a spec. unfold ComplexNorm.forward.
  rewrite view_as_complex_scale.
  destruct (Torch.view_as_complex spec) as [z | e]; cbn [rmap rbind]; [ | reflexivity ].
  rewrite abs_scale.
  destruct (ComplexNorm.mono self); [ apply mean_dim1_keepdim_scale | ].
  now rewrite floats_scale.
Qed.

Lemma fmul_1 v : fmul 1 v = v.
Proof.
  destruct v as [r | | | ]; cbn [fmul]; try reflexivity.
  - f_equal. ring.
  - destruct (Rlt_dec 0 1); [ reflexivity | lra ].
  - destruct (Rlt_dec 0 1); [ reflexivity | lra ].
Qed.

Lemma fscale_1 t : fscale 1 t = t.
Proof.
  destruct t as [s d]. unfold fscale. cbn [size data]. f_equal.
  rewrite <- (map_id d) at 2. apply map_ext. intros v. apply fmul_1.
Qed.

Lemma rmap_fscale_1 (r : result (Tensor float)) : rmap (fscale 1) r = r.
Proof. destruct r as [t | e]; [ | reflexivity ]. simpl. now rewrite fscale_1. Qed.

(** X6: the analysis front end follows the gain of its input.  On a
    waveform multiplied by a real number [a], [AudioEncoder.forward] raises
    what it raises on the waveform, or returns the magnitudes of the
    waveform multiplied by [|a|]; in particular the waveform and its
    negation are encoded alike. *)
Theorem AudioEncoder_forward_abs_gain :
  forall (self : AudioEncoder.t) (a : R) (x : Tensor R) (st : Store),
    AudioEncoder.forward self (scale a x) st =
    (st, rmap (fscale (Rabs a)) (snd (AudioEncoder.forward self x st))) /\
    AudioEncoder.forward self (scale (-1) x) st = AudioEncoder.forward self x st.
Proof.
  assert (H : forall self a x st,
             AudioEncoder.forward self (scale a x) st =
             (st, rmap (fscale (Rabs a)) (snd (AudioEncoder.forward self x st)))).
  { intros self a x st. unfold AudioEncoder.forward, bind, lift.
    rewrite !TorchSTFT_forward_outcome, stft_outcome_scale.
    destruct (stft_outcome _ _ _ _ x) as [y | e]; cbn [rmap rbind snd];
      [ | reflexivity ].
    now rewrite complex_norm_scale. }
  intros self a x st. split; [ apply H | ].
  rewrite H. replace (Rabs (-1)) with 1
    by (unfold Rabs; destruct (Rcase_abs (-1)); lra).
  rewrite rmap_fscale_1.
  pose proof (AudioEncoder_forward_read_only self x st) as Hst.
  destruct (AudioEncoder.forward self x st) as [st' r]. simpl in *. now subst.
Qed.

End Gain.

(** ** The magnitude stage on its own *)

Section MagnitudeStage.

Local Open Scope R_scope.

Lemma length_pairs k :
  forall l : list R, length l = (2 * k)%nat -> length (Torch.pairs l) = k.
Proof.
  induction k as [ | k IH]; intros l H.
  - destruct l; [ reflexivity | simpl in H; lia ].
  - destruct l as [ | re [ | im l] ]; simpl in H; try lia.
    simpl. f_equal. apply IH. lia.
Qed.

Lemma abs_view_as_complex (spec : Tensor R) (s : list nat) :
  size spec = s ++ [2%nat] ->
  contiguous spec ->
  exists z,
    Torch.view_as_complex spec = Ok z /\
    size (Torch.abs z) = s /\
    contiguous (Torch.abs z) /\
    forall j, (j < numel s)%nat -> nth j (data (Torch.abs z)) 0 = bin_magnitude spec j.
Proof.
  intros Hsize Hcont.
  assert (Hlen : length (data spec) = (2 * numel s)%nat).
  { unfold contiguous in Hcont. rewrite Hcont, Hsize, numel_app. simpl. lia. }
  rewrite (view_as_complex_returns spec s Hsize).
  eexists. split; [ reflexivity | ]. split; [ reflexivity | ]. split.
  - unfold contiguous. cbn [Torch.abs size data].
    rewrite length_map. now apply length_pairs.
  - intros j Hj. cbn [Torch.abs data]. apply nth_abs_pairs. lia.
Qed.

Lemma floats_contiguous (t : Tensor R) : contiguous t -> contiguous (Torch.floats t).
Proof. unfold contiguous. cbn [Torch.floats size data]. now rewrite length_map. Qed.

Lemma nth_floats (t : Tensor R) (j : nat) :
  (j < length (data t))%nat ->
  nth j (data (Torch.floats t)) NaN = Num (nth j (data t) 0).
Proof.
  intros Hj. cbn [Torch.floats data].
  rewrite (nth_indep _ NaN (Num 0)) by (now rewrite length_map).
  apply map_nth.
Qed.

(** X7: without the mono downmix, [ComplexNorm.forward] on a well-formed
    tensor of size [(..., 2)] returns a well-formed tensor of the size
    without the last axis, the channel axis included, whose entry [j] is
    the magnitude [sqrt(re^2 + im^2)] of the complex entry [j]. *)
Theorem ComplexNorm_forward_keeps_channels :
  forall (spec : Tensor R) (s : list nat),
    size spec = s ++ [2%nat] ->
    contiguous spec ->
    exists out,
      ComplexNorm.forward (ComplexNorm.mk false) spec = Ok out /\
      size out = s /\
      contiguous out /\
      forall j, (j < numel s)%nat ->
        nth j (data out) NaN = Num (bin_magnitude spec j).
Proof.
  intros spec s Hsize Hcont.
  destruct (abs_view_as_complex spec s Hsize Hcont) as [z [Hz [Hs [Hc Hentry]]]].
  exists (Torch.floats (Torch.abs z)). unfold ComplexNorm.forward. rewrite Hz.
  split; [ reflexivity | ]. split; [ exact Hs | ].
  split; [ apply floats_contiguous, Hc | ].
  intros j Hj. rewrite nth_floats, Hentry by (rewrite ?Hc, ?Hs; exact Hj).
  reflexivity.
Qed.

(** X7 on [opposite_channels]: both channels are kept. *)
Lemma ComplexNorm_forward_keeps_channels_witness :
  exists out,
    ComplexNorm.forward (ComplexNorm.mk false) opposite_channels = Ok out /\
    size out = [1%nat; 2%nat; 1%nat; 1%nat] /\
    contiguous out /\
    forall j, (j < numel [1%nat; 2%nat; 1%nat; 1%nat])%nat ->
      nth j (data out) NaN = Num (bin_magnitude opposite_channels j).
Proof.
  apply (ComplexNorm_forward_keeps_channels opposite_channels
           [1%nat; 2%nat; 1%nat; 1%nat]); reflexivity.
Defined.

Lemma view_as_complex_raises (spec : Tensor R) :
  last (size spec) 0%nat <> 2%nat ->
  Torch.view_as_complex spec = Raise RuntimeError.
Proof.
  intros H. unfold Torch.view_as_complex.
  destruct (size spec) as [ | d s _] using rev_ind; [ reflexivity | ].
  rewrite last_last in H. rewrite rev_unit.
  destruct d as [ | [ | [ | d ] ] ]; try reflexivity. contradiction.
Qed.

(** X8: the failures of [ComplexNorm.forward].  A tensor whose last axis
    does not have size 2 (or that has no axis) raises a [RuntimeError]; with
    the mono downmix a tensor of size [(..., 2)] with fewer than three axes
    raises an [IndexError], since the complex tensor has no axis 1; every
    other tensor is accepted. *)
Theorem ComplexNorm_forward_failures :
  forall (self : ComplexNorm.t) (spec : Tensor R),
    (last (size spec) 0%nat <> 2%nat ->
     ComplexNorm.forward self spec = Raise RuntimeError) /\
    (forall s, size spec = s ++ [2%nat] ->
       ComplexNorm.mono self = true -> (length s < 2)%nat ->
       ComplexNorm.forward self spec = Raise IndexError) /\
    (forall s, size spec = s ++ [2%nat] ->
       (ComplexNorm.mono self = true -> (2 <= length s)%nat) ->
       exists out, ComplexNorm.forward self spec = Ok out).
Proof.
  intros self spec. unfold ComplexNorm.forward. split; [ | split ].
  - intros H. now rewrite view_as_complex_raises.
  - intros s Hsize Hmono Hlen.
    rewrite (view_as_complex_returns spec s Hsize), Hmono. cbn [rbind].
    unfold Torch.mean_dim1_keepdim. cbn [Torch.abs size].
    destruct s as [ | d0 [ | d1 rest] ]; simpl in Hlen; try reflexivity. lia.
  - intros s Hsize Hmono.
    rewrite (view_as_complex_returns spec s Hsize). cbn [rbind].
    destruct (ComplexNorm.mono self); [ | eexists; reflexivity ].
    specialize (Hmono eq_refl).
    unfold Torch.mean_dim1_keepdim. cbn [Torch.abs size].
    destruct s as [ | d0 [ | d1 rest] ]; simpl in Hmono; try lia.
    eexists; reflexivity.
Qed.

(** X8 on a tensor of three real entries per bin, and on a single complex
    row with the downmix. *)
Lemma ComplexNorm_forward_failures_witness :
  ComplexNorm.forward (ComplexNorm.mk false)
    (mkTensor [1%nat; 3%nat] [1; 2; 3]) = Raise RuntimeError /\
  ComplexNorm.forward (ComplexNorm.mk true)
    (mkTensor [2%nat; 2%nat] [1; 2; 3; 4]) = Raise IndexError /\
  exists out,
    ComplexNorm.forward (ComplexNorm.mk false)
      (mkTensor [2%nat; 2%nat] [1; 2; 3; 4]) = Ok out.
Proof.
  split; [ | split ].
  - apply (proj1 (ComplexNorm_forward_failures (ComplexNorm.mk false)
                    (mkTensor [1%nat; 3%nat] [1; 2; 3]))).
    simpl. discriminate.
  - apply (proj1 (proj2 (ComplexNorm_forward_failures (ComplexNorm.mk true)
                           (mkTensor [2%nat; 2%nat] [1; 2; 3; 4]))) [2%nat]);
      [ reflexivity | reflexivity | simpl; lia ].
  - apply (proj2 (proj2 (ComplexNorm_forward_failures (ComplexNorm.mk false)
                           (mkTensor [2%nat; 2%nat] [1; 2; 3; 4]))) [2%nat]);
      [ reflexivity | discriminate ].
Defined.

Lemma blocks_identity (xs : list R) (B inner : nat) :
  length xs = (B * inner)%nat ->
  flat_map (fun b => map (fun i => nth (b * inner + i) xs 0) (seq 0 inner)) (seq 0 B) = xs.
Proof.
  intros Hlen.
  assert (Hl : length (flat_map (fun b => map (fun i => nth (b * inner + i) xs 0)
                                              (seq 0 inner)) (seq 0 B)) =
               (B * inner)%nat).
  { rewrite (length_flat_map_const _ inner).
    - now rewrite length_seq.
    - intros b _. now rewrite length_map, length_seq. }
  apply (nth_ext _ _ 0 0); [ now rewrite Hl, Hlen | ].
  intros n Hn. rewrite Hl in Hn.
  assert (Hinner : inner <> 0%nat) by (intros ->; lia).
  pose proof (Nat.div_mod_eq n inner) as Hdm.
  pose proof (Nat.mod_upper_bound n inner Hinner) as Hmod.
  assert (Hb : (n / inner < B)%nat) by (apply Nat.Div0.div_lt_upper_bound; lia).
  assert (Hn' : (n / inner * inner + n mod inner)%nat = n)
    by (rewrite Nat.mul_comm; symmetry; exact Hdm).
  rewrite <- Hn' at 1.
  rewrite (nth_flat_map_blocks _ inner B) by
    (try (intro; rewrite length_map, length_seq; reflexivity); assumption).
  rewrite nth_map_seq by exact Hmod. now rewrite Hn'.
Qed.

Lemma mean_entry_single_channel inner xs b i :
  Torch.mean_entry 1 inner xs b i = Num (nth (b * inner + i) xs 0).
Proof.
  rewrite mean_entry_channels by lia. simpl.
  replace ((b * 1 + 0) * inner + i)%nat with (b * inner + i)%nat by lia.
  f_equal. field.
Qed.

Lemma mean_dim1_keepdim_single_channel (t : Tensor R) (B : nat) (rest : list nat) :
  size t = B :: 1%nat :: rest ->
  contiguous t ->
  Torch.mean_dim1_keepdim t = Ok (Torch.floats t).
Proof.
  intros Hsize Hcont. unfold Torch.mean_dim1_keepdim, Torch.floats. rewrite Hsize.
  destruct t as [s d]. cbn [size data] in *. subst s. do 2 f_equal.
  rewrite (flat_map_ext _
             (fun b => map Num (map (fun i => nth (b * numel rest + i) d 0)
                                    (seq 0 (numel rest))))).
  - rewrite <- map_flat_map. f_equal.
    apply blocks_identity. unfold contiguous in Hcont. cbn [size data] in Hcont.
    rewrite Hcont. change (numel (B :: 1%nat :: rest)) with (B * (1 * numel rest))%nat.
    lia.
  - intros b. rewrite map_map. apply map_ext. intros i.
    apply mean_entry_single_channel.
Qed.

(** X9: on a well-formed spectrogram with a single channel, size
    [(B, 1, ..., 2)], the mono downmix changes nothing: [ComplexNorm] with
    [mono=True] returns exactly what it returns with [mono=False]. *)
Theorem ComplexNorm_mono_single_channel :
  forall (spec : Tensor R) (B : nat) (rest : list nat),
    size spec = B :: 1%nat :: rest ++ [2%nat] ->
    contiguous spec ->
    ComplexNorm.forward (ComplexNorm.mk true) spec =
    ComplexNorm.forward (ComplexNorm.mk false) spec /\
    exists out,
      ComplexNorm.forward (ComplexNorm.mk true) spec = Ok out /\
      size out = B :: 1%nat :: rest.
Proof.
  intros spec B rest Hsize Hcont.
  destruct (abs_view_as_complex spec (B :: 1%nat :: rest) Hsize Hcont)
    as [z [Hz [Hs [Hc _]]]].
  unfold ComplexNorm.forward. rewrite Hz. cbn [rbind ComplexNorm.mono].
  rewrite (mean_dim1_keepdim_single_channel (Torch.abs z) B rest Hs Hc).
  split; [ reflexivity | ].
  exists (Torch.floats (Torch.abs z)). split; [ reflexivity | exact Hs ].
Qed.

(** One batch, one channel, two bins, one frame. *)
Lemma ComplexNorm_mono_single_channel_witness :
  ComplexNorm.forward (ComplexNorm.mk true)
    (mkTensor [1%nat; 1%nat; 2%nat; 1%nat; 2%nat] [3; 4; 0; 1]) =
  ComplexNorm.forward (ComplexNorm.mk false)
    (mkTensor [1%nat; 1%nat; 2%nat; 1%nat; 2%nat] [3; 4; 0; 1]) /\
  exists out,
    ComplexNorm.forward (ComplexNorm.mk true)
      (mkTensor [1%nat; 1%nat; 2%nat; 1%nat; 2%nat] [3; 4; 0; 1]) = Ok out /\
    size out = [1%nat; 1%nat; 2%nat; 1%nat].
Proof.
  apply (ComplexNorm_mono_single_channel
           (mkTensor [1%nat; 1%nat; 2%nat; 1%nat; 2%nat] [3; 4; 0; 1])
           1%nat [2%nat; 1%nat]); reflexivity.
Defined.

End MagnitudeStage.

(** ** The analysis front end, end to end *)

Section FrontEnd.

Local Open Scope R_scope.

Lemma AudioEncoder_init_inv n_fft n_hop sample_rate num_channels st st' self :
  AudioEncoder.__init__ n_fft n_hop sample_rate num_channels st = (st', Ok self) ->
  exists h,
    Torch.hann_window n_fft = Ok h /\
    st' = st ++ [h] /\
    self = AudioEncoder.mk (TorchSTFT.mk (length st) n_fft n_hop false)
                           (ComplexNorm.mk (num_channels =? 1)%Z).
Proof.
  unfold AudioEncoder.__init__, TorchSTFT.__init__, bind, lift, new_parameter, ret.
  destruct (Torch.hann_window n_fft) as [h | e]; [ | discriminate ].
  intros [= <- <-]. exists h. repeat split.
Qed.

Lemma complex_norm_on_spectrogram (mono : bool) (y : Tensor R) (B Cn : nat)
    (rest : list nat) :
  size y = B :: Cn :: rest ++ [2%nat] ->
  (0 < Cn)%nat ->
  contiguous y ->
  exists out,
    ComplexNorm.forward (ComplexNorm.mk mono) y = Ok out /\
    size out = B :: (if mono then 1%nat else Cn) :: rest /\
    contiguous out /\
    Forall float_nonneg (data out).
Proof.
  intros Hsize HC Hcont.
  destruct (abs_view_as_complex y (B :: Cn :: rest) Hsize Hcont)
    as [z [Hz [Hs [Hc _]]]].
  unfold ComplexNorm.forward. rewrite Hz. cbn [rbind ComplexNorm.mono].
  destruct mono.
  - destruct (mean_dim1_keepdim_entry (Torch.abs z) B Cn rest Hs)
      as [out [Hout [Hso [Hco _]]]].
    exists out. split; [ exact Hout | ]. split; [ exact Hso | ].
    split; [ exact Hco | ].
    eapply mean_dim1_keepdim_nonneg; [ | apply abs_nonneg | exact Hout ].
    rewrite Hs. exact HC.
  - exists (Torch.floats (Torch.abs z)). split; [ reflexivity | ].
    split; [ exact Hs | ].
    split; [ apply floats_contiguous, Hc | apply floats_nonneg, abs_nonneg ].
Qed.

(** X10: the front end on a batch.  An [AudioEncoder] built with
    [n_fft > 0] and [n_hop > 0], called on a waveform of size [(B, C, L)]
    with [B, C >= 1] and [L >= n_fft], returns a well-formed tensor without
    negative entry, of size [(B, C', n_fft // 2 + 1, 1 + (L - n_fft) // n_hop)],
    where [C'] is 1 when the configured [num_channels] is 1, whatever [C]
    is, and [C] otherwise; the store is left as it was. *)
Theorem AudioEncoder_forward_size :
  forall (n_fft n_hop num_channels : Z) (sample_rate : R) (st st' : Store)
         (self : AudioEncoder.t) (x : Tensor R) (B Cn L : nat),
    (0 < n_fft)%Z -> (0 < n_hop)%Z ->
    AudioEncoder.__init__ n_fft n_hop sample_rate num_channels st = (st', Ok self) ->
    size x = [B; Cn; L] ->
    (0 < B)%nat -> (0 < Cn)%nat -> (n_fft <= Z.of_nat L)%Z ->
    exists out,
      AudioEncoder.forward self x st' = (st', Ok out) /\
      size out = [B; if (num_channels =? 1)%Z then 1%nat else Cn;
                  freq_bins n_fft; n_frames false n_fft n_hop L] /\
      contiguous out /\
      Forall float_nonneg (data out).
Proof.
  intros n_fft n_hop nc sr st st' self x B Cn L Hn Hh Hinit Hsize HB HC HL.
  destruct (AudioEncoder_init_inv _ _ _ _ _ _ _ Hinit) as [h [Hh' [-> ->]]].
  destruct (hann_window_shape n_fft h Hh') as [_ [Hhs _]].
  destruct (stft_outcome_size h n_fft n_hop false x [B; Cn] L
              Hsize ltac:(simpl; nia) Hn Hh Hhs HL) as [y [Hy [Hys Hyc]]].
  destruct (complex_norm_on_spectrogram (nc =? 1)%Z y B Cn
              [freq_bins n_fft; n_frames false n_fft n_hop L] Hys HC Hyc)
    as [out [Hout [Hso [Hco Hpos]]]].
  exists out. split; [ | split; [ exact Hso | split; [ exact Hco | exact Hpos ] ] ].
  unfold AudioEncoder.forward, bind, lift. rewrite TorchSTFT_forward_outcome.
  cbn [AudioEncoder.stft AudioEncoder.complex_norm TorchSTFT.window
       TorchSTFT.n_fft TorchSTFT.n_hop TorchSTFT.center].
  rewrite nth_error_app_length, Hy, Hout. reflexivity.
Qed.

(** X10 at [n_fft = 4], [n_hop = 2], one configured channel, on six samples
    in two channels: the two channels are mixed down to one. *)
Lemma AudioEncoder_forward_size_witness :
  exists out,
    AudioEncoder.forward
      (AudioEncoder.mk (TorchSTFT.mk 0%nat 4 2 false) (ComplexNorm.mk true))
      (mkTensor [1%nat; 2%nat; 6%nat] (data ramp6 ++ data ramp6)) [hann4] =
    ([hann4], Ok out) /\
    size out = [1%nat; 1%nat; 3%nat; 2%nat] /\
    contiguous out /\
    Forall float_nonneg (data out).
Proof.
  destruct (AudioEncoder_forward_size 4 2 1 44100 [] _ _
              (mkTensor [1%nat; 2%nat; 6%nat] (data ramp6 ++ data ramp6))
              1%nat 2%nat 6%nat ltac:(lia) ltac:(lia) eq_refl eq_refl
              ltac:(lia) ltac:(lia) ltac:(simpl; lia))
    as [out H].
  exists out. exact H.
Defined.

(** X11: the front end never centres.  Whatever its arguments, an
    [AudioEncoder] raises a [RuntimeError] on every waveform whose signals
    have fewer than [n_fft] samples, and leaves the store as it was. *)
Theorem AudioEncoder_rejects_short_input :
  forall (n_fft n_hop num_channels : Z) (sample_rate : R) (st st' : Store)
         (self : AudioEncoder.t) (x : Tensor R) (lead : list nat) (L : nat),
    AudioEncoder.__init__ n_fft n_hop sample_rate num_channels st = (st', Ok self) ->
    size x = lead ++ [L] ->
    (Z.of_nat L < n_fft)%Z ->
    AudioEncoder.forward self x st' = (st', Raise RuntimeError).
Proof.
  intros n_fft n_hop nc sr st st' self x lead L Hinit Hsize HL.
  destruct (AudioEncoder_init_inv _ _ _ _ _ _ _ Hinit) as [h [Hh' [-> ->]]].
  unfold AudioEncoder.forward, bind, lift. rewrite TorchSTFT_forward_outcome.
  cbn [AudioEncoder.stft AudioEncoder.complex_norm TorchSTFT.window
       TorchSTFT.n_fft TorchSTFT.n_hop TorchSTFT.center].
  rewrite nth_error_app_length.
  pose proof (stft_outcome_inv h n_fft n_hop false x lead L Hsize) as Hinv.
  destruct (stft_outcome (Some h) n_fft n_hop false x) as [y | e].
  - destruct Hinv as [_ [_ [_ Hlen]]]. lia.
  - now rewrite Hinv.
Qed.

(** X11 at [n_fft = 4] on three samples. *)
Lemma AudioEncoder_rejects_short_input_witness :
  AudioEncoder.forward
    (AudioEncoder.mk (TorchSTFT.mk 0%nat 4 2 false) (ComplexNorm.mk false))
    ramp3 [hann4] =
  ([hann4], Raise RuntimeError).
Proof.
  apply (AudioEncoder_rejects_short_input 4 2 2 44100 [] [hann4] _ ramp3
           [1%nat; 1%nat] 3%nat eq_refl eq_refl).
  simpl. lia.
Defined.

(** X12: the pair of [make_filterbanks] is ready to use.  When
    [make_filterbanks] returns for [n_fft > 0] and [n_hop > 0], the decoder
    holds the same [n_fft], [n_hop] and [center] as the encoder, and the
    encoder, called on a non-empty batch of signals that are long enough
    ([L > n_fft // 2] when centred, [L >= n_fft] otherwise), returns a
    well-formed spectrogram of [n_fft // 2 + 1] bins: the window it was given
    always passes the check of the transform. *)
Theorem make_filterbanks_encoder_accepts :
  forall (n_fft n_hop : Z) (center : bool) (st st' : Store)
         (encoder : TorchSTFT.t) (decoder : TorchISTFT.t)
         (x : Tensor R) (lead : list nat) (L : nat),
    make_filterbanks n_fft n_hop center st = (st', Ok (encoder, decoder)) ->
    (0 < n_fft)%Z -> (0 < n_hop)%Z ->
    size x = lead ++ [L] ->
    (0 < numel lead)%nat ->
    (if center then (n_fft / 2 < Z.of_nat L)%Z else (n_fft <= Z.of_nat L)%Z) ->
    TorchISTFT.n_fft decoder = TorchSTFT.n_fft encoder /\
    TorchISTFT.n_hop decoder = TorchSTFT.n_hop encoder /\
    TorchISTFT.center decoder = TorchSTFT.center encoder /\
    exists out,
      TorchSTFT.forward encoder x st' = (st', Ok out) /\
      size out = lead ++ [freq_bins n_fft; n_frames center n_fft n_hop L; 2%nat] /\
      contiguous out.
Proof.
  intros n_fft n_hop center st st' enc dec x lead L Hmake Hn Hh Hsize Hlead HL.
  destruct (hann_window_returns n_fft ltac:(lia)) as [h [Hh' Hhs]].
  rewrite (make_filterbanks_returns _ _ _ _ _ Hh') in Hmake.
  injection Hmake as <- <- <-.
  repeat (split; [ reflexivity | ]).
  destruct (stft_outcome_size h n_fft n_hop center x lead L
              Hsize Hlead Hn Hh Hhs HL) as [out [Hout Hrest]].
  exists out. split; [ | exact Hrest ].
  rewrite TorchSTFT_forward_outcome.
  cbn [TorchSTFT.window TorchSTFT.n_fft TorchSTFT.n_hop TorchSTFT.center].
  now rewrite nth_error_app_length, Hout.
Qed.

(** X12 at [n_fft = 4], [n_hop = 2], centred, on three samples. *)
Lemma make_filterbanks_encoder_accepts_witness :
  exists out,
    TorchSTFT.forward (TorchSTFT.mk 0%nat 4 2 true) ramp3 [hann4] = ([hann4], Ok out) /\
    size out = [1%nat; 1%nat; 3%nat; 2%nat; 2%nat] /\
    contiguous out.
Proof.
  destruct (make_filterbanks_encoder_accepts 4 2 true [] [hann4] _ _ ramp3
              [1%nat; 1%nat] 3%nat eq_refl ltac:(lia) ltac:(lia) eq_refl
              ltac:(simpl; lia) ltac:(reflexivity))
    as [_ [_ [_ H]]].
  exact H.
Defined.

End FrontEnd.

(** ** The decoder around [torch.istft] *)

Section Decoder.

Variable torch_istft :
  Tensor C -> Z -> Z -> Tensor R -> bool -> option Z -> result (Tensor R).

Lemma view_infer_tail {A : Type} (x : Tensor A) (lead ds : list nat) :
  size x = lead ++ ds -> numel ds <> 0%nat ->
  Torch.view_infer x ds = Ok (mkTensor (numel lead :: ds) (data x)).
Proof.
  intros Hsize Hds. unfold Torch.view_infer.
  rewrite Hsize, numel_app.
  destruct (Nat.eqb_spec (numel ds) 0); [ contradiction | ].
  rewrite Nat.Div0.mod_mul, Nat.div_mul by exact Hds. reflexivity.
Qed.

Lemma index_from_end_tail3 lead (d3 d2 d1 : nat) :
  index_from_end 3 (lead ++ [d3; d2; d1]) = Ok d3 /\
  index_from_end 2 (lead ++ [d3; d2; d1]) = Ok d2 /\
  index_from_end 1 (lead ++ [d3; d2; d1]) = Ok d1.
Proof.
  unfold index_from_end. rewrite rev_app_distr. simpl. repeat split.
Qed.

Lemma droplast_app {A : Type} (lead tail : list A) :
  droplast (length tail) (lead ++ tail) = lead.
Proof.
  unfold droplast. rewrite length_app.
  replace (length lead + length tail - length tail)%nat with (length lead + 0)%nat by lia.
  rewrite firstn_app_2. simpl. apply app_nil_r.
Qed.

Lemma pairs_view_as_real (l : list C) :
  Torch.pairs (flat_map (fun z => [fst z; snd z]) l) = l.
Proof.
  induction l as [ | [re im] l IH]; simpl; [ reflexivity | ]. now rewrite IH.
Qed.

Lemma TorchISTFT_forward_outcome (self : TorchISTFT.t) (X w : Tensor R)
    (length : option Z) (st : Store) (lead : list nat) (F T : nat) :
  size X = lead ++ [F; T; 2%nat] ->
  (0 < F)%nat -> (0 < T)%nat ->
  nth_error st (TorchISTFT.window self) = Some w ->
  TorchISTFT.forward torch_istft self X length st =
  (st,
   rbind (torch_istft (mkTensor [numel lead; F; T] (Torch.pairs (data X)))
            (TorchISTFT.n_fft self) (TorchISTFT.n_hop self) w
            (TorchISTFT.center self) length)
         (fun y => Torch.view y (lead ++ lastn 1 (size y)))).
Proof.
  intros Hsize HF HT Hw. unfold TorchISTFT.forward, bind, lift, read.
  cbv zeta. rewrite Hsize.
  destruct (index_from_end_tail3 lead F T 2) as [-> [-> ->]].
  rewrite (view_infer_tail X lead [F; T; 2%nat] Hsize) by (simpl; nia).
  unfold Torch.view_as_complex. cbn [size data rev app].
  rewrite Hw.
  destruct (torch_istft _ _ _ _ _ _) as [y | e]; cbn [rbind]; [ | reflexivity ].
  change (droplast 3 (lead ++ [F; T; 2%nat]))
    with (droplast (Datatypes.length [F; T; 2%nat]) (lead ++ [F; T; 2%nat])).
  rewrite (droplast_app lead [F; T; 2%nat]). reflexivity.
Qed.

(** X13: what the decoder adds to [torch.istft].  On a spectrogram of size
    [(lead..., F, T, 2)] with [F, T >= 1], the decoder calls [torch.istft]
    once, on the complex tensor of size [(N, F, T)] made of the (re, im)
    pairs of the input, [N] being the product of the leading sizes, with its
    own [n_fft], [n_hop], window and [center] and the given [length].  An
    exception of [torch.istft] is passed on; a result of size [(N, n)] is
    returned with the same entries under the size [(lead..., n)].  The store
    is left as it was. *)
Theorem TorchISTFT_forward_restores_leading_axes :
  forall (self : TorchISTFT.t) (X w : Tensor R) (length : option Z) (st : Store)
         (lead : list nat) (F T : nat),
    size X = lead ++ [F; T; 2%nat] ->
    (0 < F)%nat -> (0 < T)%nat ->
    nth_error st (TorchISTFT.window self) = Some w ->
    let y := torch_istft (mkTensor [numel lead; F; T] (Torch.pairs (data X)))
               (TorchISTFT.n_fft self) (TorchISTFT.n_hop self) w
               (TorchISTFT.center self) length in
    (forall e, y = Raise e ->
       TorchISTFT.forward torch_istft self X length st = (st, Raise e)) /\
    (forall t n, y = Ok t -> size t = [numel lead; n] ->
       TorchISTFT.forward torch_istft self X length st =
       (st, Ok (mkTensor (lead ++ [n]) (data t)))).
Proof.
  intros self X w len st lead F T Hsize HF HT Hw y.
  rewrite (TorchISTFT_forward_outcome self X w len st lead F T Hsize HF HT Hw).
  fold y. split.
  - intros e ->. reflexivity.
  - intros t n -> Ht. cbn [rbind]. unfold Torch.view. rewrite Ht.
    change (lastn 1 [numel lead; n]) with [n].
    rewrite numel_app. change (numel [numel lead; n]) with (numel lead * (n * 1))%nat.
    change (numel [n]) with (n * 1)%nat. rewrite Nat.eqb_refl. reflexivity.
Qed.

End Decoder.

(** X13 on a spectrogram of two signals, three bins and two frames, for a
    [torch.istft] that returns six zeros per signal. *)
Lemma TorchISTFT_forward_restores_leading_axes_witness :
  TorchISTFT.forward
    (fun X _ _ _ _ _ => Ok (mkTensor [hd 0%nat (size X); 6%nat] (repeat 0%R 12)))
    (TorchISTFT.mk 4 2 false 44100%R 0%nat)
    (mkTensor [1%nat; 2%nat; 3%nat; 2%nat; 2%nat] (repeat 1%R 24)) (Some 6%Z) [hann4] =
  ([hann4], Ok (mkTensor [1%nat; 2%nat; 6%nat] (repeat 0%R 12))).
Proof.
  apply (proj2 (TorchISTFT_forward_restores_leading_axes
                  (fun X _ _ _ _ _ => Ok (mkTensor [hd 0%nat (size X); 6%nat] (repeat 0%R 12)))
                  (TorchISTFT.mk 4 2 false 44100%R 0%nat)
                  (mkTensor [1%nat; 2%nat; 3%nat; 2%nat; 2%nat] (repeat 1%R 24)) hann4
                  (Some 6%Z) [hann4] [1%nat; 2%nat] 3%nat 2%nat
                  eq_refl ltac:(lia) ltac:(lia) eq_refl)
          (mkTensor [2%nat; 6%nat] (repeat 0%R 12)) 6%nat);
    reflexivity.
Defined.

(** ** The decoder on what the encoder returns *)

Section Codec.

Variable torch_istft :
  Tensor C -> Z -> Z -> Tensor R -> bool -> option Z -> result (Tensor R).

Lemma stft_outcome_explicit (w : Tensor R) (n_fft n_hop : Z) (center : bool)
    (x : Tensor R) (lead : list nat) (L : nat) :
  size x = lead ++ [L] ->
  (0 < numel lead)%nat ->
  stft_accepts n_fft n_hop center w L ->
  exists c,
    Torch.stft (mkTensor [numel lead; L] (data x)) n_fft n_hop w center = Ok c /\
    size c = [numel lead; freq_bins n_fft; n_frames center n_fft n_hop L] /\
    stft_outcome (Some w) n_fft n_hop center x =
    Ok (mkTensor (lead ++ [freq_bins n_fft; n_frames center n_fft n_hop L; 2%nat])
                 (data (Torch.view_as_real c))).
Proof.
  intros Hsize Hlead [Hn [Hh [Hw HL]]].
  assert (HL0 : L <> 0%nat).
  { pose proof (half_bounds n_fft). destruct center; lia. }
  destruct (stft_rows_returns (numel lead) L (data x) n_fft n_hop w center
              Hlead Hn Hh Hw HL) as [c [Hrows [Hc Hlen]]].
  exists c. unfold Torch.stft at 1. cbn [size data].
  split; [ exact Hrows | ]. split; [ exact Hc | ].
  unfold stft_outcome.
  rewrite Hsize, index_from_end_last. cbn [rbind].
  rewrite (view_infer_rows x lead L Hsize HL0). cbn [rbind].
  unfold Torch.stft. cbn [size data]. rewrite Hrows. cbn [rbind].
  rewrite droplast_1_app. unfold Torch.view.
  cbn [Torch.view_as_real size]. rewrite Hc.
  change (lastn 3 ([numel lead; freq_bins n_fft; n_frames center n_fft n_hop L] ++ [2%nat]))
    with [freq_bins n_fft; n_frames center n_fft n_hop L; 2%nat].
  replace (numel (lead ++ [freq_bins n_fft; n_frames center n_fft n_hop L; 2%nat]) =?
           numel ([numel lead; freq_bins n_fft; n_frames center n_fft n_hop L] ++ [2%nat]))%nat
    with true; [ reflexivity | ].
  symmetry. apply Nat.eqb_eq. rewrite !numel_app. simpl. lia.
Qed.

Lemma n_frames_pos (center : bool) n_fft n_hop L :
  (0 < n_fft)%Z -> (0 < n_hop)%Z ->
  (if center then (n_fft / 2 < Z.of_nat L)%Z else (n_fft <= Z.of_nat L)%Z) ->
  (0 < n_frames center n_fft n_hop L)%nat.
Proof.
  intros Hn Hh HL. unfold n_frames.
  pose proof (half_bounds n_fft) as Hhalf.
  assert (H : (0 <= (padded_length center n_fft L - n_fft) / n_hop)%Z).
  { apply Z.div_pos; [ | lia ]. unfold padded_length. destruct center; lia. }
  lia.
Qed.

(** X14: the decoder undoes the packing of the encoder.  When the encoder
    accepts a non-empty batch, the complex spectrogram [c] that
    [torch.stft] computed on the [N] packed signals is exactly the tensor
    the decoder hands to [torch.istft] when it is given the encoder's
    output: the steps in between ([view_as_real], the two [view]s, [reshape],
    [view_as_complex]) cancel out.  The decoder then returns the result of
    [torch.istft] on [c], under the leading size of the waveform. *)
Theorem decoder_receives_the_stft :
  forall (enc : TorchSTFT.t) (dec : TorchISTFT.t) (x w w' : Tensor R)
         (length : option Z) (st : Store) (lead : list nat) (L : nat),
    size x = lead ++ [L] ->
    (0 < numel lead)%nat ->
    nth_error st (TorchSTFT.window enc) = Some w ->
    nth_error st (TorchISTFT.window dec) = Some w' ->
    stft_accepts (TorchSTFT.n_fft enc) (TorchSTFT.n_hop enc)
      (TorchSTFT.center enc) w L ->
    exists c out,
      Torch.stft (mkTensor [numel lead; L] (data x))
        (TorchSTFT.n_fft enc) (TorchSTFT.n_hop enc) w (TorchSTFT.center enc) = Ok c /\
      TorchSTFT.forward enc x st = (st, Ok out) /\
      TorchISTFT.forward torch_istft dec out length st =
      (st,
       rbind (torch_istft c (TorchISTFT.n_fft dec) (TorchISTFT.n_hop dec) w'
                (TorchISTFT.center dec) length)
             (fun y => Torch.view y (lead ++ lastn 1 (size y)))).
Proof.
  intros enc dec x w w' len st lead L Hsize Hlead Hw Hw' Hacc.
  destruct (stft_outcome_explicit w _ _ _ x lead L Hsize Hlead Hacc)
    as [c [Hc [Hcs Hout]]].
  set (F := freq_bins (TorchSTFT.n_fft enc)) in *.
  set (T := n_frames (TorchSTFT.center enc) (TorchSTFT.n_fft enc)
              (TorchSTFT.n_hop enc) L) in *.
  exists c, (mkTensor (lead ++ [F; T; 2%nat]) (data (Torch.view_as_real c))).
  split; [ exact Hc | ].
  split; [ rewrite TorchSTFT_forward_outcome, Hw, Hout; reflexivity | ].
  assert (HT : (0 < T)%nat).
  { destruct Hacc as [Hn [Hh [_ HL]]]. now apply n_frames_pos. }
  assert (HF : (0 < F)%nat).
  { unfold F, freq_bins. destruct Hacc as [Hn _].
    pose proof (half_bounds (TorchSTFT.n_fft enc)). lia. }
  rewrite (TorchISTFT_forward_outcome torch_istft dec
             (mkTensor (lead ++ [F; T; 2%nat]) (data (Torch.view_as_real c)))
             w' len st lead F T eq_refl HF HT Hw').
  cbn [data Torch.view_as_real]. rewrite pairs_view_as_real.
  destruct c as [cs cd]. cbn [size data] in *. subst cs. reflexivity.
Qed.

End Codec.

(** X14 on three centred samples with [n_fft = 4], for a [torch.istft]
    that returns three zeros per signal. *)
Lemma decoder_receives_the_stft_witness :
  exists c out,
    Torch.stft (mkTensor [numel [1%nat; 1%nat]; 3%nat] (data ramp3)) 4 2 hann4 true = Ok c /\
    TorchSTFT.forward (TorchSTFT.mk 0%nat 4 2 true) ramp3 [hann4] = ([hann4], Ok out) /\
    TorchISTFT.forward
      (fun X _ _ _ _ _ => Ok (mkTensor [hd 0%nat (size X); 3%nat] (repeat 0%R 3)))
      (TorchISTFT.mk 4 2 true 44100%R 0%nat) out (Some 3%Z) [hann4] =
    ([hann4],
     rbind (Ok (mkTensor [hd 0%nat (size c); 3%nat] (repeat 0%R 3)))
           (fun y => Torch.view y ([1%nat; 1%nat] ++ lastn 1 (size y)))).
Proof.
  apply (decoder_receives_the_stft
           (fun X _ _ _ _ _ => Ok (mkTensor [hd 0%nat (size X); 3%nat] (repeat 0%R 3)))
           (TorchSTFT.mk 0%nat 4 2 true) (TorchISTFT.mk 4 2 true 44100%R 0%nat)
           ramp3 hann4 hann4 (Some 3%Z) [hann4] [1%nat; 1%nat] 3%nat);
    try reflexivity; try (simpl; lia).
  unfold stft_accepts. simpl. repeat split; try lia; try reflexivity.
Defined.

(** ** The downmix in the magnitude domain *)

Section Downmix.

Local Open Scope R_scope.

Lemma cabs_triangle a b c d :
  Torch.cabs (a + c, b + d) <= Torch.cabs (a, b) + Torch.cabs (c, d).
Proof.
  unfold Torch.cabs. cbn [fst snd].
  set (X := sqrt (a * a + b * b)). set (Y := sqrt (c * c + d * d)).
  assert (HX : 0 <= X) by apply sqrt_pos.
  assert (HY : 0 <= Y) by apply sqrt_pos.
  assert (HX2 : X * X = a * a + b * b) by (apply sqrt_sqrt; nra).
  assert (HY2 : Y * Y = c * c + d * d) by (apply sqrt_sqrt; nra).
  rewrite <- (sqrt_square (X + Y)) by lra.
  apply sqrt_le_1_alt.
  assert (Hcs : a * c + b * d <= X * Y).
  { destruct (Rle_lt_dec (a * c + b * d) (X * Y)) as [H | H]; [ exact H | exfalso ].
    assert (HXY : 0 <= X * Y) by (apply Rmult_le_pos; assumption).
    assert (H2 : (X * Y) * (X * Y) < (a * c + b * d) * (a * c + b * d)) by nra.
    assert (H3 : (X * Y) * (X * Y) = (a * a + b * b) * (c * c + d * d)).
    { rewrite <- HX2, <- HY2. ring. }
    pose proof (Rle_0_sqr (a * d - b * c)) as H4. unfold Rsqr in H4.
    nra. }
  nra.
Qed.

Lemma cabs_rsum_le {A : Type} (f g : A -> R) (l : list A) :
  Torch.cabs (Torch.rsum (map f l), Torch.rsum (map g l)) <=
  Torch.rsum (map (fun c => Torch.cabs (f c, g c)) l).
Proof.
  induction l as [ | c l IH]; simpl.
  - rewrite cabs_0. lra.
  - eapply Rle_trans; [ apply cabs_triangle | ]. lra.
Qed.

Lemma cabs_div x y n : 0 < n -> Torch.cabs (x / n, y / n) = Torch.cabs (x, y) / n.
Proof.
  intros Hn.
  replace (x / n, y / n) with (cscale (/ n) (x, y))
    by (unfold cscale, Rdiv; cbn [fst snd]; f_equal; ring).
  rewrite cabs_scale, Rabs_right by (left; now apply Rinv_0_lt_compat).
  unfold Rdiv. ring.
Qed.

(** X15: the downmix is taken after the magnitude, and never gives less
    than the magnitude of the downmix.  On a well-formed spectrogram with at
    least one channel, each entry of [ComplexNorm(mono=True)] is a real
    number, at least the magnitude of the complex mean over the channels at
    that bin (the mean of the real parts and the mean of the imaginary
    parts). *)
Theorem mono_downmix_dominates_complex_mean :
  forall (spec : Tensor R) (B Cn : nat) (rest : list nat),
    size spec = B :: Cn :: rest ++ [2%nat] ->
    contiguous spec ->
    (0 < Cn)%nat ->
    exists out,
      ComplexNorm.forward (ComplexNorm.mk true) spec = Ok out /\
      forall b i, (b < B)%nat -> (i < numel rest)%nat ->
        exists v,
          nth (b * numel rest + i) (data out) NaN = Num v /\
          Torch.cabs
            (Torch.rsum
               (map (fun c => nth (2 * ((b * Cn + c) * numel rest + i)) (data spec) 0)
                    (seq 0 Cn)) / INR Cn,
             Torch.rsum
               (map (fun c => nth (2 * ((b * Cn + c) * numel rest + i) + 1) (data spec) 0)
                    (seq 0 Cn)) / INR Cn)
          <= v.
Proof.
  intros spec B Cn rest Hsize Hcont HC.
  destruct (mono_entry spec B Cn rest Hsize Hcont) as [out [Hout [_ [_ Hentry]]]].
  exists out. split; [ exact Hout | ].
  intros b i Hb Hi. rewrite Hentry by assumption.
  rewrite <- (map_map (fun c => bin_magnitude spec ((b * Cn + c) * numel rest + i)) Num).
  rewrite mean_reals, length_map, length_seq.
  destruct Cn as [ | Cn']; [ lia | ]. set (Cn := S Cn') in *.
  eexists. split; [ reflexivity | ].
  assert (Hn : 0 < INR Cn) by (apply lt_0_INR; exact HC).
  rewrite cabs_div by exact Hn.
  apply Rmult_le_compat_r; [ left; now apply Rinv_0_lt_compat | ].
  apply (cabs_rsum_le
           (fun c => nth (2 * ((b * Cn + c) * numel rest + i)) (data spec) 0)
           (fun c => nth (2 * ((b * Cn + c) * numel rest + i) + 1) (data spec) 0)).
Qed.

(** X15 on [opposite_channels], where the complex mean vanishes. *)
Lemma mono_downmix_dominates_complex_mean_witness :
  exists out,
    ComplexNorm.forward (ComplexNorm.mk true) opposite_channels = Ok out /\
    exists v,
      nth 0 (data out) NaN = Num v /\
      Torch.cabs ((1 + (-1 + 0)) / INR 2, (0 + (0 + 0)) / INR 2) <= v.
Proof.
  destruct (mono_downmix_dominates_complex_mean opposite_channels 1 2
              [1%nat; 1%nat] eq_refl eq_refl ltac:(lia)) as [out [Hout H]].
  exists out. split; [ exact Hout | ].
  apply (H 0%nat 0%nat); simpl; lia.
Defined.

End Downmix.

(** ** Superposition *)

Section Superposition.

Local Open Scope R_scope.

Lemma zip_with_nil_r {A : Type} (op : A -> A -> A) l : zip_with op l [] = [].
Proof. unfold zip_with. now rewrite combine_nil. Qed.

Lemma zip_with_cons {A : Type} (op : A -> A -> A) a b l1 l2 :
  zip_with op (a :: l1) (b :: l2) = op a b :: zip_with op l1 l2.
Proof. reflexivity. Qed.

Lemma length_zip_with {A : Type} (op : A -> A -> A) l1 l2 :
  length l1 = length l2 -> length (zip_with op l1 l2) = length l1.
Proof.
  intros H. unfold zip_with. rewrite length_map, length_combine, H.
  apply Nat.min_id.
Qed.

Lemma firstn_zip_with {A : Type} (op : A -> A -> A) n :
  forall l1 l2,
    firstn n (zip_with op l1 l2) = zip_with op (firstn n l1) (firstn n l2).
Proof.
  induction n as [ | n IH]; intros [ | a l1] [ | b l2]; try reflexivity.
  cbn [firstn]. rewrite !zip_with_cons. cbn [firstn]. now rewrite IH.
Qed.

Lemma skipn_zip_with {A : Type} (op : A -> A -> A) n :
  forall l1 l2,
    skipn n (zip_with op l1 l2) = zip_with op (skipn n l1) (skipn n l2).
Proof.
  induction n as [ | n IH]; intros [ | a l1] [ | b l2]; try reflexivity.
  - cbn [skipn]. now rewrite !zip_with_nil_r.
  - cbn [skipn]. rewrite zip_with_cons. cbn [skipn]. apply IH.
Qed.

Lemma tl_zip_with {A : Type} (op : A -> A -> A) l1 l2 :
  tl (zip_with op l1 l2) = zip_with op (tl l1) (tl l2).
Proof.
  destruct l1 as [ | a l1], l2 as [ | b l2]; try reflexivity.
  simpl. now rewrite zip_with_nil_r.
Qed.

Lemma zip_with_app {A : Type} (op : A -> A -> A) l1 l2 m1 m2 :
  length l1 = length m1 ->
  zip_with op (l1 ++ l2) (m1 ++ m2) = zip_with op l1 m1 ++ zip_with op l2 m2.
Proof.
  revert m1. induction l1 as [ | a l1 IH]; intros [ | b m1] H;
    simpl in H; try discriminate; [ reflexivity | ].
  cbn [app]. rewrite !zip_with_cons. cbn [app]. f_equal. apply IH. lia.
Qed.

Lemma rev_zip_with {A : Type} (op : A -> A -> A) l1 :
  forall l2, length l1 = length l2 ->
    rev (zip_with op l1 l2) = zip_with op (rev l1) (rev l2).
Proof.
  induction l1 as [ | a l1 IH]; intros [ | b l2] H; simpl in H;
    try discriminate; [ reflexivity | ].
  rewrite zip_with_cons. cbn [rev].
  rewrite zip_with_app by (rewrite !length_rev; lia).
  rewrite IH by lia. reflexivity.
Qed.

Lemma nth_zip_add l1 :
  forall l2 k, length l1 = length l2 ->
    nth k (zip_with Rplus l1 l2) 0 = nth k l1 0 + nth k l2 0.
Proof.
  induction l1 as [ | a l1 IH]; intros [ | b l2] k H; simpl in H; try discriminate.
  - destruct k; simpl; ring.
  - destruct k as [ | k]; [ reflexivity | ]. simpl. apply IH. lia.
Qed.

Lemma map_zip_with {A B : Type} (op : B -> B -> B) (f g : A -> B) (l : list A) :
  map (fun a => op (f a) (g a)) l = zip_with op (map f l) (map g l).
Proof.
  induction l as [ | a l IH]; [ reflexivity | ].
  cbn [map]. rewrite zip_with_cons. now rewrite IH.
Qed.

Lemma flat_map_zip_with {A B : Type} (op : B -> B -> B) (f g : A -> list B)
    (l : list A) :
  (forall a, length (f a) = length (g a)) ->
  flat_map (fun a => zip_with op (f a) (g a)) l =
  zip_with op (flat_map f l) (flat_map g l).
Proof.
  intros Hlen. induction l as [ | a l IH]; [ reflexivity | ].
  simpl. rewrite zip_with_app by apply Hlen. now rewrite IH.
Qed.

Lemma rsum_add {A : Type} (f g : A -> R) (l : list A) :
  Torch.rsum (map (fun k => f k + g k) l) =
  Torch.rsum (map f l) + Torch.rsum (map g l).
Proof.
  induction l as [ | k l IH]; simpl; [ ring | ]. rewrite IH. ring.
Qed.

Lemma length_row_of L xs ys b :
  length xs = length ys ->
  length (Torch.row_of L xs b) = length (Torch.row_of L ys b).
Proof.
  intros H. unfold Torch.row_of. now rewrite !length_firstn, !length_skipn, H.
Qed.

Lemma row_of_add L xs ys b :
  Torch.row_of L (zip_with Rplus xs ys) b =
  zip_with Rplus (Torch.row_of L xs b) (Torch.row_of L ys b).
Proof. unfold Torch.row_of. now rewrite skipn_zip_with, firstn_zip_with. Qed.

Lemma frame_add n hop r1 r2 t :
  Torch.frame n hop (zip_with Rplus r1 r2) t =
  zip_with Rplus (Torch.frame n hop r1 t) (Torch.frame n hop r2 t).
Proof. unfold Torch.frame. now rewrite skipn_zip_with, firstn_zip_with. Qed.

Lemma length_frame n hop r1 r2 t :
  length r1 = length r2 ->
  length (Torch.frame n hop r1 t) = length (Torch.frame n hop r2 t).
Proof.
  intros H. unfold Torch.frame. now rewrite !length_firstn, !length_skipn, H.
Qed.

Lemma reflect_pad_add p r1 r2 :
  length r1 = length r2 ->
  Torch.reflect_pad p (zip_with Rplus r1 r2) =
  zip_with Rplus (Torch.reflect_pad p r1) (Torch.reflect_pad p r2).
Proof.
  intros H. unfold Torch.reflect_pad.
  assert (Htl : length (tl r1) = length (tl r2))
    by (destruct r1, r2; simpl in *; lia).
  rewrite !zip_with_app.
  - rewrite tl_zip_with, firstn_zip_with, rev_zip_with
      by (rewrite !length_firstn; lia).
    rewrite rev_zip_with by exact H.
    now rewrite tl_zip_with, firstn_zip_with.
  - exact H.
  - rewrite !length_rev, !length_firstn. lia.
Qed.

Lemma length_reflect_pad p r1 r2 :
  length r1 = length r2 ->
  length (Torch.reflect_pad p r1) = length (Torch.reflect_pad p r2).
Proof.
  intros H. unfold Torch.reflect_pad.
  assert (Htl : length (tl r1) = length (tl r2))
    by (destruct r1, r2; simpl in *; lia).
  assert (Htr : length (tl (rev r1)) = length (tl (rev r2))).
  { assert (Hr : length (rev r1) = length (rev r2)) by (rewrite !length_rev; exact H).
    destruct (rev r1), (rev r2); simpl in *; lia. }
  rewrite !length_app, !length_rev, !length_firstn. lia.
Qed.

Lemma windowed_add w :
  forall xs ys,
    Torch.windowed w (zip_with Rplus xs ys) =
    zip_with Rplus (Torch.windowed w xs) (Torch.windowed w ys).
Proof.
  unfold Torch.windowed.
  induction w as [ | v w IH]; intros xs ys.
  - rewrite !combine_nil. reflexivity.
  - destruct xs as [ | x xs], ys as [ | y ys]; try reflexivity.
    rewrite zip_with_cons. cbn [combine map fst snd].
    rewrite zip_with_cons, IH. f_equal. cbn [fst snd]. ring.
Qed.

Lemma length_windowed w xs ys :
  length xs = length ys ->
  length (Torch.windowed w xs) = length (Torch.windowed w ys).
Proof.
  intros H. unfold Torch.windowed. now rewrite !length_map, !length_combine, H.
Qed.

Lemma rfft_bin_add n xs ys f :
  length xs = length ys ->
  Torch.rfft_bin n (zip_with Rplus xs ys) f =
  cadd (Torch.rfft_bin n xs f) (Torch.rfft_bin n ys f).
Proof.
  intros H. unfold Torch.rfft_bin, cadd. cbn [fst snd]. f_equal.
  - rewrite <- rsum_add. f_equal. apply map_ext. intros k.
    rewrite nth_zip_add by exact H. ring.
  - rewrite <- Ropp_plus_distr. f_equal.
    rewrite <- rsum_add. f_equal. apply map_ext. intros k.
    rewrite nth_zip_add by exact H. ring.
Qed.

Lemma spectrogram_block_length n hop bins nf w row :
  length (flat_map (fun f =>
            map (fun t => Torch.rfft_bin n (Torch.windowed w (Torch.frame n hop row t)) f)
                (seq 0 nf)) (seq 0 bins)) = (bins * nf)%nat.
Proof.
  rewrite (length_flat_map_const _ nf).
  - now rewrite length_seq.
  - intros f _. now rewrite length_map, length_seq.
Qed.

Lemma spectrogram_add n hop bins nf w (r1 r2 : nat -> list R) (l : list nat) :
  (forall b, length (r1 b) = length (r2 b)) ->
  Torch.spectrogram n hop bins nf w (map (fun b => zip_with Rplus (r1 b) (r2 b)) l) =
  zip_with cadd (Torch.spectrogram n hop bins nf w (map r1 l))
                (Torch.spectrogram n hop bins nf w (map r2 l)).
Proof.
  intros Hlen. unfold Torch.spectrogram. rewrite !flat_map_map.
  rewrite <- flat_map_zip_with
    by (intros b; now rewrite !spectrogram_block_length).
  apply flat_map_ext. intros b.
  rewrite <- flat_map_zip_with by (intros f; now rewrite !length_map).
  apply flat_map_ext. intros f.
  rewrite <- map_zip_with. apply map_ext. intros t.
  rewrite frame_add, windowed_add.
  apply rfft_bin_add, length_windowed, length_frame, Hlen.
Qed.

Lemma stft_rows_add N L xs ys n_fft n_hop w center :
  length xs = length ys ->
  Torch.stft_rows N L (zip_with Rplus xs ys) n_fft n_hop w center =
  rbind (Torch.stft_rows N L xs n_fft n_hop w center) (fun c1 =>
  rbind (Torch.stft_rows N L ys n_fft n_hop w center) (fun c2 =>
    Ok (mkTensor (size c1) (zip_with cadd (data c1) (data c2))))).
Proof.
  intros Hlen. unfold Torch.stft_rows.
  destruct (n_fft <=? 0)%Z; [ reflexivity | ].
  destruct center.
  - destruct ((N =? 0)%nat || (L <=? Z.to_nat (n_fft / 2))%nat);
      cbn [rbind fst snd]; [ reflexivity | ].
    destruct (_ <? _)%nat; [ reflexivity | ].
    destruct (n_hop <=? 0)%Z; [ reflexivity | ].
    destruct (size w) as [ | wl [ | ? ? ] ]; try reflexivity.
    destruct (wl =? Z.to_nat n_fft)%nat; [ | reflexivity ].
    cbn [rbind size data]. do 2 f_equal.
    rewrite <- (spectrogram_add _ _ _ _ _
                  (fun b => Torch.reflect_pad (Z.to_nat (n_fft / 2)) (Torch.row_of L xs b))
                  (fun b => Torch.reflect_pad (Z.to_nat (n_fft / 2)) (Torch.row_of L ys b)))
      by (intros b; apply length_reflect_pad, length_row_of, Hlen).
    f_equal. apply map_ext. intros b.
    rewrite row_of_add. apply reflect_pad_add, length_row_of, Hlen.
  - cbn [rbind fst snd].
    destruct (_ <? _)%nat; [ reflexivity | ].
    destruct (n_hop <=? 0)%Z; [ reflexivity | ].
    destruct (size w) as [ | wl [ | ? ? ] ]; try reflexivity.
    destruct (wl =? Z.to_nat n_fft)%nat; [ | reflexivity ].
    cbn [rbind size data]. do 2 f_equal.
    rewrite <- (spectrogram_add _ _ _ _ _ (Torch.row_of L xs) (Torch.row_of L ys))
      by (intros b; apply length_row_of, Hlen).
    f_equal. apply map_ext. intros b. apply row_of_add.
Qed.

Lemma stft_add x y n_fft n_hop w center :
  size y = size x ->
  length (data x) = length (data y) ->
  Torch.stft (add x y) n_fft n_hop w center =
  rbind (Torch.stft x n_fft n_hop w center) (fun c1 =>
  rbind (Torch.stft y n_fft n_hop w center) (fun c2 =>
    Ok (mkTensor (size c1) (zip_with cadd (data c1) (data c2))))).
Proof.
  intros Hsize Hlen. unfold Torch.stft, add. cbn [size data]. rewrite Hsize.
  destruct (size x) as [ | L [ | N [ | ? ? ] ] ]; try reflexivity.
  - rewrite stft_rows_add by exact Hlen. unfold rmap.
    destruct (Torch.stft_rows 1 L (data x) _ _ _ _) as [c1 | e];
      cbn [rbind]; [ | reflexivity ].
    destruct (Torch.stft_rows 1 L (data y) _ _ _ _) as [c2 | e];
      cbn [rbind]; reflexivity.
  - apply stft_rows_add, Hlen.
Qed.

Lemma view_as_real_add (l1 : list C) :
  forall l2,
    flat_map (fun z => [fst z; snd z]) (zip_with cadd l1 l2) =
    zip_with Rplus (flat_map (fun z => [fst z; snd z]) l1)
                   (flat_map (fun z => [fst z; snd z]) l2).
Proof.
  induction l1 as [ | z1 l1 IH]; intros [ | z2 l2]; try reflexivity.
  rewrite zip_with_cons. cbn [flat_map app].
  rewrite !zip_with_cons, IH. reflexivity.
Qed.

Lemma stft_outcome_add wopt n_fft n_hop center x y ox oy :
  size y = size x ->
  length (data x) = length (data y) ->
  stft_outcome wopt n_fft n_hop center x = Ok ox ->
  stft_outcome wopt n_fft n_hop center y = Ok oy ->
  stft_outcome wopt n_fft n_hop center (add x y) = Ok (add ox oy).
Proof.
  intros Hsize Hlen. unfold stft_outcome. cbn [add size]. rewrite Hsize.
  destruct (index_from_end 1 (size x)) as [d | e]; cbn [rbind]; [ | discriminate ].
  unfold Torch.view_infer. cbn [size data]. rewrite Hsize.
  destruct (numel [d] =? 0)%nat; cbn [rbind]; [ discriminate | ].
  destruct (_ mod _ =? 0)%nat; cbn [rbind]; [ | discriminate ].
  destruct wopt as [w | ]; cbn [rbind]; [ | discriminate ].
  set (s2 := [(numel (size x) / numel [d])%nat; d]).
  change (mkTensor [(numel (size (add x y)) / numel [d])%nat; d] (data (add x y)))
    with (add (mkTensor s2 (data x)) (mkTensor s2 (data y))).
  rewrite stft_add by (try reflexivity; exact Hlen).
  destruct (Torch.stft (mkTensor s2 (data x)) _ _ _ _) as [c1 | e];
    cbn [rbind]; [ | discriminate ].
  destruct (Torch.stft (mkTensor s2 (data y)) _ _ _ _) as [c2 | e];
    cbn [rbind]; [ | discriminate ].
  unfold Torch.view. cbn [Torch.view_as_real size data].
  destruct (_ =? _)%nat; [ | discriminate ].
  intros [= <-]. destruct (_ =? _)%nat; [ | discriminate ].
  intros [= <-]. unfold add. cbn [size data].
  now rewrite view_as_real_add.
Qed.

(** X16: superposition.  When the encoder returns on two waveforms of the
    same size, it returns on their sum the sum of the two spectrograms,
    entry by entry: the spectrogram of a mixture is the sum of the
    spectrograms of its sources. *)
Theorem TorchSTFT_forward_add :
  forall (self : TorchSTFT.t) (x y ox oy : Tensor R) (st : Store),
    size y = size x ->
    length (data x) = length (data y) ->
    TorchSTFT.forward self x st = (st, Ok ox) ->
    TorchSTFT.forward self y st = (st, Ok oy) ->
    TorchSTFT.forward self (add x y) st = (st, Ok (add ox oy)).
Proof.
  intros self x y ox oy st Hsize Hlen.
  rewrite !TorchSTFT_forward_outcome. intros [= Hx] [= Hy].
  now rewrite (stft_outcome_add _ _ _ _ x y ox oy Hsize Hlen Hx Hy).
Qed.

(** X16 on [ramp6] added to itself. *)
Lemma TorchSTFT_forward_add_witness :
  exists ox,
    TorchSTFT.forward (TorchSTFT.mk 0%nat 4 2 false) ramp6 store44 = (store44, Ok ox) /\
    TorchSTFT.forward (TorchSTFT.mk 0%nat 4 2 false) (add ramp6 ramp6) store44 =
    (store44, Ok (add ox ox)).
Proof.
  destruct (stft_outcome_size window4 4 2 false ramp6 [1%nat; 1%nat] 6%nat)
    as [ox [Hox _]]; try reflexivity; try (simpl; lia).
  assert (Hf : TorchSTFT.forward (TorchSTFT.mk 0%nat 4 2 false) ramp6 store44 =
               (store44, Ok ox)).
  { rewrite TorchSTFT_forward_outcome. simpl. now rewrite <- Hox. }
  exists ox. split; [ exact Hf | ].
  apply (TorchSTFT_forward_add (TorchSTFT.mk 0%nat 4 2 false) ramp6 ramp6 ox ox store44);
    [ reflexivity | reflexivity | exact Hf | exact Hf ].
Defined.

End Superposition.

(** * Properties of [trainer.py] *)

(** ** Gradient accumulation *)

Lemma count_app {A : Type} (p : A -> bool) (l1 l2 : list A) :
  count p (l1 ++ l2) = (count p l1 + count p l2)%nat.
Proof. unfold count. now rewrite filter_app, length_app. Qed.

Lemma count_cons {A : Type} (p : A -> bool) (a : A) (l : list A) :
  count p (a :: l) = ((if p a then 1 else 0) + count p l)%nat.
Proof. unfold count. simpl. now destruct (p a). Qed.

Lemma count_nil {A : Type} (p : A -> bool) : count p [] = 0%nat.
Proof. reflexivity. Qed.

Lemma div_step (a s : Z) :
  (0 < a)%Z ->
  (s / a = (s - 1) / a + (if (s mod a =? 0)%Z then 1 else 0))%Z.
Proof.
  intros Ha.
  pose proof (Z.div_mod s a ltac:(lia)) as Hs.
  pose proof (Z.mod_pos_bound s a Ha) as Hr.
  destruct (Z.eqb_spec (s mod a) 0) as [H0 | H0].
  - symmetry. apply Z.add_move_r. symmetry.
    apply (Z.div_unique (s - 1) a (s / a - 1) (a - 1)); lia.
  - rewrite Z.add_0_r.
    apply (Z.div_unique (s - 1) a (s / a) (s mod a - 1)); lia.
Qed.

Lemma updates_0 a s : updates a s 0 = 0%nat.
Proof. unfold updates. replace (s + Z.of_nat 0 - 1)%Z with (s - 1)%Z by lia. lia. Qed.

Lemma updates_S a s n :
  (0 < a)%Z ->
  updates a s (S n) =
  ((if (s mod a =? 0)%Z then 1 else 0) + updates a (s + 1) n)%nat.
Proof.
  intros Ha. unfold updates.
  replace (s + 1 + Z.of_nat n - 1)%Z with (s + Z.of_nat (S n) - 1)%Z by lia.
  replace (s + 1 - 1)%Z with s by lia.
  pose proof (div_step a s Ha) as Hstep.
  assert (Hmono : (s / a <= (s + Z.of_nat (S n) - 1) / a)%Z)
    by (apply Z.div_le_mono; lia).
  destruct (s mod a =? 0)%Z; lia.
Qed.

Lemma updates_from_1 a n : updates a 1 n = Z.to_nat (Z.of_nat n / a).
Proof.
  unfold updates. replace (1 + Z.of_nat n - 1)%Z with (Z.of_nat n) by lia.
  replace (1 - 1)%Z with 0%Z by lia. rewrite Zdiv_0_l. f_equal. lia.
Qed.

Ltac count_calls :=
  repeat (rewrite ?count_app, ?count_cons, ?count_nil); cbn [is_train_step
    is_backward is_unscale is_clip is_scaler_step is_zero_grad is_scheduler_step
    is_log_train is_model_train is_model_eval is_save is_save_best].

Lemma train_steps_counts (self : Trainer.t) :
  (0 < Trainer.accum_grad_step self)%Z ->
  forall n s,
    let calls := fst (Trainer.train_steps self s n) in
    let u := updates (Trainer.accum_grad_step self) s n in
    snd (Trainer.train_steps self s n) = None /\
    count is_train_step calls = n /\
    count is_backward calls = n /\
    count is_unscale calls = u /\
    count is_scaler_step calls = u /\
    count is_zero_grad calls = u /\
    count is_scheduler_step calls = u /\
    count is_clip calls =
      match Trainer.clip_grad_norm self with Some _ => u | None => 0%nat end /\
    count is_log_train calls = (if Trainer.has_logger self then n else 0%nat).
Proof.
  intros Ha. induction n as [ | n IH]; intros s calls u.
  - subst calls u. rewrite updates_0. simpl.
    destruct (Trainer.clip_grad_norm self), (Trainer.has_logger self);
      repeat split; reflexivity.
  - subst calls u. rewrite (updates_S _ _ _ Ha). cbn [Trainer.train_steps].
    destruct (Z.eqb_spec (Trainer.accum_grad_step self) 0) as [H0 | _]; [ lia | ].
    specialize (IH (s + 1)%Z). cbv zeta in IH.
    destruct (Trainer.train_steps self (s + 1) n) as [rest err].
    cbn [fst snd] in *.
    destruct IH as [-> [I1 [I2 [I3 [I4 [I5 [I6 [I7 I8]]]]]]]].
    split; [ reflexivity | ].
    unfold Trainer.log.
    destruct (s mod Trainer.accum_grad_step self =? 0)%Z,
             (Trainer.clip_grad_norm self), (Trainer.has_logger self);
      count_calls; repeat split; lia.
Qed.

Lemma train_steps_update_points (self : Trainer.t) (p : Trainer.call -> bool) :
  (0 < Trainer.accum_grad_step self)%Z ->
  p = is_unscale \/ p = is_scaler_step \/ p = is_zero_grad \/ p = is_scheduler_step ->
  forall n seen,
    backward_before p seen (fst (Trainer.train_steps self (Z.of_nat (S seen)) n)) =
    update_steps (Trainer.accum_grad_step self) (S seen) n.
Proof.
  intros Ha Hp. induction n as [ | n IH]; intros seen; [ reflexivity | ].
  cbn [Trainer.train_steps].
  destruct (Z.eqb_spec (Trainer.accum_grad_step self) 0) as [H0 | _]; [ lia | ].
  specialize (IH (S seen)).
  replace (Z.of_nat (S seen) + 1)%Z with (Z.of_nat (S (S seen))) by lia.
  destruct (Trainer.train_steps self (Z.of_nat (S (S seen))) n) as [rest err].
  cbn [fst] in *. unfold update_steps in *. cbn [seq filter].
  unfold Trainer.log.
  destruct (Z.of_nat (S seen) mod Trainer.accum_grad_step self =? 0)%Z,
           (Trainer.clip_grad_norm self), (Trainer.has_logger self);
    destruct Hp as [-> | [-> | [-> | ->]]];
    cbn [app backward_before is_backward is_unscale is_scaler_step is_zero_grad
         is_scheduler_step];
    rewrite IH; reflexivity.
Qed.

Lemma train_steps_clip_points (self : Trainer.t) :
  (0 < Trainer.accum_grad_step self)%Z ->
  forall n seen,
    backward_before is_clip seen
      (fst (Trainer.train_steps self (Z.of_nat (S seen)) n)) =
    match Trainer.clip_grad_norm self with
    | Some _ => update_steps (Trainer.accum_grad_step self) (S seen) n
    | None => []
    end.
Proof.
  intros Ha. induction n as [ | n IH]; intros seen.
  - now destruct (Trainer.clip_grad_norm self).
  - cbn [Trainer.train_steps].
    destruct (Z.eqb_spec (Trainer.accum_grad_step self) 0) as [H0 | _]; [ lia | ].
    specialize (IH (S seen)).
    replace (Z.of_nat (S seen) + 1)%Z with (Z.of_nat (S (S seen))) by lia.
    destruct (Trainer.train_steps self (Z.of_nat (S (S seen))) n) as [rest err].
    cbn [fst] in *. unfold update_steps in *. cbn [seq filter].
    unfold Trainer.log.
    destruct (Z.of_nat (S seen) mod Trainer.accum_grad_step self =? 0)%Z,
             (Trainer.clip_grad_norm self), (Trainer.has_logger self);
      cbn [app backward_before is_backward is_clip];
      rewrite IH; reflexivity.
Qed.

Lemma mod_step (a s : Z) :
  (0 < a)%Z -> (s mod a <> 0)%Z -> (s mod a = (s - 1) mod a + 1)%Z.
Proof.
  intros Ha Hs.
  pose proof (div_step a s Ha) as Hd.
  destruct (Z.eqb_spec (s mod a) 0) as [H0 | _]; [ contradiction | ].
  pose proof (Z.div_mod s a ltac:(lia)) as H1.
  pose proof (Z.div_mod (s - 1) a ltac:(lia)) as H2.
  rewrite Z.add_0_r in Hd. rewrite Hd in H1. lia.
Qed.

Lemma train_steps_pending (self : Trainer.t) :
  (0 < Trainer.accum_grad_step self)%Z ->
  forall n seen acc,
    Z.of_nat acc = (Z.of_nat seen mod Trainer.accum_grad_step self)%Z ->
    Z.of_nat (pending_backward acc
                (fst (Trainer.train_steps self (Z.of_nat (S seen)) n))) =
    ((Z.of_nat seen + Z.of_nat n) mod Trainer.accum_grad_step self)%Z.
Proof.
  intros Ha. induction n as [ | n IH]; intros seen acc Hacc.
  - cbn [Trainer.train_steps fst pending_backward fold_left].
    now rewrite Z.add_0_r.
  - cbn [Trainer.train_steps].
    destruct (Z.eqb_spec (Trainer.accum_grad_step self) 0) as [H0 | _]; [ lia | ].
    replace (Z.of_nat (S seen) + 1)%Z with (Z.of_nat (S (S seen))) by lia.
    replace (Z.of_nat seen + Z.of_nat (S n))%Z
      with (Z.of_nat (S seen) + Z.of_nat n)%Z by lia.
    pose proof (fun acc' => IH (S seen) acc') as IH'.
    destruct (Trainer.train_steps self (Z.of_nat (S (S seen))) n) as [rest err].
    cbn [fst] in *. unfold Trainer.log, pending_backward in *.
    destruct (Z.eqb_spec (Z.of_nat (S seen) mod Trainer.accum_grad_step self) 0)
      as [Hm | Hm].
    + destruct (Trainer.clip_grad_norm self), (Trainer.has_logger self);
        cbn [app fold_left is_backward is_scaler_step];
        apply IH'; now rewrite Hm.
    + pose proof (mod_step _ _ Ha Hm) as Hstep.
      replace (Z.of_nat (S seen) - 1)%Z with (Z.of_nat seen) in Hstep by lia.
      destruct (Trainer.has_logger self);
        cbn [app fold_left is_backward is_scaler_step];
        apply IH'; lia.
Qed.

(** X17: gradient accumulation in one epoch.  With [accum_grad_step > 0]
    and [n] batches, [train_one_epoch] returns after [n] training steps and
    [n] backward passes, and steps the optimizer (through the scaler), clears
    the gradients and steps the scheduler [n // accum_grad_step] times each;
    the gradients are clipped at each of these updates exactly when
    [clip_grad_norm] is not [None], and a record is logged per batch exactly
    when there is a logger.  The updates come in order after the backward
    passes number [accum_grad_step], [2 * accum_grad_step], ...: each of the
    calls of an update is made when the number of backward passes made so
    far is the next multiple of [accum_grad_step].  So the last
    [n % accum_grad_step] backward passes of an epoch are followed by no
    optimizer step in that epoch. *)
Theorem train_one_epoch_updates :
  forall self : Trainer.t,
    (0 < Trainer.accum_grad_step self)%Z ->
    let n := Trainer.train_num self in
    let a := Trainer.accum_grad_step self in
    let u := Z.to_nat (Z.of_nat n / a) in
    let calls := fst (Trainer.train_one_epoch self) in
    snd (Trainer.train_one_epoch self) = None /\
    count is_train_step calls = n /\
    count is_backward calls = n /\
    count is_unscale calls = u /\
    count is_scaler_step calls = u /\
    count is_zero_grad calls = u /\
    count is_scheduler_step calls = u /\
    count is_clip calls =
      match Trainer.clip_grad_norm self with Some _ => u | None => 0%nat end /\
    count is_log_train calls = (if Trainer.has_logger self then n else 0%nat) /\
    backward_before is_unscale 0 calls = update_steps a 1 n /\
    backward_before is_scaler_step 0 calls = update_steps a 1 n /\
    backward_before is_zero_grad 0 calls = update_steps a 1 n /\
    backward_before is_scheduler_step 0 calls = update_steps a 1 n /\
    backward_before is_clip 0 calls =
      match Trainer.clip_grad_norm self with
      | Some _ => update_steps a 1 n
      | None => []
      end /\
    Z.of_nat (pending_backward 0 calls) = (Z.of_nat n mod a)%Z.
Proof.
  intros self Ha n a u calls.
  pose proof (train_steps_counts self Ha n 1) as H. cbv zeta in H.
  rewrite updates_from_1 in H. fold a u in H.
  pose proof (fun p Hp => train_steps_update_points self p Ha Hp n 0) as Hpts.
  pose proof (train_steps_clip_points self Ha n 0) as Hclip.
  pose proof (train_steps_pending self Ha n 0 0 ltac:(now rewrite Zmod_0_l)) as Hpend.
  change (Z.of_nat 1) with 1%Z in Hpts, Hclip, Hpend.
  subst calls. unfold Trainer.train_one_epoch. fold n.
  destruct (Trainer.train_steps self 1 n) as [steps err]. cbn [fst snd] in *.
  destruct H as [-> [H1 [H2 [H3 [H4 [H5 [H6 [H7 H8]]]]]]]].
  split; [ reflexivity | ].
  count_calls. cbn [Nat.add].
  repeat (split; [ assumption | ]).
  cbn [backward_before is_backward is_unscale is_scaler_step is_zero_grad
       is_scheduler_step is_clip].
  split; [ apply Hpts; auto | ].
  split; [ apply Hpts; auto | ].
  split; [ apply Hpts; auto | ].
  split; [ apply Hpts; auto | ].
  split; [ exact Hclip | ].
  unfold pending_backward in *. cbn [fold_left is_backward is_scaler_step].
  rewrite Hpend. f_equal.
Qed.

(** X17 with seven batches, an update every three batches, clipping and a
    logger: seven backward passes, two updates, made after the third and
    after the sixth backward pass; the seventh is followed by none. *)
Lemma train_one_epoch_updates_witness :
  snd (Trainer.train_one_epoch trainer7) = None /\
  count is_backward (fst (Trainer.train_one_epoch trainer7)) = 7%nat /\
  count is_scaler_step (fst (Trainer.train_one_epoch trainer7)) = 2%nat /\
  count is_clip (fst (Trainer.train_one_epoch trainer7)) = 2%nat /\
  backward_before is_scaler_step 0 (fst (Trainer.train_one_epoch trainer7)) =
    [3%nat; 6%nat] /\
  Z.of_nat (pending_backward 0 (fst (Trainer.train_one_epoch trainer7))) = 1%Z.
Proof.
  destruct (train_one_epoch_updates trainer7 ltac:(simpl; lia))
    as [H0 [_ [H2 [_ [H4 [_ [_ [H7 [_ [_ [H10 [_ [_ [_ H14]]]]]]]]]]]]]].
  split; [ exact H0 | ]. split; [ exact H2 | ]. split; [ exact H4 | ].
  split; [ exact H7 | ]. split; [ exact H10 | exact H14 ].
Defined.

(** X18: an accumulation step of 0.  With [accum_grad_step = 0] and at
    least one batch, [train_one_epoch] raises a [ZeroDivisionError] in its
    first iteration, after the first training step and backward pass and
    before any update or log record. *)
Theorem train_one_epoch_zero_accum :
  forall self : Trainer.t,
    Trainer.accum_grad_step self = 0%Z ->
    (0 < Trainer.train_num self)%nat ->
    Trainer.train_one_epoch self =
    ([Trainer.ModelTrain; Trainer.TrainStep 1; Trainer.Backward 1],
     Some Trainer.ZeroDivisionError).
Proof.
  intros self Ha Hn. unfold Trainer.train_one_epoch.
  destruct (Trainer.train_num self) as [ | n]; [ lia | ].
  cbn [Trainer.train_steps]. rewrite Ha. reflexivity.
Qed.

(** X18 with two batches. *)
Lemma train_one_epoch_zero_accum_witness :
  Trainer.train_one_epoch (Trainer.__init__ 2 true 0 None false None) =
  ([Trainer.ModelTrain; Trainer.TrainStep 1; Trainer.Backward 1],
   Some Trainer.ZeroDivisionError).
Proof.
  apply (train_one_epoch_zero_accum (Trainer.__init__ 2 true 0 None false None));
    [ reflexivity | simpl; lia ].
Defined.

(** ** The best loss *)

Section BestLoss.

Local Open Scope R_scope.

Lemma float_ltb_irrefl v : Trainer.float_ltb v v = false.
Proof.
  destruct v as [x | | | ]; simpl; try reflexivity.
  destruct (Rlt_dec x x); [ lra | reflexivity ].
Qed.

Lemma float_ltb_trans a b c :
  Trainer.float_ltb a b = true -> Trainer.float_ltb b c = true ->
  Trainer.float_ltb a c = true.
Proof.
  destruct a as [x | | | ], b as [y | | | ], c as [z | | | ]; simpl;
    try discriminate; try reflexivity.
  destruct (Rlt_dec x y), (Rlt_dec y z), (Rlt_dec x z);
    try discriminate; try reflexivity; lra.
Qed.

Lemma float_ltb_not_below x v b :
  Trainer.float_ltb v b = true -> Trainer.float_ltb x b = false ->
  Trainer.float_ltb x v = false.
Proof.
  destruct x as [x | | | ], v as [y | | | ], b as [z | | | ]; simpl;
    try discriminate; try reflexivity.
  destruct (Rlt_dec y z), (Rlt_dec x z), (Rlt_dec x y);
    try discriminate; try reflexivity; lra.
Qed.

Lemma track_keeps_not_below x vs :
  forall b, Trainer.float_ltb x b = false -> Trainer.float_ltb x (track b vs) = false.
Proof.
  induction vs as [ | v vs IH]; intros b H; [ exact H | ].
  unfold track in *. cbn [fold_left]. apply IH.
  destruct (Trainer.float_ltb v b) eqn:E; [ | exact H ].
  eapply float_ltb_not_below; eassumption.
Qed.

Lemma track_not_below vs :
  forall b x, In x vs -> Trainer.float_ltb x (track b vs) = false.
Proof.
  induction vs as [ | v vs IH]; intros b x Hin; [ contradiction | ].
  destruct Hin as [<- | Hin].
  - change (track b (v :: vs))
      with (track (if Trainer.float_ltb v b then v else b) vs).
    apply track_keeps_not_below.
    destruct (Trainer.float_ltb v b) eqn:E; [ apply float_ltb_irrefl | exact E ].
  - change (track b (v :: vs))
      with (track (if Trainer.float_ltb v b then v else b) vs).
    now apply IH.
Qed.

Lemma track_origin vs :
  forall b, track b vs = b \/ (In (track b vs) vs /\ Trainer.float_ltb (track b vs) b = true).
Proof.
  induction vs as [ | v vs IH]; intros b; [ now left | ].
  change (track b (v :: vs))
    with (track (if Trainer.float_ltb v b then v else b) vs).
  destruct (Trainer.float_ltb v b) eqn:E.
  - right. destruct (IH v) as [-> | [Hin Hlt]].
    + split; [ now left | exact E ].
    + split; [ now right | eapply float_ltb_trans; eassumption ].
  - destruct (IH b) as [-> | [Hin Hlt]]; [ now left | right ].
    split; [ now right | exact Hlt ].
Qed.

Lemma track_app b vs ws : track b (vs ++ ws) = track (track b vs) ws.
Proof. unfold track. apply fold_left_app. Qed.

End BestLoss.

(** ** Epochs *)

Section Fit.

Variable round4 : R -> R.
Variable losses : nat -> list float.

Lemma train_steps_counts_other (self : Trainer.t) :
  (0 < Trainer.accum_grad_step self)%Z ->
  forall n s,
    let calls := fst (Trainer.train_steps self s n) in
    count is_model_train calls = 0%nat /\
    count is_model_eval calls = 0%nat /\
    count is_save calls = 0%nat /\
    count is_save_best calls = 0%nat.
Proof.
  intros Ha. induction n as [ | n IH]; intros s calls.
  - subst calls. repeat split.
  - subst calls. cbn [Trainer.train_steps].
    destruct (Z.eqb_spec (Trainer.accum_grad_step self) 0) as [H0 | _]; [ lia | ].
    specialize (IH (s + 1)%Z). cbv zeta in IH.
    destruct (Trainer.train_steps self (s + 1) n) as [rest err].
    cbn [fst snd] in *. destruct IH as [I1 [I2 [I3 I4]]].
    unfold Trainer.log.
    destruct (s mod Trainer.accum_grad_step self =? 0)%Z,
             (Trainer.clip_grad_norm self), (Trainer.has_logger self);
      count_calls; repeat split; lia.
Qed.

Lemma count_valid_steps (p : Trainer.call -> bool) (ls : list float) :
  p Trainer.ValidStep = false ->
  count p (map (fun _ => Trainer.ValidStep) ls) = 0%nat.
Proof.
  intros H. induction ls as [ | l ls IH]; [ reflexivity | ].
  cbn [map]. rewrite count_cons, H, IH. reflexivity.
Qed.

Lemma set_best_loss_same self : Trainer.set_best_loss self (Trainer.best_loss self) = self.
Proof. now destruct self. Qed.

(** One validation with a checkpoint directory. *)
Lemma valid_one_epoch_returns (self : Trainer.t) (ls : list float) (dir : String.string) :
  Trainer.checkpoint_dir self = Some dir ->
  let v := Trainer.round_loss round4 (Trainer.mean_loss ls) in
  exists calls,
    Trainer.valid_one_epoch round4 self ls =
    (Trainer.set_best_loss self (track (Trainer.best_loss self) [v]), calls, None) /\
    count is_model_train calls = 0%nat /\
    count is_model_eval calls = 1%nat /\
    count is_backward calls = 0%nat /\
    count is_scaler_step calls = 0%nat /\
    count is_save_best calls =
      (if Trainer.float_ltb v (Trainer.best_loss self) then 1 else 0)%nat /\
    count is_save calls = (1 + count is_save_best calls)%nat.
Proof.
  intros Hdir v. unfold Trainer.valid_one_epoch. rewrite Hdir. fold v.
  unfold track. cbn [fold_left]. unfold Trainer.log.
  destruct (Trainer.float_ltb v (Trainer.best_loss self)) eqn:E;
    [ | rewrite set_best_loss_same ];
    (eexists; split; [ reflexivity | ]);
    destruct (Trainer.has_logger self);
    count_calls; rewrite ?count_valid_steps by reflexivity;
    repeat split; reflexivity.
Qed.

Lemma same_config_refl self : same_config self self.
Proof. repeat split. Qed.

Lemma same_config_trans a b c : same_config a b -> same_config b c -> same_config a c.
Proof.
  unfold same_config.
  intros [A1 [A2 [A3 [A4 [A5 A6]]]]] [B1 [B2 [B3 [B4 [B5 B6]]]]].
  repeat split; congruence.
Qed.

Lemma train_one_epoch_counts (self : Trainer.t) :
  (0 < Trainer.accum_grad_step self)%Z ->
  exists calls,
    Trainer.train_one_epoch self = (calls, None) /\
    count is_model_train calls = 1%nat /\
    count is_model_eval calls = 0%nat /\
    count is_backward calls = Trainer.train_num self /\
    count is_scaler_step calls =
      Z.to_nat (Z.of_nat (Trainer.train_num self) / Trainer.accum_grad_step self) /\
    count is_save calls = 0%nat /\
    count is_save_best calls = 0%nat.
Proof.
  intros Ha. unfold Trainer.train_one_epoch.
  pose proof (train_steps_counts self Ha (Trainer.train_num self) 1) as H.
  pose proof (train_steps_counts_other self Ha (Trainer.train_num self) 1) as H'.
  cbv zeta in H, H'. rewrite updates_from_1 in H.
  destruct (Trainer.train_steps self 1 (Trainer.train_num self)) as [steps err].
  cbn [fst snd] in *.
  destruct H as [-> [_ [H2 [_ [H4 _]]]]]. destruct H' as [O1 [O2 [O3 O4]]].
  eexists. split; [ reflexivity | ]. count_calls.
  repeat split; lia.
Qed.

(** The loop of [fit] with a checkpoint directory and a positive
    accumulation step. *)
Lemma epochs_from_returns (dir : String.string) :
  forall n self ep k,
    Trainer.checkpoint_dir self = Some dir ->
    (0 < Trainer.accum_grad_step self)%Z ->
    exists self' calls,
      Trainer.epochs_from round4 losses self ep k n = (self', calls, None) /\
      same_config self self' /\
      Trainer.cur_ep self' =
        match n with O => Trainer.cur_ep self | S _ => (ep + Z.of_nat n - 1)%Z end /\
      Trainer.best_loss self' =
        track (Trainer.best_loss self) (map (valid_record round4 losses) (seq k n)) /\
      count is_model_train calls = n /\
      count is_model_eval calls = n /\
      count is_backward calls = (n * Trainer.train_num self)%nat /\
      count is_scaler_step calls =
        (n * Z.to_nat (Z.of_nat (Trainer.train_num self) / Trainer.accum_grad_step self))%nat /\
      count is_save calls = (n + count is_save_best calls)%nat /\
      count is_save_best calls =
        improvements (Trainer.best_loss self)
          (map (valid_record round4 losses) (seq k n)).
Proof.
  induction n as [ | n IH]; intros self ep k Hdir Ha.
  - exists self, []. cbn [Trainer.epochs_from seq map].
    split; [ reflexivity | ]. split; [ apply same_config_refl | ].
    repeat split; try reflexivity; try (rewrite count_nil; lia).
  - cbn [Trainer.epochs_from].
    set (self1 := Trainer.set_cur_ep self ep).
    assert (Hc1 : same_config self self1) by (destruct self; repeat split).
    assert (Hdir1 : Trainer.checkpoint_dir self1 = Some dir) by exact Hdir.
    assert (Ha1 : (0 < Trainer.accum_grad_step self1)%Z) by exact Ha.
    destruct (train_one_epoch_counts self1 Ha1)
      as [trained [-> [T1 [T2 [T3 [T4 [T5 T6]]]]]]].
    destruct (valid_one_epoch_returns self1 (losses k) dir Hdir1)
      as [validated [-> [V1 [V2 [V3 [V4 [V5 V6]]]]]]].
    set (self2 := Trainer.set_best_loss self1
                    (track (Trainer.best_loss self1)
                       [Trainer.round_loss round4 (Trainer.mean_loss (losses k))])) in *.
    assert (Hc2 : same_config self1 self2) by (destruct self; repeat split).
    destruct (IH self2 (ep + 1)%Z (S k) Hdir1 Ha1)
      as [self' [rest [-> [Hc [Hep [Hbest [R1 [R2 [R3 [R4 [R5 R6]]]]]]]]]]].
    exists self', (trained ++ validated ++ rest).
    split; [ reflexivity | ].
    split; [ exact (same_config_trans _ _ _ Hc1 (same_config_trans _ _ _ Hc2 Hc)) | ].
    split.
    { rewrite Hep. destruct n; [ cbn; lia | lia ]. }
    split.
    { rewrite Hbest. cbn [seq map]. reflexivity. }
    assert (Himp : (count is_save_best validated + count is_save_best rest)%nat =
                   improvements (Trainer.best_loss self)
                     (map (valid_record round4 losses) (seq k (S n)))).
    { rewrite V5, R6. cbn [seq map improvements]. unfold valid_record at 2 3.
      subst self2. unfold track. cbn [fold_left Trainer.best_loss Trainer.set_best_loss].
      change (Trainer.best_loss self1) with (Trainer.best_loss self).
      destruct (Trainer.float_ltb _ (Trainer.best_loss self)); reflexivity. }
    change (Trainer.train_num self2) with (Trainer.train_num self) in *.
    change (Trainer.accum_grad_step self2) with (Trainer.accum_grad_step self) in *.
    change (Trainer.train_num self1) with (Trainer.train_num self) in *.
    change (Trainer.accum_grad_step self1) with (Trainer.accum_grad_step self) in *.
    rewrite !count_app.
    repeat split; lia.
Qed.

Lemma fit_returns (self : Trainer.t) (epochs : Z) (dir : String.string) :
  Trainer.checkpoint_dir self = Some dir ->
  (0 < Trainer.accum_grad_step self)%Z ->
  let n := Z.to_nat epochs in
  let m := (n + (if Trainer.disable_valid_on_start self then 0 else 1))%nat in
  exists self' calls,
    Trainer.fit round4 losses self epochs = (self', calls, None) /\
    same_config self self' /\
    Trainer.cur_ep self' = (if (1 <=? epochs)%Z then epochs else Trainer.cur_ep self) /\
    Trainer.best_loss self' =
      track (Trainer.best_loss self) (map (valid_record round4 losses) (seq 0 m)) /\
    count is_model_train calls = n /\
    count is_model_eval calls = m /\
    count is_backward calls = (n * Trainer.train_num self)%nat /\
    count is_scaler_step calls =
      (n * Z.to_nat (Z.of_nat (Trainer.train_num self) / Trainer.accum_grad_step self))%nat /\
    count is_save calls = (m + count is_save_best calls)%nat /\
    count is_save_best calls =
      improvements (Trainer.best_loss self)
        (map (valid_record round4 losses) (seq 0 m)).
Proof.
  intros Hdir Ha n m. subst m n. unfold Trainer.fit.
  set (n := Z.to_nat epochs).
  set (m := (n + (if Trainer.disable_valid_on_start self then 0 else 1))%nat).
  assert (Hep : forall c : Z,
             match n with O => c | S _ => (1 + Z.of_nat n - 1)%Z end =
             (if (1 <=? epochs)%Z then epochs else c)).
  { intros c. subst n. destruct (Z.leb_spec 1 epochs).
    - destruct (Z.to_nat epochs) eqn:E; lia.
    - replace (Z.to_nat epochs) with 0%nat by lia. reflexivity. }
  destruct (Trainer.disable_valid_on_start self) eqn:Hd.
  - destruct (epochs_from_returns dir n self 1 0%nat Hdir Ha)
      as [self' [rest [-> [Hc [Hcur [Hbest [R1 [R2 [R3 [R4 [R5 R6]]]]]]]]]]].
    exists self', ([Trainer.EncoderTo; Trainer.ModelTo] ++ rest).
    split; [ reflexivity | ]. split; [ exact Hc | ].
    split; [ now rewrite Hcur, Hep | ].
    subst m. rewrite Nat.add_0_r. split; [ exact Hbest | ].
    count_calls. repeat split; lia.
  - destruct (valid_one_epoch_returns self (losses 0%nat) dir Hdir)
      as [validated [-> [V1 [V2 [V3 [V4 [V5 V6]]]]]]].
    set (self1 := Trainer.set_best_loss self
                    (track (Trainer.best_loss self)
                       [Trainer.round_loss round4 (Trainer.mean_loss (losses 0%nat))])) in *.
    assert (Hc1 : same_config self self1) by (destruct self; repeat split).
    destruct (epochs_from_returns dir n self1 1 1%nat Hdir Ha)
      as [self' [rest [-> [Hc [Hcur [Hbest [R1 [R2 [R3 [R4 [R5 R6]]]]]]]]]]].
    exists self', ([Trainer.EncoderTo; Trainer.ModelTo] ++ validated ++ rest).
    split; [ reflexivity | ].
    split; [ exact (same_config_trans _ _ _ Hc1 Hc) | ].
    split; [ rewrite Hcur, Hep; reflexivity | ].
    split.
    { rewrite Hbest. subst m. rewrite Nat.add_1_r. cbn [seq map]. reflexivity. }
    assert (Himp : (count is_save_best validated + count is_save_best rest)%nat =
                   improvements (Trainer.best_loss self)
                     (map (valid_record round4 losses) (seq 0 (S n)))).
    { rewrite V5, R6. cbn [seq map improvements]. unfold valid_record at 2 3.
      subst self1. unfold track. cbn [fold_left Trainer.best_loss Trainer.set_best_loss].
      destruct (Trainer.float_ltb _ (Trainer.best_loss self)); reflexivity. }
    change (Trainer.train_num self1) with (Trainer.train_num self) in *.
    change (Trainer.accum_grad_step self1) with (Trainer.accum_grad_step self) in *.
    subst m. rewrite Nat.add_1_r. count_calls. repeat split; lia.
Qed.

(** X19: what [fit] runs.  With a checkpoint directory and
    [accum_grad_step > 0], [fit(epochs)] returns after [max(epochs, 0)]
    training epochs and as many validations, plus one validation at the
    start unless [disable_valid_on_start]; it leaves [cur_ep] at [epochs] when
    [epochs >= 1] and untouched otherwise, changes no other attribute than
    [cur_ep] and [best_loss], makes [train_num] backward passes and
    [train_num // accum_grad_step] optimizer steps per epoch, and saves one
    checkpoint per validation besides the best ones. *)
Theorem fit_runs_epochs :
  forall (self : Trainer.t) (epochs : Z) (dir : String.string),
    Trainer.checkpoint_dir self = Some dir ->
    (0 < Trainer.accum_grad_step self)%Z ->
    let n := Z.to_nat epochs in
    let m := (n + (if Trainer.disable_valid_on_start self then 0 else 1))%nat in
    exists self' calls,
      Trainer.fit round4 losses self epochs = (self', calls, None) /\
      same_config self self' /\
      Trainer.cur_ep self' =
        (if (1 <=? epochs)%Z then epochs else Trainer.cur_ep self) /\
      count is_model_train calls = n /\
      count is_model_eval calls = m /\
      count is_backward calls = (n * Trainer.train_num self)%nat /\
      count is_scaler_step calls =
        (n * Z.to_nat (Z.of_nat (Trainer.train_num self)
                       / Trainer.accum_grad_step self))%nat /\
      count is_save calls = (m + count is_save_best calls)%nat.
Proof.
  intros self epochs dir Hdir Ha n m.
  destruct (fit_returns self epochs dir Hdir Ha)
    as [self' [calls [Hfit [Hc [Hcur [_ [R1 [R2 [R3 [R4 [R5 _]]]]]]]]]]].
  exists self', calls.
  split; [ exact Hfit | ]. split; [ exact Hc | ]. split; [ exact Hcur | ].
  split; [ exact R1 | ]. split; [ exact R2 | ]. split; [ exact R3 | ].
  split; [ exact R4 | exact R5 ].
Qed.

(** X20: the best loss is the running minimum.  With a checkpoint
    directory and [accum_grad_step > 0], after [fit] no validation loss
    recorded during the call is below [best_loss]; [best_loss] is either
    what it was before the call or one of the recorded losses, strictly
    below what it was; and the best checkpoint is written once for each
    validation whose loss is strictly below the best loss so far, and at no
    other time. *)
Theorem fit_best_loss_is_running_minimum :
  forall (self : Trainer.t) (epochs : Z) (dir : String.string),
    Trainer.checkpoint_dir self = Some dir ->
    (0 < Trainer.accum_grad_step self)%Z ->
    let m := (Z.to_nat epochs
              + (if Trainer.disable_valid_on_start self then 0 else 1))%nat in
    exists self' calls,
      Trainer.fit round4 losses self epochs = (self', calls, None) /\
      (forall k, (k < m)%nat ->
         Trainer.float_ltb (valid_record round4 losses k) (Trainer.best_loss self') = false) /\
      (Trainer.best_loss self' = Trainer.best_loss self \/
       (exists k, (k < m)%nat /\
          Trainer.best_loss self' = valid_record round4 losses k) /\
       Trainer.float_ltb (Trainer.best_loss self') (Trainer.best_loss self) = true) /\
      count is_save_best calls =
        improvements (Trainer.best_loss self)
          (map (valid_record round4 losses) (seq 0 m)).
Proof.
  intros self epochs dir Hdir Ha m.
  destruct (fit_returns self epochs dir Hdir Ha)
    as [self' [calls [Hfit [_ [_ [Hbest [_ [_ [_ [_ [_ R6]]]]]]]]]]].
  fold m in Hbest, R6.
  exists self', calls. split; [ exact Hfit | ].
  split; [ | split; [ | exact R6 ] ].
  - intros k Hk. rewrite Hbest. apply track_not_below.
    apply in_map, in_seq. lia.
  - rewrite Hbest.
    destruct (track_origin (map (valid_record round4 losses) (seq 0 m))
                (Trainer.best_loss self)) as [H | [Hin Hlt]]; [ now left | right ].
    split; [ | exact Hlt ].
    apply in_map_iff in Hin. destruct Hin as [k [Hk Hin]].
    apply in_seq in Hin. exists k. split; [ lia | now rewrite Hk ].
Qed.

(** X21: without a checkpoint directory.  With [checkpoint_dir = None],
    [fit] raises a [TypeError] at its first validation, when the path of the
    checkpoint is built: at once, before any training step, when the
    validation at the start is enabled; otherwise (for [epochs >= 1] and
    [accum_grad_step > 0]) after the whole first training epoch.  Nothing is
    saved and [best_loss] is unchanged. *)
Theorem fit_without_checkpoint_dir :
  forall (self : Trainer.t) (epochs : Z),
    Trainer.checkpoint_dir self = None ->
    (Trainer.disable_valid_on_start self = false ->
     Trainer.fit round4 losses self epochs =
     (self,
      [Trainer.EncoderTo; Trainer.ModelTo]
      ++ (Trainer.ModelEval :: map (fun _ => Trainer.ValidStep) (losses 0%nat))
      ++ Trainer.log self
           (Trainer.LogValid (Trainer.cur_ep self)
              (valid_record round4 losses 0%nat) (Trainer.best_loss self)),
      Some Trainer.TypeError)) /\
    (Trainer.disable_valid_on_start self = true ->
     (1 <= epochs)%Z -> (0 < Trainer.accum_grad_step self)%Z ->
     exists calls,
       Trainer.fit round4 losses self epochs =
       (Trainer.set_cur_ep self 1, calls, Some Trainer.TypeError) /\
       count is_backward calls = Trainer.train_num self /\
       count is_save calls = 0%nat).
Proof.
  intros self epochs Hdir. split.
  - intros Hd. unfold Trainer.fit, Trainer.valid_one_epoch.
    rewrite Hd, Hdir. reflexivity.
  - intros Hd He Ha. unfold Trainer.fit. rewrite Hd.
    destruct (Z.to_nat epochs) as [ | n] eqn:E; [ lia | ].
    cbn [Trainer.epochs_from].
    destruct (train_one_epoch_counts (Trainer.set_cur_ep self 1) Ha)
      as [trained [-> [T1 [T2 [T3 [T4 [T5 T6]]]]]]].
    unfold Trainer.valid_one_epoch.
    change (Trainer.checkpoint_dir (Trainer.set_cur_ep self 1))
      with (Trainer.checkpoint_dir self).
    rewrite Hdir. eexists. split; [ reflexivity | ].
    unfold Trainer.log.
    change (Trainer.train_num (Trainer.set_cur_ep self 1))
      with (Trainer.train_num self) in T3.
    destruct (Trainer.has_logger (Trainer.set_cur_ep self 1));
      count_calls; rewrite ?count_valid_steps by reflexivity; split; lia.
Qed.

Lemma track_all_nan b vs :
  Forall (fun v => v = NaN) vs ->
  track b vs = b /\ improvements b vs = 0%nat.
Proof.
  induction 1 as [ | v vs -> _ IH]; [ split; reflexivity | ].
  unfold track in *. cbn [fold_left improvements Trainer.float_ltb]. exact IH.
Qed.

(** X22: an empty validation set.  With a checkpoint directory and
    [accum_grad_step > 0], when no validation step is ever run (the
    validation loader is empty) the mean loss is [nan] at every validation:
    [fit] still returns and still saves one checkpoint per validation, but it
    never improves [best_loss] and never writes the best checkpoint. *)
Theorem fit_with_empty_validation :
  forall (self : Trainer.t) (epochs : Z) (dir : String.string),
    Trainer.checkpoint_dir self = Some dir ->
    (0 < Trainer.accum_grad_step self)%Z ->
    (forall k, losses k = []) ->
    exists self' calls,
      Trainer.fit round4 losses self epochs = (self', calls, None) /\
      Trainer.best_loss self' = Trainer.best_loss self /\
      count is_save_best calls = 0%nat /\
      count is_save calls =
        (Z.to_nat epochs + (if Trainer.disable_valid_on_start self then 0 else 1))%nat.
Proof.
  intros self epochs dir Hdir Ha Hempty.
  destruct (fit_returns self epochs dir Hdir Ha)
    as [self' [calls [Hfit [_ [_ [Hbest [_ [_ [_ [_ [R5 R6]]]]]]]]]]].
  set (m := (Z.to_nat epochs
             + (if Trainer.disable_valid_on_start self then 0 else 1))%nat) in *.
  destruct (track_all_nan (Trainer.best_loss self)
              (map (valid_record round4 losses) (seq 0 m))) as [Ht Hi].
  { apply Forall_forall. intros v Hv. apply in_map_iff in Hv.
    destruct Hv as [k [<- _]]. unfold valid_record. now rewrite Hempty. }
  exists self', calls. split; [ exact Hfit | ].
  split; [ now rewrite Hbest, Ht | ].
  split; [ now rewrite R6, Hi | ].
  rewrite R5, R6, Hi. lia.
Qed.





Lemma fsum_nan (l : list float) : In NaN l -> Torch.fsum l = NaN.
Proof.
  induction l as [ | v l IH]; intros Hin; [ contradiction | ].
  cbn [Torch.fsum fold_right]. fold (Torch.fsum l).
  destruct Hin as [-> | Hin]; [ reflexivity | ].
  rewrite (IH Hin). now destruct v.
Qed.

Lemma mean_nan (l : list float) : In NaN l -> Torch.mean l = NaN.
Proof.
  intros Hin. unfold Torch.mean. rewrite (fsum_nan l Hin).
  now destruct (length l).
Qed.

(** X25: a validation with a [nan] loss.  With a checkpoint directory,
    when one of the steps of a validation returns [nan] as its loss, the
    mean loss is [nan]: the validation writes the checkpoint of the epoch,
    does not write the best checkpoint and leaves [best_loss] as it was,
    whatever [best_loss] is. *)
Theorem valid_one_epoch_with_nan_loss :
  forall (self : Trainer.t) (ls : list float) (dir : String.string),
    Trainer.checkpoint_dir self = Some dir ->
    In NaN ls ->
    exists calls,
      Trainer.valid_one_epoch round4 self ls = (self, calls, None) /\
      Trainer.mean_loss ls = NaN /\
      count is_save_best calls = 0%nat /\
      count is_save calls = 1%nat.
Proof.
  intros self ls dir Hdir Hin.
  destruct (valid_one_epoch_returns self ls dir Hdir)
    as [calls [Hv [_ [_ [_ [_ [Hb Hs]]]]]]].
  assert (Hmean : Trainer.mean_loss ls = NaN) by (now apply mean_nan).
  rewrite Hmean in Hv, Hb. cbn [Trainer.round_loss Trainer.float_ltb] in Hv, Hb.
  unfold track in Hv. cbn [fold_left Trainer.float_ltb] in Hv.
  rewrite set_best_loss_same in Hv.
  exists calls. split; [ exact Hv | ]. split; [ exact Hmean | ].
  split; [ exact Hb | ]. rewrite Hs, Hb. reflexivity.
Qed.

End Fit.

(** X19 on [trainer7_dir] for two epochs: two training epochs, three
    validations, fourteen backward passes, four optimizer steps. *)
Lemma fit_runs_epochs_witness :
  exists self' calls,
    Trainer.fit (fun r => r) falling_losses trainer7_dir 2 = (self', calls, None) /\
    Trainer.cur_ep self' = 2%Z /\
    count is_model_train calls = 2%nat /\
    count is_model_eval calls = 3%nat /\
    count is_backward calls = 14%nat /\
    count is_scaler_step calls = 4%nat.
Proof.
  destruct (fit_runs_epochs (fun r => r) falling_losses trainer7_dir 2
              String.EmptyString eq_refl ltac:(simpl; lia))
    as [self' [calls [Hfit [_ [Hcur [H1 [H2 [H3 [H4 _]]]]]]]]].
  exists self', calls.
  split; [ exact Hfit | ]. split; [ exact Hcur | ]. split; [ exact H1 | ].
  split; [ exact H2 | ]. split; [ exact H3 | exact H4 ].
Defined.

(** X20 on [trainer7_dir] for two epochs. *)
Lemma fit_best_loss_is_running_minimum_witness :
  exists self' calls,
    Trainer.fit (fun r => r) falling_losses trainer7_dir 2 = (self', calls, None) /\
    (forall k, (k < 3)%nat ->
       Trainer.float_ltb (valid_record (fun r => r) falling_losses k)
         (Trainer.best_loss self') = false) /\
    count is_save_best calls =
      improvements Inf (map (valid_record (fun r => r) falling_losses) (seq 0 3)).
Proof.
  destruct (fit_best_loss_is_running_minimum (fun r => r) falling_losses trainer7_dir 2
              String.EmptyString eq_refl ltac:(simpl; lia))
    as [self' [calls [Hfit [Hmin [_ Hsave]]]]].
  exists self', calls.
  split; [ exact Hfit | ]. split; [ exact Hmin | exact Hsave ].
Defined.

(** X21 on [trainer7_late] for two epochs: the error comes after the seven
    backward passes of the first epoch. *)
Lemma fit_without_checkpoint_dir_witness :
  exists calls,
    Trainer.fit (fun r => r) falling_losses trainer7_late 2 =
    (Trainer.set_cur_ep trainer7_late 1, calls, Some Trainer.TypeError) /\
    count is_backward calls = 7%nat /\
    count is_save calls = 0%nat.
Proof.
  apply (proj2 (fit_without_checkpoint_dir (fun r => r) falling_losses
                  trainer7_late 2 eq_refl));
    [ reflexivity | lia | simpl; lia ].
Defined.

(** X22 on [trainer7_dir] for two epochs without any validation batch. *)
Lemma fit_with_empty_validation_witness :
  exists self' calls,
    Trainer.fit (fun r => r) (fun _ => []) trainer7_dir 2 = (self', calls, None) /\
    Trainer.best_loss self' = Inf /\
    count is_save_best calls = 0%nat /\
    count is_save calls = 3%nat.
Proof.
  apply (fit_with_empty_validation (fun r => r) (fun _ => []) trainer7_dir 2
           String.EmptyString eq_refl);
    [ simpl; lia | reflexivity ].
Defined.

(** X25 on [trainer7_dir], for a validation of two steps whose second loss
    is [nan]. *)
Lemma valid_one_epoch_with_nan_loss_witness :
  exists calls,
    Trainer.valid_one_epoch (fun r => r) trainer7_dir [Num 1; NaN] =
    (trainer7_dir, calls, None) /\
    Trainer.mean_loss [Num 1; NaN] = NaN /\
    count is_save_best calls = 0%nat /\
    count is_save calls = 1%nat.
Proof.
  apply (valid_one_epoch_with_nan_loss (fun r => r) trainer7_dir [Num 1; NaN]
           String.EmptyString eq_refl).
  right. left. reflexivity.
Defined.


(** * Sizes only depend on sizes *)

Section SizeOnly.

Lemma stft_rows_size_only N L xs ys n_fft n_hop w center :
  rmap size (Torch.stft_rows N L xs n_fft n_hop w center) =
  rmap size (Torch.stft_rows N L ys n_fft n_hop w center).
Proof.
  unfold Torch.stft_rows.
  destruct (n_fft <=? 0)%Z; [ reflexivity | ].
  destruct center.
  - destruct ((N =? 0)%nat || (L <=? Z.to_nat (n_fft / 2))%nat);
      cbn [rbind fst snd]; [ reflexivity | ].
    destruct (_ <? _)%nat; [ reflexivity | ].
    destruct (n_hop <=? 0)%Z; [ reflexivity | ].
    destruct (size w) as [ | wl [ | ? ? ] ]; try reflexivity.
    destruct (wl =? Z.to_nat n_fft)%nat; reflexivity.
  - cbn [rbind fst snd].
    destruct (_ <? _)%nat; [ reflexivity | ].
    destruct (n_hop <=? 0)%Z; [ reflexivity | ].
    destruct (size w) as [ | wl [ | ? ? ] ]; try reflexivity.
    destruct (wl =? Z.to_nat n_fft)%nat; reflexivity.
Qed.

Lemma rmap_size_eq {A : Type} (r1 r2 : result (Tensor A)) :
  rmap size r1 = rmap size r2 ->
  match r1, r2 with
  | Ok a, Ok b => size a = size b
  | Raise e1, Raise e2 => e1 = e2
  | _, _ => False
  end.
Proof.
  destruct r1, r2; simpl; intros H; try discriminate; now injection H.
Qed.

Lemma stft_size_only x y n_fft n_hop w center :
  size x = size y ->
  rmap size (Torch.stft x n_fft n_hop w center) =
  rmap size (Torch.stft y n_fft n_hop w center).
Proof.
  intros H. unfold Torch.stft. rewrite H.
  destruct (size y) as [ | L [ | N [ | ? ? ] ] ]; try reflexivity.
  - pose proof (rmap_size_eq _ _
                  (stft_rows_size_only 1 L (data x) (data y) n_fft n_hop w center)) as Hr.
    destruct (Torch.stft_rows 1 L (data x) _ _ _ _),
             (Torch.stft_rows 1 L (data y) _ _ _ _); simpl in *;
      try contradiction; congruence.
  - apply stft_rows_size_only.
Qed.

Lemma stft_outcome_size_only wopt n_fft n_hop center x y :
  size x = size y ->
  rmap size (stft_outcome wopt n_fft n_hop center x) =
  rmap size (stft_outcome wopt n_fft n_hop center y).
Proof.
  intros H. unfold stft_outcome. rewrite H.
  destruct (index_from_end 1 (size y)) as [d | e]; cbn [rbind]; [ | reflexivity ].
  unfold Torch.view_infer. rewrite H.
  destruct (numel [d] =? 0)%nat; cbn [rbind]; [ reflexivity | ].
  destruct (_ mod _ =? 0)%nat; cbn [rbind]; [ | reflexivity ].
  destruct wopt as [w | ]; cbn [rbind]; [ | reflexivity ].
  pose proof (rmap_size_eq _ _
                (stft_size_only
                   (mkTensor [(numel (size y) / numel [d])%nat; d] (data x))
                   (mkTensor [(numel (size y) / numel [d])%nat; d] (data y))
                   n_fft n_hop w center eq_refl)) as Hr.
  destruct (Torch.stft (mkTensor _ (data x)) _ _ _ _) as [c1 | e1],
           (Torch.stft (mkTensor _ (data y)) _ _ _ _) as [c2 | e2];
    cbn [rbind]; try contradiction; [ | congruence ].
  unfold Torch.view. cbn [Torch.view_as_real size]. rewrite Hr.
  destruct (_ =? _)%nat; reflexivity.
Qed.

Lemma complex_norm_size_only self a b :
  size a = size b ->
  rmap size (ComplexNorm.forward self a) = rmap size (ComplexNorm.forward self b).
Proof.
  intros H. unfold ComplexNorm.forward, Torch.view_as_complex. rewrite H.
  destruct (rev (size b)) as [ | [ | [ | [ | d ] ] ] s ]; try reflexivity.
  cbn [rbind]. destruct (ComplexNorm.mono self); [ | reflexivity ].
  unfold Torch.mean_dim1_keepdim. cbn [Torch.abs size].
  destruct (rev s) as [ | d0 [ | d1 rest] ]; reflexivity.
Qed.

(** X24: the size of what the front end returns only depends on the size
    of what it is given.  On two waveforms of the same size,
    [AudioEncoder.forward] raises the same exception, or returns two tensors
    of the same size: a mixture and a target of the same size give a model
    input and a training target of the same size. *)
Theorem AudioEncoder_forward_size_only :
  forall (self : AudioEncoder.t) (x y : Tensor R) (st : Store),
    size x = size y ->
    match snd (AudioEncoder.forward self x st), snd (AudioEncoder.forward self y st) with
    | Ok a, Ok b => size a = size b
    | Raise e1, Raise e2 => e1 = e2
    | _, _ => False
    end.
Proof.
  intros self x y st H. apply rmap_size_eq.
  unfold AudioEncoder.forward, bind, lift. rewrite !TorchSTFT_forward_outcome.
  pose proof (rmap_size_eq _ _
                (stft_outcome_size_only
                   (nth_error st (TorchSTFT.window (AudioEncoder.stft self)))
                   (TorchSTFT.n_fft (AudioEncoder.stft self))
                   (TorchSTFT.n_hop (AudioEncoder.stft self))
                   (TorchSTFT.center (AudioEncoder.stft self)) x y H)) as Hr.
  destruct (stft_outcome _ _ _ _ x) as [a | e1], (stft_outcome _ _ _ _ y) as [b | e2];
    cbn [snd]; try contradiction; [ | congruence ].
  now apply complex_norm_size_only.
Qed.

End SizeOnly.

(** X24 on [ramp6] and its double. *)
Lemma AudioEncoder_forward_size_only_witness :
  match snd (AudioEncoder.forward
               (AudioEncoder.mk (TorchSTFT.mk 0%nat 4 2 false) (ComplexNorm.mk true))
               ramp6 [hann4]),
        snd (AudioEncoder.forward
               (AudioEncoder.mk (TorchSTFT.mk 0%nat 4 2 false) (ComplexNorm.mk true))
               (scale 2 ramp6) [hann4]) with
  | Ok a, Ok b => size a = size b
  | Raise e1, Raise e2 => e1 = e2
  | _, _ => False
  end.
Proof.
  apply (AudioEncoder_forward_size_only
           (AudioEncoder.mk (TorchSTFT.mk 0%nat 4 2 false) (ComplexNorm.mk true))
           ramp6 (scale 2 ramp6) [hann4]).
  reflexivity.
Defined.

(** * The round trip through the codec *)

Section RoundTrip.

Local Open Scope R_scope.

(** ** Finite sums *)

Lemma rsum_app l1 l2 : Torch.rsum (l1 ++ l2) = Torch.rsum l1 + Torch.rsum l2.
Proof. induction l1 as [ | a l1 IH]; simpl; [ lra | rewrite IH; lra ]. Qed.

Lemma rsum_ext {A : Type} (f g : A -> R) (l : list A) :
  (forall a, In a l -> f a = g a) -> Torch.rsum (map f l) = Torch.rsum (map g l).
Proof. intros H. f_equal. now apply map_ext_in. Qed.

Lemma rsum_opp {A : Type} (f : A -> R) (l : list A) :
  Torch.rsum (map (fun a => - f a) l) = - Torch.rsum (map f l).
Proof. induction l as [ | a l IH]; simpl; [ lra | rewrite IH; lra ]. Qed.

Lemma rsum_zero {A : Type} (l : list A) : Torch.rsum (map (fun _ => 0) l) = 0.
Proof. induction l as [ | a l IH]; simpl; [ reflexivity | rewrite IH; lra ]. Qed.

Lemma rsum_swap {A B : Type} (g : A -> B -> R) (l1 : list A) (l2 : list B) :
  Torch.rsum (map (fun a => Torch.rsum (map (g a) l2)) l1) =
  Torch.rsum (map (fun b => Torch.rsum (map (fun a => g a b) l1)) l2).
Proof.
  induction l1 as [ | a l1 IH]; simpl.
  - now rewrite rsum_zero.
  - rewrite IH, <- rsum_add. reflexivity.
Qed.

(** The only term of a sum that is not zero. *)
Lemma rsum_single (g : nat -> R) (j : nat) :
  forall n s, (s <= j < s + n)%nat ->
    Torch.rsum (map (fun k => if (k =? j)%nat then g k else 0) (seq s n)) = g j.
Proof.
  induction n as [ | n IH]; intros s H; [ lia | ].
  simpl. destruct (Nat.eqb_spec s j) as [-> | Hne].
  - rewrite (rsum_ext _ (fun _ => 0)), rsum_zero; [ lra | ].
    intros k Hk. apply in_seq in Hk.
    destruct (Nat.eqb_spec k j); [ lia | reflexivity ].
  - rewrite IH by lia. lra.
Qed.

(** ** The inverse transform undoes the transform *)

(** Lagrange's identity, telescoped. *)
Lemma cos_sum_telescope (theta : R) (m : nat) :
  2 * sin (theta / 2) * Torch.rsum (map (fun f => cos (INR f * theta)) (seq 0 m)) =
  sin ((INR m - 1 / 2) * theta) + sin (theta / 2).
Proof.
  induction m as [ | m IH].
  - simpl. replace ((0 - 1 / 2) * theta) with (- (theta / 2)) by field.
    rewrite sin_neg. lra.
  - rewrite seq_S, map_app, rsum_app. simpl Torch.rsum. simpl Nat.add.
    rewrite Rmult_plus_distr_l, IH. rewrite S_INR.
    replace ((INR m + 1 - 1 / 2) * theta) with (INR m * theta + theta / 2) by field.
    replace ((INR m - 1 / 2) * theta) with (INR m * theta - theta / 2) by field.
    rewrite sin_plus, sin_minus. lra.
Qed.

Lemma cos_sum_zero (n d : nat) :
  (0 < d < n)%nat ->
  Torch.rsum (map (fun f => cos (INR f * (2 * PI * INR d / INR n))) (seq 0 n)) = 0.
Proof.
  intros Hd.
  assert (Hn : 0 < INR n) by (apply lt_0_INR; lia).
  assert (Hd0 : 0 < INR d) by (apply lt_0_INR; lia).
  assert (Hdn : INR d < INR n) by (apply lt_INR; lia).
  set (theta := 2 * PI * INR d / INR n).
  pose proof (cos_sum_telescope theta n) as H.
  replace ((INR n - 1 / 2) * theta) with (- (theta / 2) + 2 * INR d * PI) in H
    by (unfold theta; field; lra).
  rewrite sin_period, sin_neg in H.
  assert (Hs : 0 < sin (theta / 2)).
  { pose proof PI_RGT_0 as Hpi.
    replace (theta / 2) with (PI * (INR d / INR n)) by (unfold theta; field; lra).
    assert (Hq : 0 < INR d / INR n < 1).
    { split.
      - apply Rdiv_lt_0_compat; assumption.
      - apply (Rmult_lt_reg_r (INR n)); [ exact Hn | ].
        unfold Rdiv. rewrite Rmult_assoc, Rinv_l by lra. lra. }
    apply sin_gt_0; nra. }
  nra.
Qed.

(** Orthogonality of the [n] complex exponentials. *)
Lemma cos_sum_diff (n k j : nat) :
  (k < n)%nat -> (j < n)%nat ->
  Torch.rsum
    (map (fun f => cos (2 * PI * INR f * INR k / INR n - 2 * PI * INR f * INR j / INR n))
         (seq 0 n)) =
  if (k =? j)%nat then INR n else 0.
Proof.
  intros Hk Hj.
  assert (Hn : 0 < INR n) by (apply lt_0_INR; lia).
  destruct (Nat.eqb_spec k j) as [-> | Hne].
  - rewrite (rsum_ext _ (fun _ => 1)).
    + clear. induction n as [ | n IH]; [ reflexivity | ].
      rewrite seq_S, map_app, rsum_app, IH, S_INR. simpl. lra.
    + intros f _. rewrite Rminus_diag. apply cos_0.
  - destruct (Nat.lt_ge_cases j k) as [Hlt | Hge].
    + rewrite <- (cos_sum_zero n (k - j)) by lia.
      apply rsum_ext. intros f _. f_equal.
      rewrite minus_INR by lia. field. lra.
    + rewrite <- (cos_sum_zero n (j - k)) by lia.
      apply rsum_ext. intros f _. rewrite <- cos_neg. f_equal.
      rewrite minus_INR by lia. field. lra.
Qed.

(** The Hermitian extension of the one-sided transform of a real signal is
    its full transform. *)
Lemma hermitian_rfft (n : nat) (xs : list R) (f : nat) :
  (f < n)%nat ->
  Torch.hermitian n (map (Torch.rfft_bin n xs) (seq 0 (n / 2 + 1))) f =
  Torch.rfft_bin n xs f.
Proof.
  intros Hf. unfold Torch.hermitian.
  assert (Hn : 0 < INR n) by (apply lt_0_INR; lia).
  destruct (Nat.leb_spec f (n / 2)) as [Hle | Hgt].
  - apply nth_map_seq. lia.
  - assert (Hhalf : (n - f <= n / 2)%nat).
    { pose proof (Nat.div_mod_eq n 2) as Hdm.
      pose proof (Nat.mod_upper_bound n 2 ltac:(lia)). lia. }
    rewrite nth_map_seq by lia.
    unfold Torch.rfft_bin. cbn [fst snd]. rewrite Ropp_involutive. f_equal.
    + apply rsum_ext. intros k _. f_equal.
      replace (2 * PI * INR (n - f) * INR k / INR n)
        with (- (2 * PI * INR f * INR k / INR n) + 2 * INR k * PI)
        by (rewrite minus_INR by lia; field; lra).
      now rewrite cos_period, cos_neg.
    + rewrite <- rsum_opp.
      apply rsum_ext. intros k _.
      replace (2 * PI * INR (n - f) * INR k / INR n)
        with (- (2 * PI * INR f * INR k / INR n) + 2 * INR k * PI)
        by (rewrite minus_INR by lia; field; lra).
      rewrite sin_period, sin_neg. ring.
Qed.

Lemma irfft_rfft (n : nat) (xs : list R) (j : nat) :
  (j < n)%nat ->
  Torch.irfft_entry n (map (Torch.rfft_bin n xs) (seq 0 (n / 2 + 1))) j = nth j xs 0.
Proof.
  intros Hj. unfold Torch.irfft_entry.
  assert (Hn : 0 < INR n) by (apply lt_0_INR; lia).
  rewrite (rsum_ext _
    (fun f => Torch.rsum (map (fun k => nth k xs 0 *
                cos (2 * PI * INR f * INR k / INR n - 2 * PI * INR f * INR j / INR n))
              (seq 0 n)))).
  - rewrite (rsum_swap (fun f k => nth k xs 0 *
                cos (2 * PI * INR f * INR k / INR n - 2 * PI * INR f * INR j / INR n))).
    rewrite (rsum_ext _ (fun k => if (k =? j)%nat then nth k xs 0 * INR n else 0)).
    + rewrite (rsum_single (fun k => nth k xs 0 * INR n)) by lia. field. lra.
    + intros k Hk. apply in_seq in Hk. rewrite rsum_scale.
      rewrite cos_sum_diff by lia. destruct (k =? j)%nat; ring.
  - intros f Hf. apply in_seq in Hf. rewrite hermitian_rfft by lia.
    unfold Torch.rfft_bin. cbn [fst snd].
    rewrite (rsum_ext
               (fun k => nth k xs 0 *
                  cos (2 * PI * INR f * INR k / INR n - 2 * PI * INR f * INR j / INR n))
               (fun k => cos (2 * PI * INR f * INR j / INR n) *
                           (nth k xs 0 * cos (2 * PI * INR f * INR k / INR n)) +
                         sin (2 * PI * INR f * INR j / INR n) *
                           (nth k xs 0 * sin (2 * PI * INR f * INR k / INR n))))
      by (intros k _; rewrite cos_minus; ring).
    rewrite rsum_add, !rsum_scale. ring.
Qed.

(** ** Frames, windows and rows by index *)

Lemma nth_frame n hop row t k :
  (k < n)%nat -> nth k (Torch.frame n hop row t) 0 = nth (t * hop + k) row 0.
Proof.
  intros Hk. unfold Torch.frame. rewrite nth_firstn.
  destruct (Nat.ltb_spec k n); [ apply nth_skipn | lia ].
Qed.

Lemma length_frame_within n hop row t :
  (t * hop + n <= length row)%nat -> length (Torch.frame n hop row t) = n.
Proof.
  intros H. unfold Torch.frame. rewrite length_firstn, length_skipn. lia.
Qed.

Lemma nth_windowed w xs k :
  length xs = length w ->
  nth k (Torch.windowed w xs) 0 = nth k xs 0 * nth k w 0.
Proof.
  intros Hlen. unfold Torch.windowed.
  destruct (Nat.lt_ge_cases k (length xs)) as [Hk | Hk].
  - pose proof (map_nth (fun p : R * R => fst p * snd p) (combine xs w) (0, 0) k) as H.
    cbn [fst snd] in H.
    rewrite (nth_indep _ 0 (0 * 0)) by (rewrite length_map, length_combine; lia).
    rewrite H, combine_nth by exact Hlen. reflexivity.
  - rewrite !nth_overflow; [ ring | lia | lia | ].
    rewrite length_map, length_combine. lia.
Qed.

Lemma length_row_of_within L xs b N :
  length xs = (N * L)%nat -> (b < N)%nat -> length (Torch.row_of L xs b) = L.
Proof.
  intros Hlen Hb. unfold Torch.row_of. rewrite length_firstn, length_skipn. nia.
Qed.

Lemma nth_row_of L xs b j :
  (j < L)%nat -> nth j (Torch.row_of L xs b) 0 = nth (b * L + j) xs 0.
Proof.
  intros Hj. unfold Torch.row_of. rewrite nth_firstn.
  destruct (Nat.ltb_spec j L); [ apply nth_skipn | lia ].
Qed.

Lemma length_tl {A : Type} (l : list A) : length (tl l) = (length l - 1)%nat.
Proof. destruct l; simpl; lia. Qed.

Lemma length_reflect_pad_within p row :
  (p < length row)%nat -> length (Torch.reflect_pad p row) = (length row + 2 * p)%nat.
Proof.
  intros Hp. unfold Torch.reflect_pad.
  rewrite !length_app, length_rev, !length_firstn, !length_tl, length_rev. lia.
Qed.

Lemma nth_reflect_pad p row j :
  (p < length row)%nat -> (j < length row)%nat ->
  nth (p + j) (Torch.reflect_pad p row) 0 = nth j row 0.
Proof.
  intros Hp Hj. unfold Torch.reflect_pad.
  assert (Hl : length (rev (firstn p (tl row))) = p)
    by (rewrite length_rev, length_firstn, length_tl; lia).
  rewrite <- Hl at 1. rewrite app_nth2_plus, app_nth1 by exact Hj. reflexivity.
Qed.

(** ** The spectrogram by index *)

Lemma nth_spectrogram n hop bins T w (rows : nat -> list R) N b f t :
  (b < N)%nat -> (f < bins)%nat -> (t < T)%nat ->
  nth ((b * bins + f) * T + t)
      (Torch.spectrogram n hop bins T w (map rows (seq 0 N))) (0, 0) =
  Torch.rfft_bin n (Torch.windowed w (Torch.frame n hop (rows b) t)) f.
Proof.
  intros Hb Hf Ht. unfold Torch.spectrogram. rewrite flat_map_map.
  replace ((b * bins + f) * T + t)%nat with (b * (bins * T) + (f * T + t))%nat by lia.
  rewrite (nth_flat_map_blocks _ (bins * T) N).
  - rewrite (nth_flat_map_blocks _ T bins);
      [ now rewrite nth_map_seq
      | intros f'; now rewrite length_map, length_seq | exact Hf | exact Ht ].
  - intros b'. apply spectrogram_block_length.
  - exact Hb.
  - nia.
Qed.

Lemma bins_of_spectrogram n hop bins T w (rows : nat -> list R) N b t :
  (b < N)%nat -> (t < T)%nat ->
  Torch.bins_of bins T (Torch.spectrogram n hop bins T w (map rows (seq 0 N))) b t =
  map (Torch.rfft_bin n (Torch.windowed w (Torch.frame n hop (rows b) t))) (seq 0 bins).
Proof.
  intros Hb Ht. unfold Torch.bins_of. apply map_ext_in. intros f Hf.
  apply in_seq in Hf. apply nth_spectrogram; lia.
Qed.

(** ** Overlap-add *)

(** A frame that went through the transform and back, by index. *)
Lemma irfft_frame n hop bins T w (rows : nat -> list R) N b t k :
  bins = (n / 2 + 1)%nat ->
  (b < N)%nat -> (t < T)%nat -> (k < n)%nat ->
  length w = n ->
  (t * hop + n <= length (rows b))%nat ->
  Torch.irfft_entry n
    (Torch.bins_of bins T (Torch.spectrogram n hop bins T w (map rows (seq 0 N))) b t) k =
  nth (t * hop + k) (rows b) 0 * nth k w 0.
Proof.
  intros -> Hb Ht Hk Hw Hrow.
  rewrite bins_of_spectrogram, irfft_rfft by assumption.
  rewrite nth_windowed by (rewrite length_frame_within; [ now rewrite Hw | exact Hrow ]).
  now rewrite nth_frame.
Qed.

(** The overlap-add of the frames of a signal is the signal multiplied by
    the window envelope. *)
Lemma overlap_add_frames n hop bins T w (rows : nat -> list R) N b i :
  bins = (n / 2 + 1)%nat ->
  (b < N)%nat -> length w = n ->
  (forall t, (t < T)%nat -> (t * hop + n <= length (rows b))%nat) ->
  Torch.overlap_add n hop T
    (fun t k =>
       Torch.irfft_entry n
         (Torch.bins_of bins T
            (Torch.spectrogram n hop bins T w (map rows (seq 0 N))) b t) k
       * nth k w 0) i =
  nth i (rows b) 0 * Torch.window_envelope n hop T w i.
Proof.
  intros Hbins Hb Hw Hrows. unfold Torch.window_envelope, Torch.overlap_add.
  rewrite <- rsum_scale. apply rsum_ext. intros t Ht. apply in_seq in Ht.
  destruct (Nat.leb_spec (t * hop) i) as [Hlo | Hlo]; cbn [andb]; [ | ring ].
  destruct (Nat.ltb_spec i (t * hop + n)) as [Hhi | Hhi]; [ | ring ].
  rewrite (irfft_frame n hop bins T w rows N b t (i - t * hop) Hbins Hb)
    by (try apply Hrows; lia).
  replace (t * hop + (i - t * hop))%nat with i by lia. ring.
Qed.

Lemma window_envelope_nonneg n hop T w i : 0 <= Torch.window_envelope n hop T w i.
Proof.
  unfold Torch.window_envelope, Torch.overlap_add.
  apply rsum_nonneg, Forall_forall. intros v Hv.
  apply in_map_iff in Hv. destruct Hv as [t [<- _]].
  destruct (_ && _); [ | lra ].
  apply Rle_0_sqr.
Qed.

(** Beyond the last frame the envelope is zero. *)
Lemma window_envelope_beyond n hop T w i :
  (n + hop * (T - 1) <= i)%nat -> Torch.window_envelope n hop T w i = 0.
Proof.
  intros Hi. unfold Torch.window_envelope, Torch.overlap_add.
  rewrite (rsum_ext _ (fun _ => 0)); [ apply rsum_zero | ].
  intros t Ht. apply in_seq in Ht.
  destruct (Nat.ltb_spec i (t * hop + n)) as [Hhi | Hhi];
    [ nia | now rewrite andb_false_r ].
Qed.

(** ** The transform and its inverse on rows *)

Lemma stft_rows_centred N L xs n_fft n_hop (w : Tensor R) :
  (0 < N)%nat -> (0 < n_fft)%Z -> (0 < n_hop)%Z ->
  size w = [Z.to_nat n_fft] ->
  (n_fft / 2 < Z.of_nat L)%Z ->
  Torch.stft_rows N L xs n_fft n_hop w true =
  Ok (mkTensor [N; freq_bins n_fft; n_frames true n_fft n_hop L]
        (Torch.spectrogram (Z.to_nat n_fft) (Z.to_nat n_hop) (freq_bins n_fft)
           (n_frames true n_fft n_hop L) (data w)
           (map (fun b => Torch.reflect_pad (Z.to_nat (n_fft / 2)) (Torch.row_of L xs b))
                (seq 0 N)))).
Proof.
  intros HN Hn Hh Hw HL. unfold Torch.stft_rows.
  destruct (Z.leb_spec n_fft 0); [ lia | ].
  pose proof (half_bounds n_fft) as Hhalf.
  assert (Hlen : (n_fft <= padded_length true n_fft L)%Z)
    by (unfold padded_length; lia).
  pose proof (n_frames_nat true n_fft n_hop L Hn Hh Hlen) as Hframes.
  pose proof (freq_bins_nat n_fft Hn) as Hbins.
  cbv zeta in Hframes. rewrite Hw.
  destruct (Nat.eqb_spec N 0); [ lia | ].
  destruct (Nat.leb_spec L (Z.to_nat (n_fft / 2))); [ lia | ].
  cbn [orb rbind fst snd].
  destruct (Nat.ltb_spec (L + 2 * Z.to_nat (n_fft / 2)) (Z.to_nat n_fft)) as [Hlt | _].
  { unfold padded_length in Hlen. lia. }
  destruct (Z.leb_spec n_hop 0); [ lia | ].
  rewrite Nat.eqb_refl, Hbins, Hframes. reflexivity.
Qed.

Lemma seq_from (p : nat) : forall L s, map (Nat.add p) (seq s L) = seq (p + s) L.
Proof.
  induction L as [ | L IH]; intros s; [ reflexivity | ].
  cbn [seq map]. rewrite IH. f_equal. f_equal. lia.
Qed.

Lemma flat_map_ext_seq {A : Type} (f g : nat -> list A) (n : nat) :
  (forall b, (b < n)%nat -> f b = g b) ->
  flat_map f (seq 0 n) = flat_map g (seq 0 n).
Proof.
  intros H. rewrite !flat_map_concat_map. f_equal.
  apply map_ext_in. intros b Hb. apply in_seq in Hb. apply H. lia.
Qed.

Lemma slice_end_within (size start L : nat) :
  (start + L <= size)%nat ->
  Torch.slice_end size start (Some (Z.of_nat start + Z.of_nat L)%Z) = (start + L)%nat.
Proof.
  intros H. unfold Torch.slice_end.
  destruct (Z.ltb_spec (Z.of_nat start + Z.of_nat L) 0); lia.
Qed.

(** The frames of a centred signal lie within the padded signal. *)
Lemma frames_within n_fft n_hop L t :
  (0 < n_fft)%Z -> (0 < n_hop)%Z -> (n_fft / 2 < Z.of_nat L)%Z ->
  (t < n_frames true n_fft n_hop L)%nat ->
  (t * Z.to_nat n_hop + Z.to_nat n_fft <= L + 2 * Z.to_nat (n_fft / 2))%nat.
Proof.
  intros Hn Hh HL Ht.
  pose proof (half_bounds n_fft) as Hhalf.
  assert (Hlen : (n_fft <= padded_length true n_fft L)%Z)
    by (unfold padded_length; lia).
  pose proof (n_frames_nat true n_fft n_hop L Hn Hh Hlen) as Hframes.
  cbv zeta in Hframes. rewrite <- Hframes in Ht.
  set (len := (L + 2 * Z.to_nat (n_fft / 2))%nat) in *.
  set (n := Z.to_nat n_fft) in *. set (hop := Z.to_nat n_hop) in *.
  assert (Hle : (n <= len)%nat) by (unfold padded_length in Hlen; lia).
  pose proof (Nat.Div0.mul_div_le (len - n) hop) as Hdiv.
  assert (Ht' : (t <= (len - n) / hop)%nat) by lia.
  assert (Hmul : (t * hop <= hop * ((len - n) / hop))%nat) by nia.
  lia.
Qed.

(** On the spectrogram of centred signals that meet the overlap
    condition, the inverse transform returns the signals. *)
Lemma istft_rows_inverts N L xs n_fft n_hop (w : Tensor R) :
  (0 < N)%nat -> (0 < n_fft)%Z -> (0 < n_hop <= n_fft)%Z ->
  size w = [Z.to_nat n_fft] -> length (data w) = Z.to_nat n_fft ->
  (n_fft / 2 < Z.of_nat L)%Z ->
  length xs = (N * L)%nat ->
  overlap_ok w n_fft n_hop L ->
  Torch.istft_rows N (freq_bins n_fft) (n_frames true n_fft n_hop L)
    (Torch.spectrogram (Z.to_nat n_fft) (Z.to_nat n_hop) (freq_bins n_fft)
       (n_frames true n_fft n_hop L) (data w)
       (map (fun b => Torch.reflect_pad (Z.to_nat (n_fft / 2)) (Torch.row_of L xs b))
            (seq 0 N)))
    n_fft n_hop w true (Some (Z.of_nat L)) =
  Ok (mkTensor [N; L] xs).
Proof.
  intros HN Hn [Hh Hhn] Hw Hwl HL Hxs Hov.
  pose proof (half_bounds n_fft) as Hhalf.
  pose proof (freq_bins_nat n_fft Hn) as Hbins.
  pose proof (n_frames_pos true n_fft n_hop L Hn Hh HL) as HT.
  set (n := Z.to_nat n_fft) in *. set (hop := Z.to_nat n_hop) in *.
  set (p := Z.to_nat (n_fft / 2)) in *.
  set (F := freq_bins n_fft) in *. set (T := n_frames true n_fft n_hop L) in *.
  set (rows := fun b => Torch.reflect_pad p (Torch.row_of L xs b)).
  assert (HL0 : (0 < L)%nat) by lia.
  assert (HpL : (p < L)%nat) by lia.
  assert (Hcover : (p + L <= n + hop * (T - 1))%nat).
  { destruct (Nat.le_gt_cases (p + L) (n + hop * (T - 1))) as [H | H]; [ exact H | ].
    pose proof (Hov (L - 1)%nat ltac:(lia)) as Hlast. fold n hop p T in Hlast.
    rewrite window_envelope_beyond in Hlast by lia. lra. }
  unfold Torch.istft_rows.
  destruct (Z.leb_spec n_fft 0); [ lia | ].
  destruct (Nat.eqb_spec (N * F * T) 0) as [H0 | _].
  { assert (HF : (0 < F)%nat) by (unfold F, freq_bins; lia). nia. }
  fold n. rewrite Hbins, Nat.eqb_refl. cbn [negb].
  destruct (Z.leb_spec n_hop 0); [ lia | ].
  destruct (Z.ltb_spec n_fft n_hop); [ lia | ].
  cbn [orb]. rewrite Hw, Nat.eqb_refl. cbv zeta. fold hop p.
  rewrite slice_end_within by exact Hcover.
  destruct (Nat.leb_spec (p + L) p); [ lia | ].
  replace (p + L - p)%nat with L by lia.
  replace (Z.to_nat (Z.of_nat p + Z.of_nat L - Z.of_nat (n + hop * (T - 1)))) with 0%nat
    by lia.
  assert (Henv : forall i, In i (seq p L) ->
            1e-11 <= Torch.window_envelope n hop T (data w) i).
  { intros i Hi. apply in_seq in Hi.
    replace i with (p + (i - p))%nat by lia. apply Hov. lia. }
  destruct (existsb _ (seq p L)) eqn:Hexists.
  { exfalso. apply existsb_exists in Hexists. destruct Hexists as [i [Hi Hlow]].
    specialize (Henv i Hi).
    destruct (Rlt_dec _ _) as [Hlt | _]; [ | discriminate ].
    rewrite Rabs_right in Hlt by lra. lra. }
  f_equal. f_equal; [ f_equal; f_equal; lia | ].
  rewrite <- (blocks_identity xs N L Hxs).
  apply flat_map_ext_seq. intros b Hb. cbn [repeat]. rewrite app_nil_r.
  replace (seq p L) with (map (Nat.add p) (seq 0 L))
    by (rewrite seq_from; f_equal; lia).
  rewrite map_map.
  apply map_ext_in. intros j Hj. apply in_seq in Hj.
  assert (Hrow : length (Torch.row_of L xs b) = L)
    by (apply (length_row_of_within L xs b N); assumption).
  rewrite (overlap_add_frames n hop F T (data w) rows N b (p + j)).
  - specialize (Henv (p + j)%nat ltac:(apply in_seq; lia)).
    unfold rows. rewrite nth_reflect_pad, nth_row_of by lia.
    field. lra.
  - now rewrite <- Hbins.
  - exact Hb.
  - exact Hwl.
  - intros t Ht. unfold rows. rewrite length_reflect_pad_within, Hrow by lia.
    now apply frames_within.
Qed.


(** What a centred encoder returns. *)
Lemma TorchSTFT_forward_centred (l : loc) (n_fft n_hop : Z) (w x : Tensor R)
    (st : Store) (lead : list nat) (L : nat) :
  nth_error st l = Some w ->
  size w = [Z.to_nat n_fft] ->
  (0 < n_fft)%Z -> (0 < n_hop)%Z ->
  size x = lead ++ [L] ->
  (0 < numel lead)%nat ->
  (n_fft / 2 < Z.of_nat L)%Z ->
  TorchSTFT.forward (TorchSTFT.mk l n_fft n_hop true) x st =
  (st,
   Ok (mkTensor (lead ++ [freq_bins n_fft; n_frames true n_fft n_hop L; 2%nat])
         (flat_map (fun z : C => [fst z; snd z])
            (Torch.spectrogram (Z.to_nat n_fft) (Z.to_nat n_hop) (freq_bins n_fft)
               (n_frames true n_fft n_hop L) (data w)
               (map (fun b => Torch.reflect_pad (Z.to_nat (n_fft / 2))
                                 (Torch.row_of L (data x) b))
                    (seq 0 (numel lead))))))).
Proof.
  intros Hl Hw Hn Hh Hsize Hlead HL.
  assert (Hacc : stft_accepts n_fft n_hop true w L) by (repeat split; assumption).
  destruct (stft_outcome_explicit w n_fft n_hop true x lead L Hsize Hlead Hacc)
    as [c [Hc [Hcs Hout]]].
  unfold Torch.stft in Hc. cbn [size data] in Hc.
  rewrite (stft_rows_centred _ _ _ _ _ _ Hlead Hn Hh Hw HL) in Hc.
  injection Hc as <-. cbn [size data Torch.view_as_real] in Hout.
  rewrite TorchSTFT_forward_outcome.
  cbn [TorchSTFT.center TorchSTFT.n_fft TorchSTFT.n_hop TorchSTFT.window].
  now rewrite Hl, Hout.
Qed.

(** ** The Hann window of four entries *)







(** What a decoder returns on the spectrogram of a centred encoder, under
    the overlap condition. *)
Lemma TorchISTFT_forward_inverts (l : loc) (n_fft n_hop : Z) (sample_rate : R)
    (w x : Tensor R) (st : Store) (lead : list nat) (L : nat) :
  nth_error st l = Some w ->
  size w = [Z.to_nat n_fft] ->
  contiguous w ->
  (0 < n_hop <= n_fft)%Z ->
  size x = lead ++ [L] ->
  contiguous x ->
  (0 < numel lead)%nat ->
  (n_fft / 2 < Z.of_nat L)%Z ->
  overlap_ok w n_fft n_hop L ->
  TorchISTFT.forward Torch.istft (TorchISTFT.mk n_fft n_hop true sample_rate l)
    (mkTensor (lead ++ [freq_bins n_fft; n_frames true n_fft n_hop L; 2%nat])
       (flat_map (fun z : C => [fst z; snd z])
          (Torch.spectrogram (Z.to_nat n_fft) (Z.to_nat n_hop) (freq_bins n_fft)
             (n_frames true n_fft n_hop L) (data w)
             (map (fun b => Torch.reflect_pad (Z.to_nat (n_fft / 2))
                               (Torch.row_of L (data x) b))
                  (seq 0 (numel lead))))))
    (Some (Z.of_nat L)) st =
  (st, Ok x).
Proof.
  intros Hl Hw Hwc [Hh Hhn] Hsize Hxc Hlead HL Hov.
  assert (Hn : (0 < n_fft)%Z) by lia.
  assert (Hwl : length (data w) = Z.to_nat n_fft).
  { unfold contiguous in Hwc. rewrite Hwc, Hw. simpl. lia. }
  assert (Hxs : length (data x) = (numel lead * L)%nat).
  { unfold contiguous in Hxc. rewrite Hxc, Hsize, numel_app. simpl. lia. }
  assert (HT : (0 < n_frames true n_fft n_hop L)%nat) by (now apply n_frames_pos).
  assert (HF : (0 < freq_bins n_fft)%nat).
  { unfold freq_bins. pose proof (half_bounds n_fft). lia. }
  match goal with
  | |- TorchISTFT.forward _ _ ?X _ _ = _ =>
      rewrite (TorchISTFT_forward_outcome Torch.istft
                 (TorchISTFT.mk n_fft n_hop true sample_rate l) X w
                 (Some (Z.of_nat L)) st lead (freq_bins n_fft)
                 (n_frames true n_fft n_hop L) eq_refl HF HT Hl)
  end.
  cbn [data TorchISTFT.center TorchISTFT.n_fft TorchISTFT.n_hop].
  rewrite pairs_view_as_real. unfold Torch.istft. cbn [size data].
  rewrite (istft_rows_inverts (numel lead) L (data x) n_fft n_hop w
             Hlead Hn (conj Hh Hhn) Hw Hwl HL Hxs Hov).
  cbn [rbind]. unfold Torch.view. cbn [size data].
  change (lastn 1 [numel lead; L]) with [L].
  rewrite numel_app. change (numel [numel lead; L]) with (numel lead * (L * 1))%nat.
  change (numel [L]) with (L * 1)%nat. rewrite Nat.eqb_refl.
  destruct x as [xs xd]. cbn [size data] in *. now subst xs.
Qed.


(** ** The Hann window with a hop of half the window at most *)

Lemma rsum_ge_term {A : Type} (g : A -> R) (l : list A) (a : A) :
  (forall b, 0 <= g b) -> In a l -> g a <= Torch.rsum (map g l).
Proof.
  intros Hpos. induction l as [ | b l IH]; intros Hin; [ contradiction | ].
  cbn [map Torch.rsum fold_right]. fold (Torch.rsum (map g l)).
  destruct Hin as [-> | Hin].
  - assert (H : 0 <= Torch.rsum (map g l)).
    { apply rsum_nonneg, Forall_forall. intros v Hv.
      apply in_map_iff in Hv. destruct Hv as [c [<- _]]. apply Hpos. }
    lra.
  - specialize (IH Hin). specialize (Hpos b). lra.
Qed.

(** The envelope is at least the squared entry of any frame that covers the
    sample. *)
Lemma window_envelope_ge n hop T w i t :
  (t < T)%nat -> (t * hop <= i < t * hop + n)%nat ->
  nth (i - t * hop) w 0 * nth (i - t * hop) w 0 <= Torch.window_envelope n hop T w i.
Proof.
  intros Ht [Hlo Hhi]. unfold Torch.window_envelope, Torch.overlap_add.
  pose proof (rsum_ge_term
                (fun t => if ((t * hop <=? i) && (i <? t * hop + n))%nat
                          then nth (i - t * hop) w 0 * nth (i - t * hop) w 0 else 0)
                (seq 0 T) t) as H.
  cbv beta in H.
  destruct (Nat.leb_spec (t * hop) i); [ | lia ].
  destruct (Nat.ltb_spec i (t * hop + n)); [ | lia ].
  cbn [andb] in H. apply H.
  - intros b. destruct (_ && _); [ apply Rle_0_sqr | lra ].
  - apply in_seq. lia.
Qed.

(** The middle half of the Hann window is at least [1 / 2]. *)
Lemma hann_entry_middle (n k : nat) :
  (0 < n)%nat -> (n <= 4 * k <= 3 * n)%nat -> 1 / 2 <= Torch.hann_entry n k.
Proof.
  intros Hn [Hlo Hhi]. unfold Torch.hann_entry.
  assert (Hn' : 0 < INR n) by (apply lt_0_INR; exact Hn).
  assert (H1 : INR n <= 4 * INR k).
  { apply le_INR in Hlo. rewrite mult_INR in Hlo. simpl in Hlo. lra. }
  assert (H2 : 4 * INR k <= 3 * INR n).
  { apply le_INR in Hhi. rewrite !mult_INR in Hhi. simpl in Hhi. lra. }
  pose proof PI_RGT_0 as Hpi.
  set (q := INR k / INR n).
  assert (Hq : 1 / 4 <= q <= 3 / 4).
  { unfold q. split.
    - apply (Rmult_le_reg_r (INR n)); [ exact Hn' | ].
      unfold Rdiv. rewrite (Rmult_assoc (INR k)), Rinv_l by lra. lra.
    - apply (Rmult_le_reg_r (INR n)); [ exact Hn' | ].
      unfold Rdiv. rewrite (Rmult_assoc (INR k)), Rinv_l by lra. lra. }
  replace (INR k * (2 * PI / INR n)) with (2 * PI * q) by (unfold q; field; lra).
  assert (Hcos : cos (2 * PI * q) <= 0) by (apply cos_le_0; nra).
  lra.
Qed.

(** With an even [n_fft], a hop of half the window at most and a number of
    samples that is a multiple of the hop, every sample lies in the middle
    half of a frame: the Hann window meets the overlap condition. *)
Lemma hann_overlap (n_fft n_hop : Z) (L : nat) (h : Tensor R) :
  Torch.hann_window n_fft = Ok h ->
  (0 < n_hop)%Z -> (2 * n_hop <= n_fft)%Z ->
  (n_fft mod 2 = 0)%Z ->
  (Z.of_nat L mod n_hop = 0)%Z ->
  overlap_ok h n_fft n_hop L.
Proof.
  intros Hh Hhop Hhalf Heven Hmul j Hj.
  assert (Hn2 : (2 <= n_fft)%Z) by lia.
  rewrite (hann_window_general n_fft Hn2) in Hh. injection Hh as <-.
  cbn [data].
  pose proof (Z.div_mod n_fft 2 ltac:(lia)) as Hdm2. rewrite Heven in Hdm2.
  pose proof (Z.div_mod (Z.of_nat L) n_hop ltac:(lia)) as HdmL. rewrite Hmul in HdmL.
  assert (Hq0 : (0 <= Z.of_nat L / n_hop)%Z) by (apply Z.div_pos; lia).
  set (n := Z.to_nat n_fft). set (hop := Z.to_nat n_hop).
  set (p := Z.to_nat (n_fft / 2)). set (q := Z.to_nat (Z.of_nat L / n_hop)).
  assert (Hnp : n = (2 * p)%nat) by (unfold n, p; lia).
  assert (HLq : L = (q * hop)%nat) by (unfold q, hop; nia).
  assert (Hhp : (0 < hop <= p)%nat) by (unfold hop, p; lia).
  assert (HT : n_frames true n_fft n_hop L = S q).
  { unfold n_frames, padded_length.
    replace (Z.of_nat L + 2 * (n_fft / 2) - n_fft)%Z with (Z.of_nat L) by lia.
    unfold q. lia. }
  rewrite HT.
  set (a := ((n + 3) / 4)%nat).
  assert (Ha : (n <= 4 * a <= n + 3)%nat).
  { unfold a. pose proof (Nat.div_mod_eq (n + 3) 4) as Hd.
    pose proof (Nat.mod_upper_bound (n + 3) 4 ltac:(lia)). lia. }
  set (i := (p + j)%nat).
  set (d := ((i - a) / hop)%nat).
  pose proof (Nat.div_mod_eq (i - a) hop) as Hd. fold d in Hd.
  pose proof (Nat.mod_upper_bound (i - a) hop ltac:(lia)) as Hr.
  set (t := Nat.min d q).
  assert (Ht : (t < S q)%nat) by (unfold t; lia).
  assert (Hk : (t * hop <= i /\ n <= 4 * (i - t * hop) <= 3 * n)%nat).
  { unfold t. destruct (Nat.le_gt_cases d q) as [Hdq | Hdq].
    - rewrite Nat.min_l by exact Hdq. nia.
    - rewrite Nat.min_r by lia.
      assert (Hdh : ((q + 1) * hop <= d * hop)%nat) by nia.
      unfold i in *. nia. }
  destruct Hk as [Hlo [Hk1 Hk2]].
  pose proof (window_envelope_ge n hop (S q) (map (Torch.hann_entry n) (seq 0 n))
                i t Ht ltac:(lia)) as Henv.
  rewrite nth_map_seq in Henv by lia.
  pose proof (hann_entry_middle n (i - t * hop) ltac:(lia) (conj Hk1 Hk2)) as Hmid.
  assert (Hsq : 1 / 4 <= Torch.hann_entry n (i - t * hop) * Torch.hann_entry n (i - t * hop))
    by nra.
  fold i. lra.
Qed.

(** X26: the round trip with the Hann window.  For the pair that
    [make_filterbanks(n_fft, n_hop, True)] returns with an even [n_fft] and
    [0 < n_hop <= n_fft // 2], and a waveform of real numbers with a
    non-empty batch of signals of [L > n_fft // 2] samples, [L] a multiple of
    [n_hop], the decoder called with [length = L] on what the encoder returns
    gives the waveform back, exactly over the real numbers. *)
Theorem make_filterbanks_round_trip :
  forall (n_fft n_hop : Z) (st st' : Store) (encoder : TorchSTFT.t)
         (decoder : TorchISTFT.t) (x : Tensor R) (lead : list nat) (L : nat),
    make_filterbanks n_fft n_hop true st = (st', Ok (encoder, decoder)) ->
    (0 < n_hop)%Z -> (2 * n_hop <= n_fft)%Z ->
    (n_fft mod 2 = 0)%Z ->
    size x = lead ++ [L] ->
    contiguous x ->
    (0 < numel lead)%nat ->
    (n_fft / 2 < Z.of_nat L)%Z ->
    (Z.of_nat L mod n_hop = 0)%Z ->
    exists X,
      TorchSTFT.forward encoder x st' = (st', Ok X) /\
      TorchISTFT.forward Torch.istft decoder X (Some (Z.of_nat L)) st' = (st', Ok x).
Proof.
  intros n_fft n_hop st st' enc dec x lead L Hmake Hh Hhalf Heven Hsize Hxc Hlead HL Hmul.
  destruct (hann_window_returns n_fft ltac:(lia)) as [h [Hh' Hhs]].
  destruct (hann_window_shape n_fft h Hh') as [_ [_ [Hhl _]]].
  rewrite (make_filterbanks_returns _ _ _ _ _ Hh') in Hmake.
  injection Hmake as <- <- <-.
  assert (Hnth : nth_error (st ++ [h]) (length st) = Some h)
    by apply nth_error_app_length.
  assert (Hhc : contiguous h).
  { unfold contiguous. rewrite Hhl, Hhs. simpl. lia. }
  eexists. split.
  - apply (TorchSTFT_forward_centred (length st) n_fft n_hop h x (st ++ [h]) lead L);
      try assumption; lia.
  - apply TorchISTFT_forward_inverts; try assumption; try lia.
    now apply (hann_overlap n_fft n_hop L h).
Qed.

End RoundTrip.



(** X26 for [make_filterbanks(4, 2, True)] from the empty store, on six
    samples. *)
Lemma make_filterbanks_round_trip_witness :
  exists X,
    TorchSTFT.forward (TorchSTFT.mk 0%nat 4 2 true) ramp6 [hann4] = ([hann4], Ok X) /\
    TorchISTFT.forward Torch.istft (TorchISTFT.mk 4 2 true 44100%R 0%nat) X
      (Some (Z.of_nat 6)) [hann4] = ([hann4], Ok ramp6).
Proof.
  apply (make_filterbanks_round_trip 4 2 [] [hann4] _ _ ramp6 [1%nat; 1%nat] 6%nat);
    try reflexivity; try (simpl; lia).
Defined.
